(** * Itinerary generator: job orchestration and persistence layer

    A shallow embedding of the backend worker of the itinerary generator
    (the Firestore REST client and its value codec, the retry helper, the
    zod schemas, the generation client and the worker's request handler),
    followed by the properties proved about it.

    JavaScript values are a tree datatype, objects are association lists in
    [Object.entries] order, exceptions are an explicit [Result], and every
    effect on the outside world (the document store, the generative service,
    timers) is threaded through explicitly. *)

From Stdlib Require Import Ascii.
From stdpp Require Import base numbers list strings gmap.

Open Scope Z_scope.

(** ** JavaScript values and exceptions *)

Module Js.

(** A number is either integral (the case [Number.isInteger] accepts), a
    finite dyadic fraction [m / 2^e], NaN or an infinity.  Integral values
    are modelled in the safe range, where [toString] prints every digit. *)
Inductive JsNumber :=
| Integer (z : Z)
| Fractional (m : Z) (e : positive)
| NaN
| Infinity (negative : bool).

#[local] Unset Elimination Schemes.
Inductive JsValue :=
| JsUndefined
| JsNull
| JsBool (b : bool)
| JsNum (n : JsNumber)
| JsStr (s : string)
| JsDate (t : option Z)
| JsArray (items : list JsValue)
| JsObject (props : list (string * JsValue))
| JsFunction (name : string).
#[local] Set Elimination Schemes.

(** Error classes that the worker throws or meets; [RetryableError] is the
    subclass declared in llm.js, the others are built in or come from zod. *)
Inductive ErrorClass :=
| Error
| RetryableError
| TypeError
| RangeError
| SyntaxError
| ZodError.

Record JsError := mkError { err_class : ErrorClass; message : string }.

(** [error instanceof cls]: every class extends [Error]. *)
Definition instanceof (e : JsError) (cls : ErrorClass) : bool :=
  match cls, err_class e with
  | Error, _ => true
  | RetryableError, RetryableError => true
  | TypeError, TypeError => true
  | RangeError, RangeError => true
  | SyntaxError, SyntaxError => true
  | ZodError, ZodError => true
  | _, _ => false
  end.

(** A computation either returns or throws. *)
Inductive Result (A : Type) :=
| Return (a : A)
| Throw (e : JsError).
Arguments Return {A} a.
Arguments Throw {A} e.

Definition bind {A B} (r : Result A) (k : A -> Result B) : Result B :=
  match r with
  | Return a => k a
  | Throw e => Throw e
  end.

Definition returns {A} (r : Result A) : bool :=
  match r with Return _ => true | Throw _ => false end.

Definition typeof (v : JsValue) : string :=
  match v with
  | JsUndefined => "undefined"
  | JsNull => "object"
  | JsBool _ => "boolean"
  | JsNum _ => "number"
  | JsStr _ => "string"
  | JsDate _ | JsArray _ | JsObject _ => "object"
  | JsFunction _ => "function"
  end.

(** The integral value of a number, when it has one. *)
Definition integral (n : JsNumber) : option Z :=
  match n with
  | Integer z => Some z
  | Fractional m e => if decide (m mod 2 ^ Z.pos e = 0) then Some (m / 2 ^ Z.pos e) else None
  | NaN | Infinity _ => None
  end.

Definition Number_isInteger (n : JsNumber) : bool :=
  match integral n with Some _ => true | None => false end.

(** *** Decimal text *)

Definition digit_char (d : Z) : ascii :=
  ascii_of_N (48 + Z.to_N d).

(** Decimal digits of [n >= 0], most significant first, pushed in front of
    [acc]; [fuel] bounds the number of digits. *)
Fixpoint digits_from (fuel : nat) (n : Z) (acc : string) : string :=
  match fuel with
  | O => acc
  | S fuel' =>
      let acc' := String (digit_char (n mod 10)) acc in
      if n <? 10 then acc' else digits_from fuel' (n / 10) acc'
  end.

Definition decimal (n : Z) : string :=
  digits_from (S (Z.to_nat (Z.log2 n))) n "".

(** [Number.prototype.toString] on an integral value (radix 10), which
    prints every digit of a value below 10^21, as the values of the safe
    range are. *)
Definition toString (z : Z) : string :=
  if z <? 0 then String "-"%char (decimal (- z)) else decimal z.

Definition digit_value (radix : Z) (c : ascii) : option Z :=
  let n := Z.of_N (N_of_ascii c) in
  let d :=
    if (48 <=? n) && (n <=? 57) then n - 48
    else if (97 <=? n) && (n <=? 122) then n - 87
    else if (65 <=? n) && (n <=? 90) then n - 55
    else radix in
  if d <? radix then Some d else None.

(** The longest prefix of digits of the radix, as a number; [None] when the
    text does not start with a digit. *)
Fixpoint parse_digits (radix : Z) (s : string) (acc : option Z) : option Z :=
  match s with
  | EmptyString => acc
  | String c rest =>
      match digit_value radix c with
      | Some d => parse_digits radix rest (Some (radix * default 0 acc + d))
      | None => acc
      end
  end.

(** White space and line terminators among the code units below 256: tab
    to carriage return, space and no-break space. *)
Definition is_whitespace (c : ascii) : bool :=
  let n := N_of_ascii c in
  ((9 <=? n) && (n <=? 13))%N || (n =? 32)%N || (n =? 160)%N.

Fixpoint trim_start (s : string) : string :=
  match s with
  | String c rest => if is_whitespace c then trim_start rest else s
  | EmptyString => s
  end.

(** [parseInt(text)] with no radix argument: leading white space is
    skipped, one sign is read, a [0x] prefix selects radix 16, then the
    longest prefix of digits is read; without a digit the result is NaN.
    The value of the digits is kept as it is, which is what the engine
    returns for a value of the safe range. *)
Definition parseInt (text : string) : JsNumber :=
  let s := trim_start text in
  let '(negative, body) :=
    match s with
    | String "-"%char rest => (true, rest)
    | String "+"%char rest => (false, rest)
    | _ => (false, s)
    end in
  let '(radix, digits) :=
    match body with
    | String "0"%char (String "x"%char rest) => (16, rest)
    | String "0"%char (String "X"%char rest) => (16, rest)
    | _ => (10, body)
    end in
  match parse_digits radix digits None with
  | Some n => Integer (if negative then - n else n)
  | None => NaN
  end.

(** *** Strings *)

Fixpoint trim_end (s : string) : string :=
  match s with
  | EmptyString => s
  | String c rest =>
      match trim_end rest with
      | EmptyString => if is_whitespace c then EmptyString else String c EmptyString
      | rest' => String c rest'
      end
  end.

(** [String.prototype.trim]. *)
Definition trim (s : string) : string := trim_end (trim_start s).

(** [s.indexOf(c)] for a one-character needle: -1 when absent. *)
Fixpoint indexOf (c : ascii) (s : string) : Z :=
  match s with
  | EmptyString => -1
  | String a rest =>
      if Ascii.eqb a c then 0
      else let i := indexOf c rest in if i <? 0 then -1 else i + 1
  end.

(** [s.lastIndexOf(c)] for a one-character needle: -1 when absent. *)
Fixpoint lastIndexOf (c : ascii) (s : string) : Z :=
  match s with
  | EmptyString => -1
  | String a rest =>
      let i := lastIndexOf c rest in
      if 0 <=? i then i + 1 else if Ascii.eqb a c then 0 else -1
  end.

Definition strlen (s : string) : Z := Z.of_nat (String.length s).

Definition clamp (lo hi x : Z) : Z := Z.max lo (Z.min hi x).

(** [s.substring(start, end)]: both indices are clamped to the string and
    swapped when [start > end]. *)
Definition substring (s : string) (start end_ : Z) : string :=
  let a := clamp 0 (strlen s) start in
  let b := clamp 0 (strlen s) end_ in
  let lo := Z.min a b in
  let hi := Z.max a b in
  String.substring (Z.to_nat lo) (Z.to_nat (hi - lo)) s.

(** *** Objects *)

(** [o[key] = v] on the property list of an object: an existing property
    keeps its place, a new one goes last.  Keys are ordinary property
    names: an assignment to [__proto__] sets the prototype of the object
    and makes no property; the properties about the converters leave that
    key out ([Reference.ordinary]). *)
Fixpoint assign {A} (o : list (string * A)) (key : string) (v : A) : list (string * A) :=
  match o with
  | [] => [(key, v)]
  | (k, x) :: rest =>
      if String.eqb k key then (k, v) :: rest else (k, x) :: assign rest key v
  end.

Fixpoint lookup_prop {A} (o : list (string * A)) (key : string) : option A :=
  match o with
  | [] => None
  | (k, x) :: rest => if String.eqb k key then Some x else lookup_prop rest key
  end.

(** The index-keyed entries of an array, from index [i] on. *)
Fixpoint indexed {A} (i : nat) (items : list A) : list (string * A) :=
  match items with
  | [] => []
  | x :: rest => (decimal (Z.of_nat i), x) :: indexed (S i) rest
  end.

Fixpoint chars (s : string) : list JsValue :=
  match s with
  | EmptyString => []
  | String c rest => JsStr (String c EmptyString) :: chars rest
  end.

(** [Object.entries(v)]: own enumerable string-keyed properties.  Dates,
    numbers, booleans and functions have none. *)
Definition Object_entries (v : JsValue) : Result (list (string * JsValue)) :=
  match v with
  | JsUndefined | JsNull =>
      Throw (mkError TypeError "Cannot convert undefined or null to object")
  | JsObject props => Return props
  | JsArray items => Return (indexed 0 items)
  | JsStr s => Return (indexed 0 (chars s))
  | JsBool _ | JsNum _ | JsDate _ | JsFunction _ => Return []
  end.

(** [Object.keys(v)]. *)
Definition Object_keys (v : JsValue) : Result (list string) :=
  bind (Object_entries v) (fun entries => Return (map fst entries)).

(** [v[key]] (or [v.key]): reading a property of null or undefined
    throws; a missing property reads as undefined. *)
Definition get (v : JsValue) (key : string) : Result JsValue :=
  match v with
  | JsUndefined =>
      Throw (mkError TypeError ("Cannot read properties of undefined (reading '" +:+ key +:+ "')"))
  | JsNull =>
      Throw (mkError TypeError ("Cannot read properties of null (reading '" +:+ key +:+ "')"))
  | JsObject props => Return (default JsUndefined (lookup_prop props key))
  | JsArray items => Return (default JsUndefined (lookup_prop (indexed 0 items) key))
  | JsStr s => Return (default JsUndefined (lookup_prop (indexed 0 (chars s)) key))
  | JsBool _ | JsNum _ | JsDate _ | JsFunction _ => Return JsUndefined
  end.

(** A property of an object, when the value is an object that has it. *)
Definition get_prop (v : JsValue) (key : string) : option JsValue :=
  match v with
  | JsObject props => lookup_prop props key
  | _ => None
  end.

(** [v?.key]: undefined when [v] is null or undefined. *)
Definition get_opt (v : JsValue) (key : string) : Result JsValue :=
  match v with
  | JsUndefined | JsNull => Return JsUndefined
  | _ => get v key
  end.

(** [Array.prototype.map] with a callback that may throw. *)
Definition mapM {A B} (f : A -> Result B) : list A -> Result (list B) :=
  fix go (items : list A) : Result (list B) :=
    match items with
    | [] => Return []
    | item :: rest =>
        match f item with
        | Throw e => Throw e
        | Return y =>
            match go rest with
            | Throw e => Throw e
            | Return ys => Return (y :: ys)
            end
        end
    end.

(** *** Dates *)

(** Civil date [(year, month, day)] of a day number counted from
    1970-01-01, in the proleptic Gregorian calendar. *)
Definition civil_from_days (days : Z) : Z * Z * Z :=
  let z := days + 719468 in
  let era := z / 146097 in
  let doe := z - era * 146097 in
  let yoe := (doe - doe / 1460 + doe / 36524 - doe / 146096) / 365 in
  let doy := doe - (365 * yoe + yoe / 4 - yoe / 100) in
  let mp := (5 * doy + 2) / 153 in
  let d := doy - (153 * mp + 2) / 5 + 1 in
  let m := if mp <? 10 then mp + 3 else mp - 9 in
  let y := yoe + era * 400 + (if m <=? 2 then 1 else 0) in
  (y, m, d).

Definition days_from_civil (y m d : Z) : Z :=
  let y' := y - (if m <=? 2 then 1 else 0) in
  let era := y' / 400 in
  let yoe := y' - era * 400 in
  let doy := (153 * (if 2 <? m then m - 3 else m + 9) + 2) / 5 + d - 1 in
  let doe := yoe * 365 + yoe / 4 - yoe / 100 + doy in
  era * 146097 + doe - 719468.

Definition msPerDay : Z := 86400000.

(** The largest time value of a Date: 100,000,000 days either side of the
    epoch. *)
Definition maxTime : Z := 8640000000000000.

(** [TimeClip]: a time value outside the range makes an invalid Date. *)
Definition TimeClip (t : Z) : option Z :=
  if Z.abs t <=? maxTime then Some t else None.

(** [n] in decimal, padded with zeros to [width] digits ([n >= 0]). *)
Fixpoint pad (width : nat) (n : Z) (acc : string) : string :=
  match width with
  | O => acc
  | S w => pad w (n / 10) (String (digit_char (n mod 10)) acc)
  end.

(** The year of the ISO format: four digits from 0 to 9999, otherwise a
    sign and six digits. *)
Definition iso_year (y : Z) (acc : string) : string :=
  if (0 <=? y) && (y <=? 9999) then pad 4 y acc
  else String (if y <? 0 then "-"%char else "+"%char) (pad 6 (Z.abs y) acc).

(** [Date.prototype.toISOString]: [YYYY-MM-DDTHH:mm:ss.sssZ], and a
    RangeError on an invalid Date. *)
Definition toISOString (date : option Z) : Result string :=
  match date with
  | None => Throw (mkError RangeError "Invalid time value")
  | Some t =>
      let '(y, m, d) := civil_from_days (t / msPerDay) in
      let ms := t mod msPerDay in
      Return
        (iso_year y "" +:+ "-" +:+ pad 2 m "" +:+ "-" +:+ pad 2 d "" +:+ "T"
         +:+ pad 2 (ms / 3600000) "" +:+ ":" +:+ pad 2 (ms / 60000 mod 60) ""
         +:+ ":" +:+ pad 2 (ms / 1000 mod 60) "" +:+ "." +:+ pad 3 (ms mod 1000) ""
         +:+ "Z")
  end.

(** Exactly [width] decimal digits in front of the text. *)
Fixpoint take_digits (width : nat) (s : string) (acc : Z) : option (Z * string) :=
  match width with
  | O => Some (acc, s)
  | S w =>
      match s with
      | String c rest =>
          match digit_value 10 c with
          | Some d => take_digits w rest (10 * acc + d)
          | None => None
          end
      | EmptyString => None
      end
  end.

Definition expect (c : ascii) (s : string) : option string :=
  match s with
  | String a rest => if Ascii.eqb a c then Some rest else None
  | EmptyString => None
  end.

Definition parse_year (s : string) : option (Z * string) :=
  match s with
  | String "+"%char rest => take_digits 6 rest 0
  | String "-"%char rest =>
      match take_digits 6 rest 0 with
      | Some (y, rest') => if y =? 0 then None else Some (- y, rest')
      | None => None
      end
  | _ => take_digits 4 s 0
  end.

Definition isLeapYear (y : Z) : bool :=
  (y mod 4 =? 0) && (negb (y mod 100 =? 0) || (y mod 400 =? 0)).

Definition daysInMonth (y m : Z) : Z :=
  if m =? 2 then (if isLeapYear y then 29 else 28)
  else if (m =? 4) || (m =? 6) || (m =? 9) || (m =? 11) then 30
  else 31.

(** [new Date(text)] on the date-time format that [toISOString] writes
    (UTC, milliseconds).  Text in another format, or with a field out of
    range, makes an invalid Date here. *)
Definition Date_parse (text : string) : option Z :=
  '(y, s) ← parse_year text;
  s ← expect "-" s;
  '(m, s) ← take_digits 2 s 0;
  s ← expect "-" s;
  '(d, s) ← take_digits 2 s 0;
  s ← expect "T" s;
  '(hh, s) ← take_digits 2 s 0;
  s ← expect ":" s;
  '(mm, s) ← take_digits 2 s 0;
  s ← expect ":" s;
  '(ss, s) ← take_digits 2 s 0;
  s ← expect "." s;
  '(sss, s) ← take_digits 3 s 0;
  s ← expect "Z" s;
  if negb (String.eqb s "") then None
  else if negb ((1 <=? m) && (m <=? 12) && (1 <=? d) && (d <=? daysInMonth y m)) then None
  else if negb ((hh <=? 23) && (mm <=? 59) && (ss <=? 59)) then None
  else TimeClip (days_from_civil y m d * msPerDay
                 + hh * 3600000 + mm * 60000 + ss * 1000 + sss).

End Js.

(** ** The zod schema combinators used by types.js *)

Module Zod.
Import Js.

(** Refinements of [z.number()], each with its message where the schema
    gives one. *)
Inductive NumberCheck :=
| int
| positive_
| min_ (bound : Z) (msg : string)
| max_ (bound : Z) (msg : string).

#[local] Unset Elimination Schemes.
Inductive Schema :=
| z_string (min : option (nat * string))
| z_number (checks : list NumberCheck)
| z_enum (values : list string)
| z_array (element : Schema) (min : option (nat * string))
| z_object (shape : list (string * Schema)).
#[local] Set Elimination Schemes.

Record Issue := mkIssue { path : list string; issue_message : string }.

(** [n < bound] and [n > bound] on numbers other than NaN. *)
Definition number_ltb (n : JsNumber) (bound : Z) : bool :=
  match n with
  | Integer z => z <? bound
  | Fractional m e => m <? bound * 2 ^ Z.pos e
  | NaN => false
  | Infinity negative => negative
  end.

Definition number_gtb (n : JsNumber) (bound : Z) : bool :=
  match n with
  | Integer z => bound <? z
  | Fractional m e => bound * 2 ^ Z.pos e <? m
  | NaN => false
  | Infinity negative => negb negative
  end.

Definition check_number (at_ : list string) (n : JsNumber) (c : NumberCheck) : list Issue :=
  match c with
  | int =>
      if Number_isInteger n then []
      else [mkIssue at_ "Expected integer, received float"]
  | positive_ =>
      if number_gtb n 0 then []
      else [mkIssue at_ "Number must be greater than 0"]
  | min_ bound msg => if number_ltb n bound then [mkIssue at_ msg] else []
  | max_ bound msg => if number_gtb n bound then [mkIssue at_ msg] else []
  end.

(** The name that zod gives to the type of a value. *)
Definition parsed_type (v : JsValue) : string :=
  match v with
  | JsUndefined => "undefined"
  | JsNull => "null"
  | JsBool _ => "boolean"
  | JsNum NaN => "nan"
  | JsNum _ => "number"
  | JsStr _ => "string"
  | JsDate _ => "date"
  | JsArray _ => "array"
  | JsObject _ => "object"
  | JsFunction _ => "function"
  end.

(** The issue raised on a value of another type than expected, in the
    words of zod 3. *)
Definition invalid_type (at_ : list string) (expected : string) (v : JsValue) : list Issue :=
  match v with
  | JsUndefined => [mkIssue at_ "Required"]
  | _ => [mkIssue at_ ("Expected " +:+ expected +:+ ", received " +:+ parsed_type v)]
  end.

(** The values of an enumeration as zod lists them: quoted and separated
    by bars. *)
Definition join_values (values : list string) : string :=
  String.concat " | " (map (fun value => "'" +:+ value +:+ "'") values).

Definition too_short (at_ : list string) (min : option (nat * string)) (len : nat) : list Issue :=
  match min with
  | Some (n, msg) => if (len <? n)%nat then [mkIssue at_ msg] else []
  | None => []
  end.

(** The outcome of parsing: the parsed value (objects rebuilt from the
    keys of their shape) and the issues raised; the parse succeeds when
    there is none. *)
Definition Parsed : Type := JsValue * list Issue.

(** Parsing the properties of an object against a shape, key by key. *)
Definition parse_shape (parse : Schema -> list string -> JsValue -> Parsed)
    (at_ : list string) (props : list (string * JsValue)) :
    list (string * Schema) -> list (string * JsValue) * list Issue :=
  fix go (shape : list (string * Schema)) :=
    match shape with
    | [] => ([], [])
    | (key, schema) :: rest =>
        let '(v, issues) :=
          parse schema (at_ ++ [key]) (default JsUndefined (lookup_prop props key)) in
        let '(vs, more) := go rest in
        ((key, v) :: vs, issues ++ more)
    end.

(** Parsing the items of an array, each under its index. *)
Definition parse_items (parse : list string -> JsValue -> Parsed) (at_ : list string) :
    nat -> list JsValue -> list JsValue * list Issue :=
  fix go (i : nat) (items : list JsValue) :=
    match items with
    | [] => ([], [])
    | item :: rest =>
        let '(v, issues) := parse (at_ ++ [decimal (Z.of_nat i)]) item in
        let '(vs, more) := go (S i) rest in
        (v :: vs, issues ++ more)
    end.

Fixpoint parse_at (schema : Schema) (at_ : list string) (input : JsValue) : Parsed :=
  match schema with
  | z_string min =>
      match input with
      | JsStr s => (input, too_short at_ min (String.length s))
      | _ => (input, invalid_type at_ "string" input)
      end
  | z_number checks =>
      match input with
      | JsNum NaN => (input, invalid_type at_ "number" input)
      | JsNum n => (input, concat (map (check_number at_ n) checks))
      | _ => (input, invalid_type at_ "number" input)
      end
  | z_enum values =>
      match input with
      | JsStr s =>
          (input, if existsb (String.eqb s) values then []
                  else [mkIssue at_ ("Invalid enum value. Expected " +:+ join_values values
                                     +:+ ", received '" +:+ s +:+ "'")])
      | _ => (input, invalid_type at_ (join_values values) input)
      end
  | z_array element min =>
      match input with
      | JsArray items =>
          let '(vs, issues) := parse_items (parse_at element) at_ 0 items in
          (JsArray vs, too_short at_ min (length items) ++ issues)
      | _ => (input, invalid_type at_ "array" input)
      end
  | z_object shape =>
      match input with
      | JsObject props =>
          let '(vs, issues) := parse_shape parse_at at_ props shape in
          (JsObject vs, issues)
      | _ => (input, invalid_type at_ "object" input)
      end
  end.

(** [schema.safeParse(input)]. *)
Definition safeParse (schema : Schema) (input : JsValue) : JsValue + list Issue :=
  match parse_at schema [] input with
  | (v, []) => inl v
  | (_, issues) => inr issues
  end.

Section Messages.
(** The message of a thrown ZodError is the text that zod makes of its
    issues; the wording is the library's and is left open. *)
Variable ZodError_message : list Issue -> string.

(** [schema.parse(input)]: the parsed value, or a thrown ZodError. *)
Definition parse (schema : Schema) (input : JsValue) : Result JsValue :=
  match safeParse schema input with
  | inl v => Return v
  | inr issues => Throw (mkError ZodError (ZodError_message issues))
  end.

End Messages.

End Zod.

(** ** types.js *)

Module Types.
Import Js Zod.

Definition RequestSchema : Schema :=
  z_object
    [("destination", z_string (Some (1%nat, "Destination is required")));
     ("durationDays",
       z_number [int; min_ 1 "Duration must be at least 1 day";
                 max_ 30 "Duration cannot exceed 30 days"])].

Definition ActivitySchema : Schema :=
  z_object
    [("time", z_enum ["Morning"; "Afternoon"; "Evening"]);
     ("description", z_string (Some (1%nat, "Description is required")));
     ("location", z_string (Some (1%nat, "Location is required")))].

Definition DaySchema : Schema :=
  z_object
    [("day", z_number [int; positive_]);
     ("theme", z_string (Some (1%nat, "Theme is required")));
     ("activities",
       z_array ActivitySchema (Some (1%nat, "At least one activity is required")))].

Definition ItinerarySchema : Schema :=
  z_array DaySchema (Some (1%nat, "At least one day is required")).

End Types.

(** ** firestore.js: the value codec *)

Module Firestore.
Import Js.

(** A Firestore value on the wire.  It is a union: exactly one tag is set.
    [arrayValue values] is [{ arrayValue: { values } }] and [mapValue
    fields] is [{ mapValue: { fields } }]; [emptyArrayValue] and
    [emptyMapValue] are [{ arrayValue: {} }] and [{ mapValue: {} }], the
    forms in which the store sends an array without values and a map
    without fields.  [otherValue] stands for a value under a tag the
    client does not test (referenceValue, geoPointValue, bytesValue).  An
    array entry is [None] where the encoder leaves undefined in the
    array. *)
#[local] Unset Elimination Schemes.
Inductive Value :=
| nullValue
| stringValue (s : string)
| integerValue (digits : string)
| doubleValue (n : JsNumber)
| booleanValue (b : bool)
| timestampValue (iso : string)
| arrayValue (values : list (option Value))
| mapValue (fields : list (string * Value))
| emptyArrayValue
| emptyMapValue
| otherValue (tag : string).
#[local] Set Elimination Schemes.

Abbreviation Fields := (list (string * Value)).

(** The loop [for (const [key, value] of entries) { ... fields[key] = ... }]
    shared by both converters: [body] gives what the branches assign for one
    value, or [None] when no branch applies. *)
Definition forEntries {A B} (body : A -> Result (option B)) :
    list (string * A) -> list (string * B) -> Result (list (string * B)) :=
  fix loop (entries : list (string * A)) (fields : list (string * B)) :=
    match entries with
    | [] => Return fields
    | (key, value) :: rest =>
        match body value with
        | Throw e => Throw e
        | Return None => loop rest fields
        | Return (Some x) => loop rest (assign fields key x)
        end
    end.

(** The same loop over the entries of an array, whose keys are the
    indices from [i] on. *)
Definition forIndexed {A B} (body : A -> Result (option B)) :
    nat -> list A -> list (string * B) -> Result (list (string * B)) :=
  fix loop (i : nat) (items : list A) (fields : list (string * B)) :=
    match items with
    | [] => Return fields
    | value :: rest =>
        match body value with
        | Throw e => Throw e
        | Return None => loop (S i) rest fields
        | Return (Some x) => loop (S i) rest (assign fields (decimal (Z.of_nat i)) x)
        end
    end.

Definition asMap (r : Result Fields) : Result (option Value) :=
  bind r (fun fields => Return (Some (mapValue fields))).

(** What the branches of [convertToFirestoreFields] assign to [fields[key]]
    for one [value].  Inside an array, an item that is an object (a plain
    object, but also an array or a Date) becomes a map of its own entries;
    any other item is converted as the only property of [{ temp: item }]. *)
Fixpoint toFirestoreValue (value : JsValue) : Result (option Value) :=
  match value with
  | JsNull => Return (Some nullValue)
  | JsStr s => Return (Some (stringValue s))
  | JsNum n =>
      match integral n with
      | Some z => Return (Some (integerValue (toString z)))
      | None => Return (Some (doubleValue n))
      end
  | JsBool b => Return (Some (booleanValue b))
  | JsDate t => bind (toISOString t) (fun iso => Return (Some (timestampValue iso)))
  | JsArray items =>
      bind
        (mapM (fun item =>
                 match item with
                 | JsObject props => asMap (forEntries toFirestoreValue props [])
                 | JsArray elements => asMap (forIndexed toFirestoreValue 0 elements [])
                 | JsDate _ => Return (Some (mapValue []))
                 | _ => toFirestoreValue item
                 end) items)
        (fun values => Return (Some (arrayValue values)))
  | JsObject props => asMap (forEntries toFirestoreValue props [])
  | JsUndefined | JsFunction _ => Return None
  end.

(** The callback of [value.map] in the array branch. *)
Definition toFirestoreItem (item : JsValue) : Result (option Value) :=
  match item with
  | JsObject props => asMap (forEntries toFirestoreValue props [])
  | JsArray elements => asMap (forIndexed toFirestoreValue 0 elements [])
  | JsDate _ => Return (Some (mapValue []))
  | _ => toFirestoreValue item
  end.

Definition convertToFirestoreFields (obj : JsValue) : Result Fields :=
  bind (Object_entries obj) (fun entries => forEntries toFirestoreValue entries []).

Definition asObject (r : Result (list (string * JsValue))) : Result JsValue :=
  bind r (fun props => Return (JsObject props)).

(** What the branches of [convertFromFirestoreFields] assign to [obj[key]]
    for one wire [value]; a value under a tag that no branch tests assigns
    nothing.  An array item is read through [item.mapValue], which throws
    on an undefined item.  An array without values throws at
    [value.arrayValue.values.map], a map without fields at
    [Object.entries(fields)]. *)
Fixpoint fromFirestoreValue (value : Value) : Result (option JsValue) :=
  match value with
  | nullValue => Return (Some JsNull)
  | stringValue s => Return (Some (JsStr s))
  | integerValue digits => Return (Some (JsNum (parseInt digits)))
  | doubleValue n => Return (Some (JsNum n))
  | booleanValue b => Return (Some (JsBool b))
  | timestampValue iso => Return (Some (JsDate (Date_parse iso)))
  | arrayValue values =>
      bind
        (mapM (fun item =>
                 match item with
                 | None =>
                     Throw (mkError TypeError
                              "Cannot read properties of undefined (reading 'mapValue')")
                 | Some (mapValue fields) =>
                     asObject (forEntries fromFirestoreValue fields [])
                 | Some other =>
                     bind (fromFirestoreValue other)
                          (fun temp => Return (default JsUndefined temp))
                 end) values)
        (fun items => Return (Some (JsArray items)))
  | mapValue fields =>
      bind (asObject (forEntries fromFirestoreValue fields []))
           (fun obj => Return (Some obj))
  | emptyArrayValue =>
      Throw (mkError TypeError "Cannot read properties of undefined (reading 'map')")
  | emptyMapValue => Throw (mkError TypeError "Cannot convert undefined or null to object")
  | otherValue _ => Return None
  end.

(** The callback of [value.arrayValue.values.map]. *)
Definition fromFirestoreItem (item : option Value) : Result JsValue :=
  match item with
  | None =>
      Throw (mkError TypeError "Cannot read properties of undefined (reading 'mapValue')")
  | Some (mapValue fields) => asObject (forEntries fromFirestoreValue fields [])
  | Some other =>
      bind (fromFirestoreValue other) (fun temp => Return (default JsUndefined temp))
  end.

Definition convertFromFirestoreFields (fields : Fields) : Result JsValue :=
  asObject (forEntries fromFirestoreValue fields []).

End Firestore.

(** ** The outside world *)

Module Platform.
Import Js Firestore.

(** An HTTP response as the worker reads it: the status and the body
    text. *)
Record HttpResponse := mkResponse { status : Z; text : string }.

(** [response.ok]: a status from 200 to 299. *)
Definition ok (r : HttpResponse) : bool :=
  (200 <=? status r) && (status r <=? 299).

(** Everything outside the worker that its code reads or changes.
    [network] lists what the successive [fetch] calls will receive, in
    order ([None], or the end of the list: the call is rejected);
    [documents] is the content of the document store, by document path;
    [signing] is what importing the key and signing the assertion gives;
    [random] feeds [Math.random] with hexadecimal digits; [console] keeps
    the lines written with [console.error]. *)
Record World := mkWorld {
  clock : Z;
  network : list (option HttpResponse);
  documents : gmap string Fields;
  signing : Result string;
  random : list Z;
  console : list string
}.

Definition with_clock (t : Z) (w : World) : World :=
  mkWorld t (network w) (documents w) (signing w) (random w) (console w).

Definition with_network (n : list (option HttpResponse)) (w : World) : World :=
  mkWorld (clock w) n (documents w) (signing w) (random w) (console w).

Definition with_documents (d : gmap string Fields) (w : World) : World :=
  mkWorld (clock w) (network w) d (signing w) (random w) (console w).

Definition with_random (r : list Z) (w : World) : World :=
  mkWorld (clock w) (network w) (documents w) (signing w) r (console w).

(** [console.error(line)]. *)
Definition console_error (line : string) (w : World) : World :=
  mkWorld (clock w) (network w) (documents w) (signing w) (random w) (console w ++ [line]).

(** [await response.json()]: a body that is not JSON text rejects with a
    SyntaxError.  [JSON_parse] is [JSON.parse]: [None] when the text is not
    JSON.  The message of the SyntaxError depends on the engine and on the
    text; one text stands for it here, and only the class of the error is
    relied upon. *)
Definition json (JSON_parse : string -> option JsValue) (response : HttpResponse) :
    Result JsValue :=
  match JSON_parse (text response) with
  | Some data => Return data
  | None => Throw (mkError SyntaxError "Unexpected token in JSON")
  end.

(** [await fetch(...)]: the next response of the network, or a rejection. *)
Definition fetch (w : World) : Result HttpResponse * World :=
  match network w with
  | Some response :: rest => (Return response, with_network rest w)
  | None :: rest => (Throw (mkError TypeError "fetch failed"), with_network rest w)
  | [] => (Throw (mkError TypeError "fetch failed"), w)
  end.

(** [new Date()]. *)
Definition Date_now (w : World) : JsValue := JsDate (Some (clock w)).

Fixpoint remove_prop {A} (o : list (string * A)) (key : string) : list (string * A) :=
  match o with
  | [] => []
  | (k, x) :: rest =>
      if String.eqb k key then remove_prop rest key else (k, x) :: remove_prop rest key
  end.

(** Modelled from the spec: the store's side of a partial update, which is
    the Firestore service and not code of the worker.  "Fields not named in
    the write are left untouched": each field path of the mask is set to
    its value in the body, or removed when the body does not have it; every
    other field of the document stays. *)
Definition patch (doc : Fields) (fieldPaths : list string) (body : Fields) : Fields :=
  foldl (fun d key =>
           match lookup_prop body key with
           | Some v => assign d key v
           | None => remove_prop d key
           end) doc fieldPaths.

(** A request to the document store; an update carries the query string
    of its URL. *)
Inductive StoreRequest :=
| POST (path : string) (fields : Fields)
| PATCH (path : string) (query : string) (fields : Fields)
| GET (path : string).

(** The parts of a text between the occurrences of a separator. *)
Fixpoint split_on (sep : ascii) (s : string) : list string :=
  match s with
  | EmptyString => [EmptyString]
  | String c rest =>
      if Ascii.eqb c sep then EmptyString :: split_on sep rest
      else
        match split_on sep rest with
        | first :: more => String c first :: more
        | [] => [String c EmptyString]
        end
  end.

(** The text after a prefix, when the text starts with it. *)
Fixpoint strip_prefix (prefix s : string) : option string :=
  match prefix, s with
  | EmptyString, _ => Some s
  | String a p, String b rest => if Ascii.eqb a b then strip_prefix p rest else None
  | String _ _, EmptyString => None
  end.

(** Modelled from the spec: the mask that the store reads in the query
    string of an update, one field path per [updateMask.fieldPaths]
    parameter, the parameters being separated by [&].  The paths are taken
    as names of top-level fields: escapes, and the dots and quotes of the
    paths of nested fields, are not interpreted. *)
Definition mask_of_query (query : string) : list string :=
  omap (strip_prefix "updateMask.fieldPaths=") (split_on "&" query).

(** Modelled from the spec: the store applies a write exactly when it
    answers with a success status; a refused write changes nothing.  A
    created document is what was sent; an update with a mask is a partial
    update, and an update whose query names no field replaces the
    document. *)
Definition store_apply (request : StoreRequest) (docs : gmap string Fields) : gmap string Fields :=
  match request with
  | POST path fields => <[path := fields]> docs
  | PATCH path query fields =>
      match mask_of_query query with
      | [] => <[path := fields]> docs
      | fieldPaths => <[path := patch (default [] (docs !! path)) fieldPaths fields]> docs
      end
  | GET _ => docs
  end.

(** [await fetch(url, ...)] against the store. *)
Definition store_fetch (request : StoreRequest) (w : World) : Result HttpResponse * World :=
  match fetch w with
  | (Return response, w') =>
      (Return response,
       if ok response then with_documents (store_apply request (documents w')) w' else w')
  | (Throw e, w') => (Throw e, w')
  end.

End Platform.

(** ** firestore.js: the store client and the token exchange *)

Module FirestoreClient.
Import Js Firestore Platform.

Section Client.
(** [JSON.parse]: [None] when the text is not JSON. *)
Variable JSON_parse : string -> option JsValue.

Definition document_path (collection docId : string) : string :=
  collection +:+ "/" +:+ docId.

Definition status_text (response : HttpResponse) : string :=
  toString (status response) +:+ " - " +:+ text response.

(** [createDocument(collection, docId, data)].  The body is encoded before
    the request is sent; the answer to a write that succeeded is parsed and
    returned. *)
Definition createDocument (collection docId : string) (data : JsValue) (w : World) :
    Result JsValue * World :=
  match convertToFirestoreFields data with
  | Throw e => (Throw e, w)
  | Return fields =>
      match store_fetch (POST (document_path collection docId) fields) w with
      | (Throw e, w') => (Throw e, w')
      | (Return response, w') =>
          if negb (ok response) then
            (Throw (mkError Error ("Firestore create error: " +:+ status_text response)),
             console_error "Firestore create error:" w')
          else (json JSON_parse response, w')
      end
  end.

(** The query string of an update: one [updateMask.fieldPaths] parameter
    per key of [data], the keys being written as they are. *)
Definition updateMask (keys : list string) : string :=
  String.concat "&" (map (fun key => "updateMask.fieldPaths=" +:+ key) keys).

(** The request of an update: the query string is computed from the keys
    of [data], the body is [data] encoded. *)
Definition updateRequest (collection docId : string) (data : JsValue) : Result StoreRequest :=
  bind (Object_keys data) (fun keys =>
  bind (convertToFirestoreFields data) (fun fields =>
    Return (PATCH (document_path collection docId) (updateMask keys) fields))).

(** [updateDocument(collection, docId, data)].  The answer to a write that
    succeeded is parsed and returned. *)
Definition updateDocument (collection docId : string) (data : JsValue) (w : World) :
    Result JsValue * World :=
  match updateRequest collection docId data with
  | Throw e => (Throw e, w)
  | Return request =>
      match store_fetch request w with
      | (Throw e, w') => (Throw e, w')
      | (Return response, w') =>
          if negb (ok response) then
            (Throw (mkError Error ("Firestore update error: " +:+ status_text response)),
             console_error "Firestore update error:" w')
          else (json JSON_parse response, w')
      end
  end.

(** [getDocument(collection, docId)]: null on a 404 answer.  The body of
    an answer with a success status is the stored document. *)
Definition getDocument (collection docId : string) (w : World) : Result JsValue * World :=
  match store_fetch (GET (document_path collection docId)) w with
  | (Throw e, w') => (Throw e, w')
  | (Return response, w') =>
      if status response =? 404 then (Return JsNull, w')
      else if negb (ok response) then
        (Throw (mkError Error ("Firestore get error: " +:+ status_text response)), w')
      else
        match documents w' !! document_path collection docId with
        | Some fields => (convertFromFirestoreFields fields, w')
        | None =>
            (Throw (mkError TypeError "Cannot convert undefined or null to object"), w')
        end
  end.

End Client.
End FirestoreClient.

(** ** utils.js *)

Module Utils.
Import Js Platform.

Definition hex_char (v : Z) : ascii :=
  if v <? 10 then digit_char v else ascii_of_N (87 + Z.to_N v).

(** The replacement of every [x] and [y] of the template by a random
    hexadecimal digit; [y] is forced into 8..b. *)
Fixpoint fill_template (template : string) (rnd : list Z) : string * list Z :=
  match template with
  | EmptyString => (EmptyString, rnd)
  | String c rest =>
      if Ascii.eqb c "x" || Ascii.eqb c "y" then
        let r := default 0 (head rnd) mod 16 in
        let v := if Ascii.eqb c "x" then r else Z.lor (Z.land r 3) 8 in
        let '(out, rnd') := fill_template rest (tail rnd) in
        (String (hex_char v) out, rnd')
      else
        let '(out, rnd') := fill_template rest rnd in
        (String c out, rnd')
  end.

Definition generateUUID (w : World) : string * World :=
  let '(uuid, rnd) := fill_template "xxxxxxxx-xxxx-4xxx-yxxx-xxxxxxxxxxxx" (random w) in
  (uuid, with_random rnd w).

(** [await sleep(ms)]: time passes. *)
Definition sleep (ms : Z) (w : World) : World := with_clock (clock w + ms) w.

Section Retry.
Context {W A : Type}.
Variable sleep_ : Z -> W -> W.
Variable fn : W -> Result A * W.
Variables maxRetries baseDelay : Z.
Variable retryableError : ErrorClass.

(** The [for] loop of [retryWithBackoff], with [iterations] rounds left
    before [attempt] passes [maxRetries].  Leaving the loop returns
    undefined ([None]). *)
Fixpoint retryLoop (iterations : nat) (attempt : Z) (w : W) : Result (option A) * W :=
  match iterations with
  | O => (Return None, w)
  | S iterations' =>
      match fn w with
      | (Return result, w') => (Return (Some result), w')
      | (Throw error, w') =>
          if instanceof error retryableError && (attempt <? maxRetries) then
            let delay := baseDelay * 2 ^ attempt in
            retryLoop iterations' (attempt + 1) (sleep_ delay w')
          else (Throw error, w')
      end
  end.

Definition retryWithBackoff (w : W) : Result (option A) * W :=
  retryLoop (Z.to_nat (maxRetries + 1)) 0 w.

End Retry.

(** The variables of the worker's environment; an unset variable is
    [None]. *)
Record Env := mkEnv {
  FIREBASE_SERVICE_ACCOUNT : option string;
  FIREBASE_PROJECT_ID : option string;
  OPENAI_API_KEY : option string
}.

(** [!value] on a string that may be missing. *)
Definition falsy (value : option string) : bool :=
  match value with
  | None | Some EmptyString => true
  | Some _ => false
  end.

Definition validateEnvironment (env : Env) : Result unit :=
  let required :=
    [("FIREBASE_SERVICE_ACCOUNT", FIREBASE_SERVICE_ACCOUNT env);
     ("FIREBASE_PROJECT_ID", FIREBASE_PROJECT_ID env);
     ("OPENAI_API_KEY", OPENAI_API_KEY env)] in
  let missing := map fst (filter (fun kv => falsy (snd kv) = true) required) in
  if (0 <? length missing)%nat then
    Throw (mkError Error
             ("Missing required environment variables: " +:+ String.concat ", " missing))
  else Return ().

(** A response of the worker: [body] is the value that is serialised. *)
Record Response := mkHttp {
  code : Z;
  headers : list (string * string);
  body : JsValue
}.

Definition getCorsHeaders : list (string * string) :=
  [("Access-Control-Allow-Origin", "*");
   ("Access-Control-Allow-Methods", "POST, OPTIONS");
   ("Access-Control-Allow-Headers", "Content-Type")].

Definition createErrorResponse (msg : string) (status : Z) (details : option string) : Response :=
  let body := [("error", JsStr msg)] in
  let body := if falsy details then body else assign body "details" (JsStr (default "" details)) in
  mkHttp status (("Content-Type", "application/json") :: getCorsHeaders) (JsObject body).

Definition createSuccessResponse (data : JsValue) (status : Z) : Response :=
  mkHttp status (("Content-Type", "application/json") :: getCorsHeaders) data.

End Utils.

(** ** llm.js *)

Module Llm.
Import Js Zod Types Platform Utils.

Section Generation.
(** [JSON.parse]: [None] when the text is not JSON. *)
Variable JSON_parse : string -> option JsValue.
(** The message of a ZodError. *)
Variable ZodError_message : list Issue -> string.

(** [data.choices[0]?.message?.content?.trim()]. *)
Definition content_of (data : JsValue) : Result JsValue :=
  bind (get data "choices") (fun choices =>
  bind (get choices "0") (fun choice =>
  bind (get_opt choice "message") (fun msg =>
  bind (get_opt msg "content") (fun content =>
    match content with
    | JsUndefined | JsNull => Return JsUndefined
    | JsStr s => Return (JsStr (trim s))
    | _ => Throw (mkError TypeError "content.trim is not a function")
    end)))).

(** The body of [generateFn] from the point where the response of the
    service has arrived. *)
Definition readResponse (response : HttpResponse) (w : World) : Result JsValue * World :=
  if negb (ok response) then
    let w := console_error "OpenAI API error:" w in
    if (status response =? 429) || (500 <=? status response) then
      (Throw (mkError RetryableError
                ("OpenAI service error: " +:+ toString (status response))), w)
    else
      (Throw (mkError Error
                ("OpenAI API error: " +:+ toString (status response) +:+ " - "
                 +:+ text response)), w)
  else
    match bind (json JSON_parse response) content_of with
    | Throw e => (Throw e, w)
    | Return (JsStr (String c rest as content)) =>
        let startIndex := indexOf "[" content in
        let endIndex := lastIndexOf "]" content in
        if (startIndex =? -1) || (endIndex =? -1) then
          (Throw (mkError RetryableError
                    "LLM response did not contain a valid JSON array."),
           console_error "Could not find JSON array in LLM response:" w)
        else
          let jsonString := substring content startIndex (endIndex + 1) in
          match JSON_parse jsonString with
          | None =>
              (Throw (mkError RetryableError
                        "LLM returned invalid JSON format even after cleaning."),
               console_error "Failed to parse the cleaned JSON string:" w)
          | Some itinerary =>
              match parse ZodError_message ItinerarySchema itinerary with
              | Return validatedItinerary => (Return validatedItinerary, w)
              | Throw validationError =>
                  (Throw (mkError RetryableError
                            ("Generated itinerary doesn't match required format: "
                             +:+ message validationError)),
                   console_error "Itinerary validation failed:" w)
              end
          end
    | Return _ =>
        (Throw (mkError Error "Invalid response structure from OpenAI API"), w)
    end.

(** [generateFn]: one call of the generative service. *)
Definition generateFn (w : World) : Result JsValue * World :=
  match fetch w with
  | (Throw e, w') => (Throw e, w')
  | (Return response, w') => readResponse response w'
  end.

(** [generateItinerary(destination, durationDays, apiKey)]; the prompt, and
    so both arguments, only go into the request. *)
Definition generateItinerary (w : World) : Result (option JsValue) * World :=
  retryWithBackoff sleep generateFn 3 2000 RetryableError w.

End Generation.
End Llm.

(** ** firestore.js: the token exchange *)

Module Credentials.
Import Js Platform.

Section Token.
Variable JSON_parse : string -> option JsValue.

(** The [try] block of [getAccessToken]: the key is parsed, its
    [client_email] read, the assertion signed ([signJWT], whose outcome the
    world gives and whose own [catch] logs before it throws again) and
    exchanged at the token endpoint; what is returned is the
    [access_token] property of the answer, undefined when it has none. *)
Definition exchange (serviceAccountKey : option string) (w : World) : Result JsValue * World :=
  match serviceAccountKey with
  | None | Some EmptyString =>
      (Throw (mkError Error "Service account key is missing"), w)
  | Some key =>
      match JSON_parse key with
      | None => (Throw (mkError SyntaxError "Unexpected token in JSON"), w)
      | Some serviceAccount =>
          match get serviceAccount "client_email" with
          | Throw e => (Throw e, w)
          | Return _ =>
              match signing w with
              | Throw e => (Throw e, console_error "Error in signJWT:" w)
              | Return token =>
                  match fetch w with
                  | (Throw e, w') => (Throw e, w')
                  | (Return response, w') =>
                      if negb (ok response) then
                        (Throw (mkError Error
                                  ("Token exchange failed: " +:+ toString (status response)
                                   +:+ " - " +:+ text response)),
                         console_error "Token exchange failed:" w')
                      else
                        match JSON_parse (text response) with
                        | None =>
                            (Throw (mkError SyntaxError "Unexpected token in JSON"), w')
                        | Some data => (get data "access_token", w')
                        end
                  end
              end
          end
      end
  end.

(** [getAccessToken(serviceAccountKey)]: any error is logged and thrown
    again. *)
Definition getAccessToken (serviceAccountKey : option string) (w : World) :
    Result JsValue * World :=
  match exchange serviceAccountKey w with
  | (Throw error, w') => (Throw error, console_error "Error in getAccessToken:" w')
  | done => done
  end.

End Token.
End Credentials.

(** ** The worker: request handler and background task *)

Module Worker.
Import Js Zod Types Firestore Platform FirestoreClient Utils Llm Credentials.

Record Request := mkRequest { method : string; payload : string }.

(** What [ctx.waitUntil] is given: the call of [processItinerary] with its
    arguments, which the platform runs after the response. *)
Record Task := mkTask { jobId : string; destination : JsValue; durationDays : JsValue }.

(** [`${err.path.join(".")}: ${err.message}`]: what the handler writes of
    an issue. *)
Definition issue_text (i : Issue) : string :=
  String.concat "." (path i) +:+ ": " +:+ issue_message i.

Section Handler.
Variable JSON_parse : string -> option JsValue.
Variable ZodError_message : list Issue -> string.

(** The fields written when the itinerary has been generated. *)
Definition completedUpdate (task : Task) (itinerary : JsValue) (w : World) : JsValue :=
  JsObject
    [("status", JsStr "completed");
     ("destination", destination task);
     ("durationDays", durationDays task);
     ("completedAt", Date_now w);
     ("itinerary", itinerary);
     ("error", JsNull)].

(** The fields written when the job has failed. *)
Definition failedUpdate (error : JsError) (w : World) : JsValue :=
  JsObject
    [("status", JsStr "failed");
     ("completedAt", Date_now w);
     ("error", JsStr (message error))].

(** The [try] block of [processItinerary]: generate, then record the
    result. *)
Definition tryGenerate (task : Task) (w : World) : Result unit * World :=
  match generateItinerary JSON_parse ZodError_message w with
  | (Throw error, w1) => (Throw error, w1)
  | (Return itinerary, w1) =>
      match
        updateDocument JSON_parse "itineraries" (jobId task)
          (completedUpdate task (default JsUndefined itinerary) w1) w1
      with
      | (Throw error, w2) => (Throw error, w2)
      | (Return _, w2) => (Return (), w2)
      end
  end.

Definition background_error (task : Task) : string :=
  "Background processing error for job " +:+ jobId task +:+ ":".

Definition unrecorded_error (task : Task) : string :=
  "Failed to update error status for job " +:+ jobId task +:+ ":".

(** The [catch] block of [processItinerary]: the failure is recorded, and
    an error of that write is only logged. *)
Definition recordFailure (task : Task) (error : JsError) (w : World) : Result unit * World :=
  let w := console_error (background_error task) w in
  match updateDocument JSON_parse "itineraries" (jobId task) (failedUpdate error w) w with
  | (Return _, w') => (Return (), w')
  | (Throw updateError, w') => (Return (), console_error (unrecorded_error task) w')
  end.

(** [processItinerary(firestore, jobId, destination, durationDays, env)]. *)
Definition processItinerary (task : Task) (w : World) : Result unit * World :=
  match tryGenerate task w with
  | (Return _, w') => (Return (), w')
  | (Throw error, w') => recordFailure task error w'
  end.

Definition task_path (task : Task) : string := document_path "itineraries" (jobId task).

(** The document written when a job is created. *)
Definition initialDocument (destination durationDays : JsValue) (w : World) : JsValue :=
  JsObject
    [("status", JsStr "processing");
     ("destination", destination);
     ("durationDays", durationDays);
     ("createdAt", Date_now w);
     ("completedAt", JsNull);
     ("itinerary", JsNull);
     ("error", JsNull)].

(** The [try] block of the handler.  It returns the response and, when a
    job was created, the background task handed to [ctx.waitUntil]. *)
Definition handlePost (request : Request) (env : Env) (w : World) :
    Result (Response * option Task) * World :=
  match validateEnvironment env with
  | Throw e => (Throw e, w)
  | Return _ =>
      match JSON_parse (payload request) with
      | None =>
          (Return (createErrorResponse "Invalid JSON in request body" 400 None, None), w)
      | Some requestBody =>
          match safeParse RequestSchema requestBody with
          | inr errors =>
              let errorMessage := String.concat ", " (map issue_text errors) in
              (Return (createErrorResponse ("Invalid request: " +:+ errorMessage) 400 None,
                       None), w)
          | inl validatedRequest =>
              let destination := default JsUndefined (get_prop validatedRequest "destination") in
              let durationDays := default JsUndefined (get_prop validatedRequest "durationDays") in
              let '(jobId, w) := generateUUID w in
              match getAccessToken JSON_parse (FIREBASE_SERVICE_ACCOUNT env) w with
              | (Throw e, w) => (Throw e, w)
              | (Return accessToken, w) =>
                  match
                    createDocument JSON_parse "itineraries" jobId
                      (initialDocument destination durationDays w) w
                  with
                  | (Throw e, w) => (Throw e, w)
                  | (Return _, w) =>
                      (Return
                         (createSuccessResponse (JsObject [("jobId", JsStr jobId)]) 202,
                          Some (mkTask jobId destination durationDays)), w)
                  end
              end
          end
      end
  end.

(** [fetch(request, env, ctx)]. *)
Definition fetch (request : Request) (env : Env) (w : World) :
    Response * option Task * World :=
  if String.eqb (method request) "OPTIONS" then
    (mkHttp 200 getCorsHeaders JsNull, None, w)
  else if negb (String.eqb (method request) "POST") then
    (createErrorResponse "Method not allowed. Use POST." 405 None, None, w)
  else
    match handlePost request env w with
    | (Return (response, task), w') => (response, task, w')
    | (Throw error, w') =>
        (createErrorResponse "Internal server error occurred" 500 (Some (message error)),
         None,
         console_error "Error stack:" (console_error "Main handler error:" w'))
    end.

(** The platform runs the task handed to [ctx.waitUntil], if any, after the
    handler has returned. *)
Definition serve (request : Request) (env : Env) (w : World) : Response * World :=
  match fetch request env w with
  | (response, Some task, w') => (response, snd (processItinerary task w'))
  | (response, None, w') => (response, w')
  end.

End Handler.
End Worker.

(** ** parser.js: the parser of the page *)

Module Frontend.
Import Js Firestore.

(** [parseInt(text, 10)]: as [parseInt], but a [0x] prefix is not a radix
    prefix: the digits end at the [x]. *)
Definition parseInt10 (text : string) : JsNumber :=
  let s := trim_start text in
  let '(negative, body) :=
    match s with
    | String "-"%char rest => (true, rest)
    | String "+"%char rest => (false, rest)
    | _ => (false, s)
    end in
  match parse_digits 10 body None with
  | Some n => Integer (if negative then - n else n)
  | None => NaN
  end.

Section Parser.

(** The JSON found under a tag that the parser has no case for. *)
Variable untyped : string -> JsValue.

(** What the cases of the [switch] assign to [obj[key]] for one wire
    [value].  An array without values reads as an empty array and a map
    without fields as null.  An array item is read through
    [item.mapValue.fields], which throws on an item that is undefined or is
    not a map; the [default] case keeps the wire value as it is. *)
Fixpoint parseFirestoreValue (value : Value) : Result (option JsValue) :=
  match value with
  | stringValue s => Return (Some (JsStr s))
  | integerValue digits => Return (Some (JsNum (parseInt10 digits)))
  | doubleValue n => Return (Some (JsNum n))
  | booleanValue b => Return (Some (JsBool b))
  | timestampValue iso => Return (Some (JsDate (Date_parse iso)))
  | nullValue => Return (Some JsNull)
  | mapValue fields =>
      bind (asObject (forEntries parseFirestoreValue fields []))
           (fun obj => Return (Some obj))
  | arrayValue values =>
      bind
        (mapM (fun item =>
                 match item with
                 | None =>
                     Throw (mkError TypeError
                              "Cannot read properties of undefined (reading 'mapValue')")
                 | Some (mapValue fields) =>
                     asObject (forEntries parseFirestoreValue fields [])
                 | Some emptyMapValue => Return JsNull
                 | Some _ =>
                     Throw (mkError TypeError
                              "Cannot read properties of undefined (reading 'fields')")
                 end) values)
        (fun items => Return (Some (JsArray items)))
  | emptyArrayValue => Return (Some (JsArray []))
  | emptyMapValue => Return (Some JsNull)
  | otherValue tag => Return (Some (JsObject [(tag, untyped tag)]))
  end.

(** The callback of [value.arrayValue.values.map]. *)
Definition parseFirestoreItem (item : option Value) : Result JsValue :=
  match item with
  | None =>
      Throw (mkError TypeError "Cannot read properties of undefined (reading 'mapValue')")
  | Some (mapValue fields) => asObject (forEntries parseFirestoreValue fields [])
  | Some emptyMapValue => Return JsNull
  | Some _ =>
      Throw (mkError TypeError "Cannot read properties of undefined (reading 'fields')")
  end.

(** [parseFirestoreDocument(fields)]: null when there are no fields. *)
Definition parseFirestoreDocument (fields : option Fields) : Result JsValue :=
  match fields with
  | None => Return JsNull
  | Some fields => asObject (forEntries parseFirestoreValue fields [])
  end.

End Parser.
End Frontend.

(** ** Reference predicates

    The properties below are stated against these direct descriptions of
    what a schema lets through. *)

Module Reference.
Import Js Zod Types.

(** What a schema accepts, read off its structure. *)
Definition accepts_number (n : JsNumber) (c : NumberCheck) : bool :=
  match c with
  | int => Number_isInteger n
  | positive_ => number_gtb n 0
  | min_ bound _ => negb (number_ltb n bound)
  | max_ bound _ => negb (number_gtb n bound)
  end.

Definition long_enough (min : option (nat * string)) (len : nat) : bool :=
  match min with
  | Some (n, _) => negb (len <? n)%nat
  | None => true
  end.

Fixpoint accepts (schema : Schema) (input : JsValue) : bool :=
  match schema, input with
  | z_string min, JsStr s => long_enough min (String.length s)
  | z_number checks, JsNum NaN => false
  | z_number checks, JsNum n => forallb (accepts_number n) checks
  | z_enum values, JsStr s => existsb (String.eqb s) values
  | z_array element min, JsArray items =>
      long_enough min (length items) && forallb (accepts element) items
  | z_object shape, JsObject props =>
      forallb (fun entry =>
                 accepts (snd entry)
                   (default JsUndefined (lookup_prop props (fst entry)))) shape
  | _, _ => false
  end.

Definition nonempty_text (v : option JsValue) : bool :=
  match v with
  | Some (JsStr (String _ _)) => true
  | _ => false
  end.

Definition time_slots : list string := ["Morning"; "Afternoon"; "Evening"].

Definition is_time_slot (v : option JsValue) : bool :=
  match v with
  | Some (JsStr s) => existsb (String.eqb s) time_slots
  | _ => false
  end.

Definition positive_integer (v : option JsValue) : bool :=
  match v with
  | Some (JsNum n) => Number_isInteger n && number_gtb n 0
  | _ => false
  end.

Definition valid_activity (v : JsValue) : bool :=
  match v with
  | JsObject props =>
      is_time_slot (lookup_prop props "time")
      && nonempty_text (lookup_prop props "description")
      && nonempty_text (lookup_prop props "location")
  | _ => false
  end.

Definition valid_day (v : JsValue) : bool :=
  match v with
  | JsObject props =>
      positive_integer (lookup_prop props "day")
      && nonempty_text (lookup_prop props "theme")
      && match lookup_prop props "activities" with
         | Some (JsArray (first :: more)) => forallb valid_activity (first :: more)
         | _ => false
         end
  | _ => false
  end.

Definition valid_itinerary (v : JsValue) : bool :=
  match v with
  | JsArray (first :: more) => forallb valid_day (first :: more)
  | _ => false
  end.


(** No invalid Date where the encoder prints one: as a property value at
    any depth, or as an element of an array that is itself an array item.
    A Date that is directly an array item is never printed. *)
Fixpoint dates_valid (v : JsValue) : bool :=
  match v with
  | JsDate None => false
  | JsArray items =>
      forallb (fun item =>
                 match item with
                 | JsDate _ => true
                 | JsArray elements => forallb dates_valid elements
                 | _ => dates_valid item
                 end) items
  | JsObject props => forallb (fun kv => dates_valid (snd kv)) props
  | _ => true
  end.

Definition item_dates_valid (item : JsValue) : bool :=
  match item with
  | JsDate _ => true
  | JsArray elements => forallb dates_valid elements
  | _ => dates_valid item
  end.


(** The wire values whose tag the decoder tests. *)
Definition recognized (v : Firestore.Value) : bool :=
  match v with
  | Firestore.otherValue _ => false
  | _ => true
  end.

(** Every array of the wire value has its values, every map its fields
    and every array entry a value. *)
Fixpoint complete (v : Firestore.Value) : bool :=
  match v with
  | Firestore.arrayValue values =>
      forallb (fun item => match item with
                           | Some x => complete x
                           | None => false
                           end) values
  | Firestore.mapValue fields => forallb (fun kv => complete (snd kv)) fields
  | Firestore.emptyArrayValue | Firestore.emptyMapValue => false
  | _ => true
  end.

Definition complete_item (item : option Firestore.Value) : bool :=
  match item with
  | Some x => complete x
  | None => false
  end.

(** No object of the value has a property named [__proto__]. *)
Fixpoint ordinary (v : JsValue) : bool :=
  match v with
  | JsArray items => forallb ordinary items
  | JsObject props =>
      forallb (fun kv => negb (String.eqb (fst kv) "__proto__") && ordinary (snd kv)) props
  | _ => true
  end.

(** No map of the wire value has a field named [__proto__]. *)
Fixpoint ordinary_value (v : Firestore.Value) : bool :=
  match v with
  | Firestore.arrayValue values =>
      forallb (fun item => match item with
                           | Some x => ordinary_value x
                           | None => true
                           end) values
  | Firestore.mapValue fields =>
      forallb (fun kv => negb (String.eqb (fst kv) "__proto__") && ordinary_value (snd kv))
        fields
  | _ => true
  end.

Definition ordinary_fields (fields : Firestore.Fields) : bool :=
  forallb (fun kv => negb (String.eqb (fst kv) "__proto__") && ordinary_value (snd kv))
    fields.

(** What a loop body assigned, if it returned. *)
Definition result_of {A} (r : Result (option A)) : option A :=
  match r with
  | Return o => o
  | Throw _ => None
  end.

(** The fields that the loop assigns, entry by entry. *)
Definition assigned {A B} (body : A -> Result (option B)) (entries : list (string * A)) :
    list (string * B) :=
  omap (fun kv => match result_of (body (snd kv)) with
                  | Some x => Some (fst kv, x)
                  | None => None
                  end) entries.


(** A duration in days the request schema lets through: an integral
    number from 1 to 30. *)
Definition valid_duration (v : option JsValue) : bool :=
  match v with
  | Some (JsNum n) =>
      match integral n with
      | Some z => (1 <=? z) && (z <=? 30)
      | None => false
      end
  | _ => false
  end.

Definition valid_request (body : JsValue) : bool :=
  match body with
  | JsObject props =>
      nonempty_text (lookup_prop props "destination")
      && valid_duration (lookup_prop props "durationDays")
  | _ => false
  end.


Definition status_is (doc : Firestore.Fields) (status : string) : bool :=
  match lookup_prop doc "status" with
  | Some (Firestore.stringValue s) => String.eqb s status
  | _ => false
  end.




(** The state of a job that has just been created. *)
Definition fresh_job (doc : Firestore.Fields) : Prop :=
  status_is doc "processing" = true
  /\ lookup_prop doc "completedAt" = Some Firestore.nullValue
  /\ lookup_prop doc "itinerary" = Some Firestore.nullValue
  /\ lookup_prop doc "error" = Some Firestore.nullValue.

(** Encoding, then decoding. *)
Definition round_trip (v : JsValue) : Result JsValue :=
  bind (Firestore.convertToFirestoreFields v) Firestore.convertFromFirestoreFields.

(** The shapes of the objects of a schema have distinct keys. *)
Fixpoint distinct_keys (schema : Schema) : bool :=
  match schema with
  | z_array element _ => distinct_keys element
  | z_object shape =>
      bool_decide (NoDup (map fst shape))
      && forallb (fun entry => distinct_keys (snd entry)) shape
  | _ => true
  end.

(** The time slots named by the activities of a day. *)
Definition slots_of (day : JsValue) : list string :=
  match get_prop day "activities" with
  | Some (JsArray activities) =>
      omap (fun a => match get_prop a "time" with
                     | Some (JsStr s) => Some s
                     | _ => None
                     end) activities
  | _ => []
  end.

Definition activity_count (day : JsValue) : nat :=
  match get_prop day "activities" with
  | Some (JsArray activities) => length activities
  | _ => O
  end.

Definition count_slot (slot : string) (day : JsValue) : nat :=
  length (filter (fun s => s = slot) (slots_of day)).

(** A day with exactly three activities that cover each time slot once. *)
Definition three_slots_once (day : JsValue) : bool :=
  (activity_count day =? 3)%nat
  && forallb (fun slot => (count_slot slot day =? 1)%nat) time_slots.

(** The values that the codec carries unchanged: null, booleans, text,
    integers of the safe range, numbers with a fractional part, Dates
    within the range of time values, objects with distinct keys of such
    values, and arrays of such values other than arrays and Dates. *)
Fixpoint storable (v : JsValue) : bool :=
  match v with
  | JsNull | JsBool _ | JsStr _ => true
  | JsNum (Integer z) => Z.abs z <=? 9007199254740991
  | JsNum (Fractional m e) => negb (Number_isInteger (Fractional m e))
  | JsNum _ => false
  | JsDate (Some t) => Z.abs t <=? maxTime
  | JsDate None => false
  | JsArray items =>
      forallb (fun item =>
                 match item with
                 | JsArray _ | JsDate _ => false
                 | _ => storable item
                 end) items
  | JsObject props =>
      bool_decide (NoDup (map fst props)) && forallb (fun kv => storable (snd kv)) props
  | JsUndefined | JsFunction _ => false
  end.

(** Every item of every array is an object. *)
Fixpoint displayable (v : JsValue) : bool :=
  match v with
  | JsArray items =>
      forallb (fun item =>
                 match item with
                 | JsObject props => forallb (fun kv => displayable (snd kv)) props
                 | _ => false
                 end) items
  | JsObject props => forallb (fun kv => displayable (snd kv)) props
  | _ => true
  end.

(** Every item of every array of the wire value is a map. *)
Fixpoint arrays_of_maps (v : Firestore.Value) : bool :=
  match v with
  | Firestore.arrayValue values =>
      forallb (fun item =>
                 match item with
                 | Some (Firestore.mapValue fields) =>
                     forallb (fun kv => arrays_of_maps (snd kv)) fields
                 | Some Firestore.emptyMapValue => true
                 | _ => false
                 end) values
  | Firestore.mapValue fields => forallb (fun kv => arrays_of_maps (snd kv)) fields
  | _ => true
  end.

(** The text starts, after white space and a sign, with [0x] or [0X]. *)
Definition radix_prefixed (text : string) : bool :=
  let s := trim_start text in
  let body :=
    match s with
    | String "-"%char rest => rest
    | String "+"%char rest => rest
    | _ => s
    end in
  match body with
  | String "0"%char (String "x"%char _) => true
  | String "0"%char (String "X"%char _) => true
  | _ => false
  end.

(** The wire values that the worker and the page read alike: known tags,
    whole numbers without a radix prefix, arrays that have their values,
    all of them maps, and maps that have their fields. *)
Fixpoint read_alike (v : Firestore.Value) : bool :=
  match v with
  | Firestore.integerValue digits => negb (radix_prefixed digits)
  | Firestore.arrayValue values =>
      forallb (fun item =>
                 match item with
                 | Some (Firestore.mapValue fields) =>
                     forallb (fun kv => read_alike (snd kv)) fields
                 | _ => false
                 end) values
  | Firestore.mapValue fields => forallb (fun kv => read_alike (snd kv)) fields
  | Firestore.emptyArrayValue | Firestore.emptyMapValue | Firestore.otherValue _ => false
  | _ => true
  end.



(** What [generateFn] does with the text it has extracted from the reply:
    the text is parsed and the value validated; a failure of either is
    retryable. *)
Definition read_array (JSON_parse : string -> option JsValue)
    (ZodError_message : list Issue -> string) (text : string)
    (w : Platform.World) : Result JsValue * Platform.World :=
  match JSON_parse text with
  | None =>
      (Throw (mkError RetryableError
                "LLM returned invalid JSON format even after cleaning."),
       Platform.console_error "Failed to parse the cleaned JSON string:" w)
  | Some itinerary =>
      match parse ZodError_message ItinerarySchema itinerary with
      | Return validated => (Return validated, w)
      | Throw validationError =>
          (Throw (mkError RetryableError
                    ("Generated itinerary doesn't match required format: "
                     +:+ message validationError)),
           Platform.console_error "Itinerary validation failed:" w)
      end
  end.

(** The shape of a version 4 identifier: five groups of 8, 4, 4, 4 and 12
    lower-case hexadecimal digits separated by dashes; the third group
    starts with 4 and the fourth with 8, 9, a or b. *)
Inductive CharClass :=
| Hex
| Variant
| Literal (c : ascii).

Definition is_hex (c : ascii) : bool :=
  let n := N_of_ascii c in
  (((48 <=? n) && (n <=? 57)) || ((97 <=? n) && (n <=? 102)))%N.

Definition is_variant (c : ascii) : bool :=
  Ascii.eqb c "8" || Ascii.eqb c "9" || Ascii.eqb c "a" || Ascii.eqb c "b".

Fixpoint has_shape (shape : list CharClass) (s : string) : bool :=
  match shape, s with
  | [], EmptyString => true
  | class :: shape', String c s' =>
      match class with
      | Hex => is_hex c
      | Variant => is_variant c
      | Literal l => Ascii.eqb c l
      end && has_shape shape' s'
  | _, _ => false
  end.

(** What a template of [generateUUID] asks for, character by character. *)
Definition class_of (c : ascii) : CharClass :=
  if Ascii.eqb c "x" then Hex else if Ascii.eqb c "y" then Variant else Literal c.

Fixpoint template_shape (template : string) : list CharClass :=
  match template with
  | EmptyString => []
  | String c rest => class_of c :: template_shape rest
  end.

Fixpoint placeholders (template : string) : nat :=
  match template with
  | EmptyString => O
  | String c rest =>
      ((if Ascii.eqb c "x" || Ascii.eqb c "y" then 1 else 0) + placeholders rest)%nat
  end.

Definition uuid_v4 (s : string) : bool :=
  has_shape
    (replicate 8 Hex ++ [Literal "-"] ++ replicate 4 Hex ++ [Literal "-"; Literal "4"]
     ++ replicate 3 Hex ++ [Literal "-"; Variant] ++ replicate 3 Hex ++ [Literal "-"]
     ++ replicate 12 Hex) s.

(** [JobResponseSchema]: an object whose [jobId] is the text of an
    identifier; [ErrorResponseSchema]: an object whose [error] is a text
    and whose [details], when present, is a text. *)
Definition job_response (body : JsValue) : bool :=
  match get_prop body "jobId" with
  | Some (JsStr id) => uuid_v4 id
  | _ => false
  end.

Definition error_response (body : JsValue) : bool :=
  match get_prop body "error", get_prop body "details" with
  | Some (JsStr _), (None | Some (JsStr _)) => true
  | _, _ => false
  end.








(** A storable value that is neither an object, an array nor a Date. *)
Definition scalar (v : JsValue) : bool :=
  match v with
  | JsNull | JsBool _ | JsStr _ | JsNum _ => storable v
  | _ => false
  end.

End Reference.

(** ** Observing a retried operation *)

Module Observation.
Import Js Utils.

Section Probe.
Context {W A : Type}.

(** A world with two counters next to it: how many times the operation
    was invoked and how long was waited in all. *)
Record Probe := mkProbe { inner : W; invocations : nat; waited : Z }.

Definition counting (fn : W -> Result A * W) (p : Probe) : Result A * Probe :=
  let '(r, w) := fn (inner p) in
  (r, mkProbe w (S (invocations p)) (waited p)).

Definition timing (sleep_ : Z -> W -> W) (ms : Z) (p : Probe) : Probe :=
  mkProbe (sleep_ ms (inner p)) (invocations p) (waited p + ms).

Variable sleep_ : Z -> W -> W.
Variable fn : W -> Result A * W.
Variable baseDelay : Z.

(** The world in which invocation number [i] (from 0) takes place when
    every earlier invocation failed and was followed by its backoff. *)
Fixpoint world_at (i : nat) (w : W) : W :=
  match i with
  | O => w
  | S j => sleep_ (baseDelay * 2 ^ Z.of_nat j) (snd (fn (world_at j w)))
  end.

Definition outcome_at (i : nat) (w : W) : Result A := fst (fn (world_at i w)).

(** Invocation number [i] fails with an error of the retryable class. *)
Definition retried (retryableError : ErrorClass) (i : nat) (w : W) : Prop :=
  exists e, outcome_at i w = Throw e /\ instanceof e retryableError = true.

End Probe.
Arguments Probe W : clear implicits.

(** [2^0 + 2^1 + ... + 2^(k-1)]. *)
Fixpoint geometric (k : nat) : Z :=
  match k with
  | O => 0
  | S j => geometric j + 2 ^ Z.of_nat j
  end.

End Observation.

(** ** Scenarios

    Concrete values and worlds on which the properties are exercised. *)

Module Scenarios.
Import Js Zod Types Firestore Platform FirestoreClient Utils Llm Credentials Worker Reference.
Import Observation.

(** A day whose only activity is in the morning. *)
Definition morning_only_day : JsValue :=
  JsObject
    [("day", JsNum (Integer 1));
     ("theme", JsStr "Temples");
     ("activities",
       JsArray
         [JsObject
            [("time", JsStr "Morning");
             ("description", JsStr "Visit Kinkaku-ji");
             ("location", JsStr "Kita Ward")]])].

(** An operation on a world that only counts the calls made: it fails
    with a retryable error on its first [k] calls and succeeds afterwards. *)
Definition flaky (k : nat) (calls : nat) : Result string * nat :=
  if (calls <? k)%nat
  then (Throw (mkError RetryableError "try again"), S calls)
  else (Return "done", S calls).

(** An operation that fails at once with an error of another class. *)
Definition broken (calls : nat) : Result string * nat :=
  (Throw (mkError TypeError "no"), S calls).

Definition no_sleep (ms : Z) (calls : nat) : nat := calls.


(** A stored document with a field of a type the decoder has no branch
    for. *)
Definition document_with_location : Fields :=
  [("name", stringValue "Kyoto"); ("place", otherValue "geoPointValue")].



(** A world whose store holds one job in progress and answers the next two
    requests with success. *)
Definition kyoto_job : Fields :=
  [("status", stringValue "processing");
   ("destination", stringValue "Kyoto, Japan");
   ("durationDays", integerValue "4");
   ("createdAt", timestampValue "2024-11-02T09:00:00.000Z");
   ("completedAt", nullValue);
   ("itinerary", nullValue);
   ("error", nullValue)].


(** A stand-in for [JSON.parse] on the few texts of the scenarios: the
    text is looked up in a table of parsed values. *)
Definition completion (content : string) : JsValue :=
  JsObject
    [("choices",
       JsArray [JsObject [("message", JsObject [("content", JsStr content)])]])].

Definition json_table : list (string * JsValue) :=
  [("request", JsObject [("destination", JsStr "Kyoto, Japan");
                         ("durationDays", JsNum (Integer 4))]);
   ("too long", JsObject [("destination", JsStr "Kyoto, Japan");
                          ("durationDays", JsNum (Integer 31))]);
   ("key", JsObject [("client_email", JsStr "worker@project.example")]);
   ("token", JsObject [("access_token", JsStr "ya29.token")]);
   ("no choices", JsObject [("choices", JsArray [])]);
   ("prose", completion "I cannot help with that.");
   ("broken", completion "Here you go: [ {day: 1 ]");
   ("one slot", completion " ```json [DAYS] ``` ");
   ("no day", completion "[ {} ]");
   ("[DAYS]", JsArray [morning_only_day]);
   ("[ {} ]", JsArray [JsObject []]);
   ("{}", JsObject [])].

Definition table_parse (text : string) : option JsValue := lookup_prop json_table text.

(** A stand-in for the message of a ZodError: the number of its issues. *)
Definition table_message (issues : list Issue) : string :=
  "issues: " +:+ toString (Z.of_nat (length issues)).

Definition quiet_world (replies : list (option HttpResponse)) : World :=
  mkWorld 1730538000000 replies ∅ (Return "assertion") [] [].

Definition worker_env : Env :=
  mkEnv (Some "key") (Some "itinerary-project") (Some "sk-test").

(** A world in which the token exchange and the creation of the document
    succeed, the first generation is refused for load and the second one
    answers; the store then accepts the update. *)
Definition busy_then_fine : World :=
  mkWorld 1730538000000
    [Some (mkResponse 200 "token"); Some (mkResponse 200 "{}");
     Some (mkResponse 503 "overloaded"); Some (mkResponse 200 "one slot");
     Some (mkResponse 200 "{}")]
    ∅ (Return "assertion") [1; 2; 3; 4; 5; 6; 7; 8; 9; 10; 11; 12; 13; 14; 15] [].

(** A world in which the job is created, the generative service refuses
    the key and the store refuses the write of the failure. *)
Definition all_refused : World :=
  mkWorld 1730538000000
    [Some (mkResponse 200 "token"); Some (mkResponse 200 "{}");
     Some (mkResponse 401 "invalid api key"); Some (mkResponse 503 "unavailable")]
    ∅ (Return "assertion") [] [].

(** The job of [world_with_job], as the background task receives it. *)
Definition kyoto_task : Task :=
  mkTask "job-1" (JsStr "Kyoto, Japan") (JsNum (Integer 4)).


(** An object with a list of timestamps, and the same timestamp as a
    field of its own. *)
Definition visit_times : JsValue :=
  JsObject [("visits", JsArray [JsDate (Some 1730538000000)])].

Definition visit_time : JsValue :=
  JsObject [("visit", JsDate (Some 1730538000000))].

(** A list of lists. *)
Definition grid : JsValue :=
  JsObject [("rows", JsArray [JsArray [JsNum (Integer 1); JsNum (Integer 2)]])].


(** The object of a completed job, as the background task writes it. *)
Definition completed_kyoto : JsValue :=
  JsObject
    [("status", JsStr "completed");
     ("destination", JsStr "Kyoto, Japan");
     ("durationDays", JsNum (Integer 4));
     ("completedAt", JsDate (Some 1730538000000));
     ("itinerary", JsArray [morning_only_day]);
     ("error", JsNull)].


End Scenarios.

(** * Properties *)

Import Js Zod Types Firestore Platform FirestoreClient Utils Llm Credentials Worker.
Import Reference Observation Scenarios.

(** Closed decidable facts (distinct keys, membership) by evaluation. *)
Ltac by_evaluation := apply (bool_decide_unpack _); vm_compute; exact I.

(** ** Induction over nested values *)

Lemma JsValue_nested_ind (P : JsValue -> Prop) :
  P JsUndefined -> P JsNull ->
  (forall b, P (JsBool b)) -> (forall n, P (JsNum n)) -> (forall s, P (JsStr s)) ->
  (forall t, P (JsDate t)) ->
  (forall items, Forall P items -> P (JsArray items)) ->
  (forall props, Forall (fun kv => P (snd kv)) props -> P (JsObject props)) ->
  (forall name, P (JsFunction name)) ->
  forall v, P v.
Proof.
  intros Hu Hn Hb Hnum Hs Hd Ha Ho Hf.
  fix IH 1. intros [| | b | n | s | t | items | props | name].
  - exact Hu.
  - exact Hn.
  - apply Hb.
  - apply Hnum.
  - apply Hs.
  - apply Hd.
  - apply Ha. induction items as [| x xs IHxs]; constructor; [apply IH | exact IHxs].
  - apply Ho. induction props as [| [k x] xs IHxs]; constructor; [apply IH | exact IHxs].
  - apply Hf.
Qed.

Lemma Schema_nested_ind (P : Schema -> Prop) :
  (forall min, P (z_string min)) ->
  (forall checks, P (z_number checks)) ->
  (forall values, P (z_enum values)) ->
  (forall element min, P element -> P (z_array element min)) ->
  (forall shape, Forall (fun entry => P (snd entry)) shape -> P (z_object shape)) ->
  forall schema, P schema.
Proof.
  intros Hs Hn He Ha Ho.
  fix IH 1. intros [min | checks | values | element min | shape].
  - apply Hs.
  - apply Hn.
  - apply He.
  - apply Ha, IH.
  - apply Ho. induction shape as [| [k x] xs IHxs]; constructor; [apply IH | exact IHxs].
Qed.

(** ** The schema interpreter against the reference reading *)

Lemma forallb_pointwise {A} (f g : A -> bool) (l : list A) :
  (forall x, f x = g x) -> forallb f l = forallb g l.
Proof. intros H. induction l as [| x xs IH]; simpl; [reflexivity |]. now rewrite H, IH. Qed.

Lemma too_short_nil at_ min len :
  too_short at_ min len = [] <-> long_enough min len = true.
Proof.
  unfold too_short, long_enough. destruct min as [[n msg] |]; [| tauto].
  destruct (len <? n)%nat; simpl; split; congruence.
Qed.

Lemma check_number_nil at_ n c :
  check_number at_ n c = [] <-> accepts_number n c = true.
Proof.
  destruct c; simpl.
  - destruct (Number_isInteger n); split; congruence.
  - destruct (number_gtb n 0); split; congruence.
  - destruct (number_ltb n bound); simpl; split; congruence.
  - destruct (number_gtb n bound); simpl; split; congruence.
Qed.

Lemma concat_checks_nil at_ n checks :
  concat (map (check_number at_ n) checks) = [] <-> forallb (accepts_number n) checks = true.
Proof.
  induction checks as [| c cs IH]; simpl; [tauto |].
  rewrite app_nil, andb_true_iff, check_number_nil, IH. tauto.
Qed.


Lemma parse_items_nil (parse : list string -> JsValue -> Parsed) (Q : JsValue -> bool) at_ :
  forall items i,
    Forall (fun item => forall p, snd (parse p item) = [] <-> Q item = true) items ->
    snd (parse_items parse at_ i items) = [] <-> forallb Q items = true.
Proof.
  induction items as [| item rest IH]; intros i Hall; simpl; [tauto |].
  inversion Hall as [| ? ? Hitem Hrest]; subst.
  specialize (IH (S i) Hrest).
  destruct (parse (at_ ++ [decimal (Z.of_nat i)]) item) as [v issues] eqn:E.
  destruct (parse_items parse at_ (S i) rest) as [vs more]. simpl in *.
  rewrite app_nil, andb_true_iff, <- IH, <- (Hitem (at_ ++ [decimal (Z.of_nat i)])), E.
  tauto.
Qed.

Lemma parse_shape_nil (parse : Schema -> list string -> JsValue -> Parsed)
    (Q : Schema -> JsValue -> bool) at_ props :
  forall shape,
    Forall (fun entry => forall p v, snd (parse (snd entry) p v) = [] <-> Q (snd entry) v = true)
           shape ->
    snd (parse_shape parse at_ props shape) = []
    <-> forallb (fun entry =>
                   Q (snd entry) (default JsUndefined (lookup_prop props (fst entry))))
                shape = true.
Proof.
  induction shape as [| [key schema] rest IH]; intros Hall; simpl; [tauto |].
  inversion Hall as [| ? ? Hentry Hrest]; subst. simpl in Hentry.
  specialize (IH Hrest).
  destruct (parse schema (at_ ++ [key]) (default JsUndefined (lookup_prop props key)))
    as [v issues] eqn:E.
  destruct (parse_shape parse at_ props rest) as [vs more]. simpl in *.
  rewrite app_nil, andb_true_iff, <- IH, <- (Hentry (at_ ++ [key])), E.
  tauto.
Qed.

(** The interpreter raises no issue exactly on the inputs the schema
    accepts, wherever in the input the schema is applied. *)
Lemma parse_at_accepts schema :
  forall at_ input, snd (parse_at schema at_ input) = [] <-> accepts schema input = true.
Proof.
  induction schema as [min | checks | values | element min IH | shape IH]
    using Schema_nested_ind; intros at_ input.
  - destruct input; simpl; try (split; [discriminate | congruence]).
    apply too_short_nil.
  - destruct input as [| | | n | | | | |]; simpl; try (split; [discriminate | congruence]).
    destruct n; simpl; try apply concat_checks_nil. split; discriminate.
  - destruct input; simpl; try (split; [discriminate | congruence]).
    destruct (existsb (String.eqb s) values); split; congruence.
  - destruct input as [| | | | | | items | |]; simpl;
      try (split; [discriminate | congruence]).
    destruct (parse_items (parse_at element) at_ 0 items) as [vs issues] eqn:E. simpl.
    rewrite app_nil, andb_true_iff, too_short_nil.
    assert (H : snd (parse_items (parse_at element) at_ 0 items) = []
                <-> forallb (accepts element) items = true).
    { apply parse_items_nil. apply Forall_forall. intros; apply IH. }
    rewrite E in H. simpl in H. tauto.
  - destruct input as [| | | | | | | props |]; simpl;
      try (split; [discriminate | congruence]).
    destruct (parse_shape parse_at at_ props shape) as [vs issues] eqn:E. simpl.
    assert (H := parse_shape_nil parse_at accepts at_ props shape).
    rewrite E in H. simpl in H. apply H.
    eapply Forall_impl; [exact IH |]. intros entry Hentry p v. apply Hentry.
Qed.

Lemma parse_returns_accepts (ZodError_message : list Issue -> string) schema input :
  returns (parse ZodError_message schema input) = accepts schema input.
Proof.
  unfold parse, safeParse.
  assert (H := parse_at_accepts schema [] input).
  destruct (parse_at schema [] input) as [v issues]. simpl in H.
  destruct issues; simpl.
  - symmetry. apply H. reflexivity.
  - destruct (accepts schema input); [| reflexivity].
    destruct H as [_ H]. discriminate H. reflexivity.
Qed.

(** ** Itinerary validation (types.js) *)

Lemma accepts_required_text msg (o : option JsValue) :
  accepts (z_string (Some (1%nat, msg))) (default JsUndefined o) = nonempty_text o.
Proof. destruct o as [[| | | | [| c s] | | | |] |]; reflexivity. Qed.

Lemma accepts_time_slot (o : option JsValue) :
  accepts (z_enum ["Morning"; "Afternoon"; "Evening"]) (default JsUndefined o) = is_time_slot o.
Proof. destruct o as [[] |]; reflexivity. Qed.

Lemma accepts_positive_integer (o : option JsValue) :
  accepts (z_number [int; positive_]) (default JsUndefined o) = positive_integer o.
Proof.
  destruct o as [[| | | n | | | | |] |]; try reflexivity.
  destruct n; simpl; rewrite ?andb_true_r; reflexivity.
Qed.

Lemma accepts_activity v : accepts ActivitySchema v = valid_activity v.
Proof.
  destruct v as [| | | | | | | props |]; try reflexivity.
  unfold ActivitySchema, valid_activity, accepts; fold accepts. unfold forallb, fst, snd.
  rewrite accepts_time_slot, !accepts_required_text, andb_true_r, andb_assoc.
  reflexivity.
Qed.

Lemma accepts_day v : accepts DaySchema v = valid_day v.
Proof.
  destruct v as [| | | | | | | props |]; try reflexivity.
  unfold DaySchema, valid_day.
  change (accepts (z_object ?shape) (JsObject props))
    with (forallb (fun entry =>
            accepts (snd entry) (default JsUndefined (lookup_prop props (fst entry)))) shape).
  unfold forallb, fst, snd.
  rewrite accepts_positive_integer, accepts_required_text, andb_true_r, andb_assoc.
  f_equal.
  destruct (lookup_prop props "activities") as [[| | | | | | activities | |] |];
    try reflexivity.
  simpl. destruct activities as [| first more]; [reflexivity |].
  simpl. f_equal; [apply accepts_activity |].
  apply forallb_pointwise. intros a. apply accepts_activity.
Qed.

Lemma accepts_itinerary v : accepts ItinerarySchema v = valid_itinerary v.
Proof.
  destruct v as [| | | | | | days | |]; try reflexivity.
  unfold ItinerarySchema, valid_itinerary.
  change (accepts (z_array ?e ?m) (JsArray days))
    with (long_enough m (length days) && forallb (accepts e) days).
  destruct days as [| first more]; [reflexivity |].
  simpl. f_equal; [apply accepts_day |].
  apply forallb_pointwise. intros d. apply accepts_day.
Qed.

(** C1, as amended: validation of an itinerary accepts exactly a non-empty
    array of days, each an object with a positive integer [day], a
    non-empty [theme] and a non-empty array of activities whose [time] is
    Morning, Afternoon or Evening and whose [description] and [location]
    are non-empty.  Neither the number of activities nor the coverage of
    the three time slots is examined. *)
Theorem itinerary_validation_accepts_exactly (ZodError_message : list Issue -> string)
    (itinerary : JsValue) :
  returns (parse ZodError_message ItinerarySchema itinerary) = valid_itinerary itinerary.
Proof. rewrite parse_returns_accepts. apply accepts_itinerary. Qed.

(** C1, counterexample: an itinerary whose single day has one activity,
    hence misses the afternoon and the evening, passes validation
    unchanged. *)
Lemma itinerary_validation_accepts_missing_slots :
  parse table_message ItinerarySchema (JsArray [morning_only_day])
  = Return (JsArray [morning_only_day])
  /\ three_slots_once morning_only_day = false
  /\ slots_of morning_only_day = ["Morning"].
Proof. split; [| split]; vm_compute; reflexivity. Qed.

(** ** Retry with backoff (utils.js) *)

Section RetryFacts.
Context {W A : Type}.
Variable sleep_ : Z -> W -> W.
Variable fn : W -> Result A * W.
Variables maxRetries baseDelay : Z.
Variable retryableError : ErrorClass.

Let probe (i : nat) (w : W) : Probe W :=
  mkProbe (world_at sleep_ fn baseDelay i w) i (baseDelay * geometric i).

Let loop :=
  retryLoop (timing sleep_) (counting fn) maxRetries baseDelay retryableError.

Let retried := retried sleep_ fn baseDelay retryableError.

(** One round of the loop on an invocation that fails with a retryable
    error while retries remain. *)
Lemma retryLoop_round (n i : nat) (w : W) :
  Z.of_nat i < maxRetries -> retried i w ->
  loop (S n) (Z.of_nat i) (probe i w) = loop n (Z.of_nat (S i)) (probe (S i) w).
Proof.
  intros Hlt (e & He & Hinst). unfold loop, probe. simpl retryLoop.
  unfold counting at 1. simpl inner. unfold outcome_at in He.
  destruct (fn (world_at sleep_ fn baseDelay i w)) as [r w'] eqn:E.
  simpl in He. subst r. rewrite Hinst.
  destruct (Z.ltb_spec (Z.of_nat i) maxRetries) as [_ | Hge]; [| lia].
  simpl andb. cbv iota. unfold timing. simpl.
  f_equal; [lia |]. f_equal. lia.
Qed.

(** The loop runs through [k] failed and retried invocations. *)
Lemma retryLoop_rounds (k : nat) (w : W) :
  Z.of_nat k <= maxRetries ->
  (forall i, (i < k)%nat -> retried i w) ->
  forall n, loop (k + n) 0 (probe 0 w) = loop n (Z.of_nat k) (probe k w).
Proof.
  induction k as [| k IH]; intros Hk Hfail n; [reflexivity |].
  replace (S k + n)%nat with (k + S n)%nat by lia.
  rewrite IH by (try lia; intros; apply Hfail; lia).
  apply retryLoop_round; [lia | apply Hfail; lia].
Qed.

Lemma retryWithBackoff_rounds (k : nat) (w : W) :
  Z.of_nat k <= maxRetries ->
  (forall i, (i < k)%nat -> retried i w) ->
  retryWithBackoff (timing sleep_) (counting fn) maxRetries baseDelay retryableError
    (mkProbe w 0 0)
  = loop (S (Z.to_nat maxRetries - k)) (Z.of_nat k) (probe k w).
Proof.
  intros Hk Hfail. unfold retryWithBackoff.
  replace (Z.to_nat (maxRetries + 1)) with (k + S (Z.to_nat maxRetries - k))%nat by lia.
  rewrite <- (retryLoop_rounds k w Hk Hfail).
  unfold loop, probe. simpl. do 2 f_equal. lia.
Qed.

End RetryFacts.

(** C3: an operation that fails with a retryable error on each of its
    first [k] invocations ([k] within the retry budget) and then succeeds
    is invoked [k + 1] times, the waits add up to
    [baseDelay * (2^0 + ... + 2^(k-1))] and its result is returned; an
    operation whose first invocation fails with a non-retryable error is
    invoked once, nothing is waited and that error is thrown; an operation
    that fails with a retryable error every time is invoked
    [maxRetries + 1] times and the error of the last invocation is
    thrown. *)
Theorem retryWithBackoff_arithmetic {W A : Type}
    (sleep_ : Z -> W -> W) (fn : W -> Result A * W)
    (maxRetries baseDelay : Z) (retryableError : ErrorClass) (w : W) :
  0 <= maxRetries ->
  let run :=
    retryWithBackoff (timing sleep_) (counting fn) maxRetries baseDelay retryableError
      (mkProbe w 0 0) in
  let world_at := world_at sleep_ fn baseDelay in
  let outcome_at := outcome_at sleep_ fn baseDelay in
  let retried := retried sleep_ fn baseDelay retryableError in
  (forall (k : nat) (result : A),
      Z.of_nat k <= maxRetries ->
      (forall i, (i < k)%nat -> retried i w) ->
      outcome_at k w = Return result ->
      run = (Return (Some result),
             mkProbe (snd (fn (world_at k w))) (k + 1) (baseDelay * geometric k)))
  /\ (forall error,
        outcome_at O w = Throw error ->
        instanceof error retryableError = false ->
        run = (Throw error, mkProbe (snd (fn w)) 1 0))
  /\ (forall error,
        (forall i, Z.of_nat i <= maxRetries -> retried i w) ->
        outcome_at (Z.to_nat maxRetries) w = Throw error ->
        run = (Throw error,
               mkProbe (snd (fn (world_at (Z.to_nat maxRetries) w)))
                       (Z.to_nat maxRetries + 1)
                       (baseDelay * geometric (Z.to_nat maxRetries)))).
Proof.
  intros Hmax run wat oat ret. subst run wat oat ret.
  split; [| split].
  - intros k result Hk Hfail Hok.
    rewrite (retryWithBackoff_rounds _ _ _ _ _ k w Hk Hfail).
    simpl retryLoop. unfold counting at 1. simpl inner.
    unfold outcome_at in Hok.
    destruct (fn (world_at sleep_ fn baseDelay k w)) as [r w'] eqn:E.
    simpl in Hok. subst r. simpl. do 2 f_equal. lia.
  - intros error Hfail Hfatal.
    rewrite (retryWithBackoff_rounds _ _ _ _ _ O w) by (try lia; intros; lia).
    simpl retryLoop. unfold counting at 1. simpl inner.
    unfold outcome_at in Hfail. simpl in Hfail.
    destruct (fn w) as [r w'] eqn:E. simpl in Hfail. subst r.
    rewrite Hfatal. simpl. do 2 f_equal. lia.
  - intros error Hfail Hlast.
    rewrite (retryWithBackoff_rounds _ _ _ _ _ (Z.to_nat maxRetries) w)
      by (try lia; intros; apply Hfail; lia).
    simpl retryLoop. unfold counting at 1. simpl inner.
    unfold outcome_at in Hlast.
    destruct (fn (world_at sleep_ fn baseDelay (Z.to_nat maxRetries) w)) as [r w'] eqn:E.
    simpl in Hlast. subst r.
    replace (Z.of_nat (Z.to_nat maxRetries) <? maxRetries) with false
      by (symmetry; apply Z.ltb_ge; lia).
    rewrite andb_false_r. simpl. do 2 f_equal. lia.
Qed.

Lemma retryWithBackoff_arithmetic_witness :
  retryWithBackoff (timing no_sleep) (counting (flaky 2)) 3 1000 RetryableError
    (mkProbe 0%nat 0%nat 0)
  = (Return (Some "done"), mkProbe 3%nat 3%nat 3000)
  /\ retryWithBackoff (timing no_sleep) (counting broken) 3 1000 RetryableError
       (mkProbe 0%nat 0%nat 0)
     = (Throw (mkError TypeError "no"), mkProbe 1%nat 1%nat 0)
  /\ retryWithBackoff (timing no_sleep) (counting (flaky 9)) 3 1000 RetryableError
       (mkProbe 0%nat 0%nat 0)
     = (Throw (mkError RetryableError "try again"), mkProbe 4%nat 4%nat 7000).
Proof.
  split; [| split].
  - apply (proj1 (retryWithBackoff_arithmetic no_sleep (flaky 2) 3 1000 RetryableError
                    0%nat ltac:(lia)) 2%nat "done").
    + lia.
    + intros i Hi. exists (mkError RetryableError "try again").
      destruct i as [| [| i]]; [split; reflexivity | split; reflexivity | lia].
    + reflexivity.
  - apply (proj1 (proj2 (retryWithBackoff_arithmetic no_sleep broken 3 1000 RetryableError
                           0%nat ltac:(lia)))).
    + reflexivity.
    + reflexivity.
  - apply (proj2 (proj2 (retryWithBackoff_arithmetic no_sleep (flaky 9) 3 1000
                           RetryableError 0%nat ltac:(lia)))).
    + intros i Hi. exists (mkError RetryableError "try again").
      destruct i as [| [| [| [| i]]]]; try (split; reflexivity). lia.
    + reflexivity.
Defined.

(** ** Numbers and dates in text *)

Lemma digit_cases d :
  0 <= d <= 9 ->
  d = 0 \/ d = 1 \/ d = 2 \/ d = 3 \/ d = 4 \/ d = 5 \/ d = 6 \/ d = 7 \/ d = 8 \/ d = 9.
Proof. lia. Qed.

Ltac each_digit d H :=
  apply digit_cases in H;
  repeat (destruct H as [H | H]; [subst d |]); [.. | subst d].

Lemma digit_value_char d : 0 <= d <= 9 -> digit_value 10 (digit_char d) = Some d.
Proof. intros H. each_digit d H; reflexivity. Qed.

(** The text of a list of decimal digits, in front of [acc]. *)
Lemma parse_digits_render ds :
  forall acc,
    Forall (fun d => 0 <= d <= 9) ds ->
    parse_digits 10 (foldr (fun d s => String (digit_char d) s) "" ds) acc
    = match ds with
      | [] => acc
      | _ => Some (foldl (fun a d => 10 * a + d) (default 0 acc) ds)
      end.
Proof.
  induction ds as [| d ds IH]; intros acc Hds; [reflexivity |].
  apply Forall_cons in Hds as [Hd Hds].
  cbn [foldr parse_digits foldl]. rewrite (digit_value_char d Hd), (IH _ Hds).
  destruct ds; reflexivity.
Qed.

Lemma digits_from_render fuel :
  forall n acc,
    0 <= n < 2 ^ Z.of_nat (S fuel) ->
    exists ds,
      Forall (fun d => 0 <= d <= 9) ds
      /\ ds <> []
      /\ digits_from (S fuel) n acc = foldr (fun d s => String (digit_char d) s) acc ds
      /\ foldl (fun a d => 10 * a + d) 0 ds = n.
Proof.
  induction fuel as [| fuel IH]; intros n acc Hn; cbn [digits_from].
  - change (2 ^ Z.of_nat 1) with 2 in Hn. exists [n].
    replace (n <? 10) with true by (symmetry; apply Z.ltb_lt; lia).
    rewrite Z.mod_small by lia.
    split; [apply Forall_singleton; lia |].
    split; [discriminate |]. split; [reflexivity | simpl; lia].
  - destruct (Z.ltb_spec n 10) as [Hsmall | Hbig].
    + exists [n]. rewrite Z.mod_small by lia.
      split; [apply Forall_singleton; lia |].
    split; [discriminate |]. split; [reflexivity | simpl; lia].
    + destruct (IH (n / 10) (String (digit_char (n mod 10)) acc))
        as (ds & Hds & _ & Hrender & Hvalue).
      { split; [apply Z.div_pos; lia |]. apply Z.div_lt_upper_bound; [lia |].
        rewrite (Nat2Z.inj_succ (S fuel)), Z.pow_succ_r in Hn by lia. lia. }
      exists (ds ++ [n mod 10]). split; [| split; [| split]].
      * apply Forall_app. split; [exact Hds |]. apply Forall_singleton.
        pose proof (Z.mod_pos_bound n 10). lia.
      * now destruct ds.
      * rewrite foldr_app. exact Hrender.
      * rewrite foldl_app. cbn [foldl]. rewrite Hvalue.
        pose proof (Z.div_mod n 10). lia.
Qed.

Lemma decimal_render n :
  0 <= n ->
  exists ds,
    Forall (fun d => 0 <= d <= 9) ds
    /\ ds <> []
    /\ decimal n = foldr (fun d s => String (digit_char d) s) "" ds
    /\ foldl (fun a d => 10 * a + d) 0 ds = n.
Proof.
  intros Hn. apply digits_from_render. split; [exact Hn |].
  rewrite Nat2Z.inj_succ, Z2Nat.id by apply Z.log2_nonneg.
  destruct (Z.eq_dec n 0) as [-> | Hne]; [reflexivity |].
  apply Z.log2_spec. lia.
Qed.

(** The digits of an integer do not look like a radix prefix, a sign or
    white space. *)
Lemma parseInt_render (negative : bool) ds :
  Forall (fun d => 0 <= d <= 9) ds ->
  ds <> [] ->
  parseInt ((if negative then "-" else "")
            +:+ foldr (fun d s => String (digit_char d) s) "" ds)
  = Integer (if negative then - foldl (fun a d => 10 * a + d) 0 ds
             else foldl (fun a d => 10 * a + d) 0 ds).
Proof.
  intros Hds Hne. pose proof (parse_digits_render ds None Hds) as Hparse.
  destruct ds as [| d1 ds]; [congruence |]. clear Hne.
  pose proof Hds as Hall. apply Forall_cons in Hds as [Hd1 Hds].
  assert (Hbody : forall (s : string),
            s = foldr (fun d s => String (digit_char d) s) "" (d1 :: ds) ->
            match s with
            | String "0"%char (String "x"%char rest) => (16, rest)
            | String "0"%char (String "X"%char rest) => (16, rest)
            | _ => (10, s)
            end = (10, s)).
  { intros s ->. destruct ds as [| d2 ds].
    - each_digit d1 Hd1; reflexivity.
    - apply Forall_cons in Hds as [Hd2 _].
      each_digit d1 Hd1; try reflexivity; each_digit d2 Hd2; reflexivity. }
  assert (Htrim : forall s,
            s = foldr (fun d s => String (digit_char d) s) "" (d1 :: ds) ->
            trim_start s = s
            /\ match s with
               | String "-"%char rest => (true, rest)
               | String "+"%char rest => (false, rest)
               | _ => (false, s)
               end = (false, s)).
  { intros s ->. each_digit d1 Hd1; split; reflexivity. }
  remember (foldr (fun d s => String (digit_char d) s) "" (d1 :: ds)) as body eqn:Ebody.
  destruct (Htrim body eq_refl) as [Hspace Hsign]. specialize (Hbody body eq_refl).
  unfold parseInt. destruct negative.
  - change ("-" +:+ body) with (String "-"%char body).
    change (trim_start (String "-" body)) with (String "-"%char body).
    cbv beta iota. rewrite Hbody, Hparse. reflexivity.
  - change ("" +:+ body) with body. rewrite Hspace, Hsign, Hbody, Hparse. reflexivity.
Qed.

Lemma parseInt_toString z : parseInt (toString z) = Integer z.
Proof.
  unfold toString. destruct (Z.ltb_spec z 0) as [Hneg | Hpos].
  - destruct (decimal_render (- z)) as (ds & Hds & Hne & -> & Hvalue); [lia |].
    etransitivity; [exact (parseInt_render true ds Hds Hne) |].
    rewrite Hvalue. f_equal. lia.
  - destruct (decimal_render z) as (ds & Hds & Hne & -> & Hvalue); [lia |].
    etransitivity; [exact (parseInt_render false ds Hds Hne) |].
    rewrite Hvalue. reflexivity.
Qed.

(** *** Dates *)

Lemma pad_append width :
  forall n acc rest, pad width n acc +:+ rest = pad width n (acc +:+ rest).
Proof.
  induction width as [| width IH]; intros n acc rest; [reflexivity |].
  cbn [pad]. now rewrite IH.
Qed.

Lemma take_digits_pad width :
  forall n acc more a,
    0 <= n < 10 ^ Z.of_nat width ->
    take_digits (width + more) (pad width n acc) a
    = take_digits more acc (a * 10 ^ Z.of_nat width + n).
Proof.
  induction width as [| width IH]; intros n acc more a Hn.
  - change (10 ^ Z.of_nat 0) with 1 in *. cbn [pad Nat.add]. f_equal. lia.
  - rewrite Nat2Z.inj_succ, Z.pow_succ_r in * by lia. cbn [pad].
    replace (S width + more)%nat with (width + S more)%nat by lia.
    rewrite IH by (split; [apply Z.div_pos; lia | apply Z.div_lt_upper_bound; lia]).
    cbn [take_digits]. rewrite digit_value_char by (pose proof (Z.mod_pos_bound n 10); lia).
    f_equal. pose proof (Z.div_mod n 10). lia.
Qed.

Lemma take_digits_field width n rest :
  0 <= n < 10 ^ Z.of_nat width ->
  take_digits width (pad width n "" +:+ rest) 0 = Some (n, rest).
Proof.
  intros Hn. rewrite pad_append. change ("" +:+ rest) with rest.
  rewrite <- (Nat.add_0_r width) at 1. rewrite take_digits_pad by exact Hn.
  cbn [take_digits]. now rewrite Z.mul_0_l, Z.add_0_l.
Qed.


Lemma year_of_era doe :
  0 <= doe < 146097 ->
  let yoe := (doe - doe / 1460 + doe / 36524 - doe / 146096) / 365 in
  let doy := doe - (365 * yoe + yoe / 4 - yoe / 100) in
  0 <= yoe <= 399 /\ 0 <= doy <= 365
  /\ (doy = 365 ->
      (yoe + 1) mod 4 = 0 /\ ((yoe + 1) mod 100 <> 0 \/ yoe + 1 = 400)).
Proof.
  intros H yoe doy. subst doy yoe. Z.div_mod_to_equations. lia.
Qed.

Lemma month_of_year doy :
  0 <= doy <= 365 ->
  let mp := (5 * doy + 2) / 153 in
  let d := doy - (153 * mp + 2) / 5 + 1 in
  0 <= mp <= 11 /\ 1 <= d
  /\ d <= (if mp =? 11 then (if doy =? 365 then 29 else 28)
           else if (mp =? 1) || (mp =? 3) || (mp =? 6) || (mp =? 8) then 30 else 31).
Proof.
  intros H mp d. subst d mp.
  split; [Z.div_mod_to_equations; lia |]. split; [Z.div_mod_to_equations; lia |].
  destruct (Z.eqb_spec ((5 * doy + 2) / 153) 11);
    [destruct (Z.eqb_spec doy 365); Z.div_mod_to_equations; lia |].
  destruct (Z.eqb_spec ((5 * doy + 2) / 153) 1); cbn [orb];
    [Z.div_mod_to_equations; lia |].
  destruct (Z.eqb_spec ((5 * doy + 2) / 153) 3); cbn [orb];
    [Z.div_mod_to_equations; lia |].
  destruct (Z.eqb_spec ((5 * doy + 2) / 153) 6); cbn [orb];
    [Z.div_mod_to_equations; lia |].
  destruct (Z.eqb_spec ((5 * doy + 2) / 153) 8); cbn [orb];
    Z.div_mod_to_equations; lia.
Qed.

(** The civil date of a day number is a date of the calendar, and counts
    back to the day number. *)
Lemma civil_from_days_inverse days :
  exists y m d,
    civil_from_days days = (y, m, d)
    /\ days_from_civil y m d = days
    /\ 1 <= m <= 12 /\ 1 <= d <= daysInMonth y m
    /\ 400 * ((days + 719468) / 146097) <= y <= 400 * ((days + 719468) / 146097) + 400.
Proof.
  unfold civil_from_days. cbv zeta.
  remember (days + 719468) as z eqn:Ez.
  remember (z / 146097) as era eqn:Eera.
  remember (z - era * 146097) as doe eqn:Edoe.
  assert (Hdoe : 0 <= doe < 146097) by (subst doe era; Z.div_mod_to_equations; lia).
  pose proof (year_of_era doe Hdoe) as Hyear. cbv zeta in Hyear.
  remember ((doe - doe / 1460 + doe / 36524 - doe / 146096) / 365) as yoe eqn:Eyoe.
  remember (doe - (365 * yoe + yoe / 4 - yoe / 100)) as doy eqn:Edoy.
  destruct Hyear as (Hyoe & Hdoy & Hleap).
  pose proof (month_of_year doy Hdoy) as Hmonth. cbv zeta in Hmonth.
  remember ((5 * doy + 2) / 153) as mp eqn:Emp.
  remember (doy - (153 * mp + 2) / 5 + 1) as d eqn:Ed.
  destruct Hmonth as (Hmp & Hd & Hlen).
  remember (if mp <? 10 then mp + 3 else mp - 9) as m eqn:Em.
  eexists _, _, _. split; [reflexivity |].
  assert (Hm : 1 <= m <= 12 /\ (if 2 <? m then m - 3 else m + 9) = mp
               /\ ((m <=? 2) = (10 <=? mp))).
  { subst m. destruct (Z.ltb_spec mp 10).
    - destruct (Z.ltb_spec 2 (mp + 3)); [| lia].
      destruct (Z.leb_spec (mp + 3) 2); [lia |]. destruct (Z.leb_spec 10 mp); lia.
    - destruct (Z.ltb_spec 2 (mp - 9)); [lia |].
      destruct (Z.leb_spec (mp - 9) 2); [| lia]. destruct (Z.leb_spec 10 mp); lia. }
  destruct Hm as (Hm & Hmp' & Hjan).
  split; [| split; [exact Hm | split; [split; [exact Hd |] |]]].
  - unfold days_from_civil. cbv zeta. rewrite Hmp'.
    replace (yoe + era * 400 + (if m <=? 2 then 1 else 0) - (if m <=? 2 then 1 else 0))
      with (yoe + era * 400) by lia.
    replace ((yoe + era * 400) / 400) with era
      by (apply (Z.div_unique _ _ _ yoe); lia).
    replace (yoe + era * 400 - era * 400) with yoe by lia.
    subst d doy doe. lia.
  - assert (Hcases : mp = 0 \/ mp = 1 \/ mp = 2 \/ mp = 3 \/ mp = 4 \/ mp = 5 \/ mp = 6
                     \/ mp = 7 \/ mp = 8 \/ mp = 9 \/ mp = 10 \/ mp = 11) by lia.
    clear Emp Ed Hmp' Hjan Hm Hmp. unfold daysInMonth.
    destruct Hcases as [-> | Hcases]; [subst m; exact Hlen |].
    destruct Hcases as [-> | Hcases]; [subst m; exact Hlen |].
    destruct Hcases as [-> | Hcases]; [subst m; exact Hlen |].
    destruct Hcases as [-> | Hcases]; [subst m; exact Hlen |].
    destruct Hcases as [-> | Hcases]; [subst m; exact Hlen |].
    destruct Hcases as [-> | Hcases]; [subst m; exact Hlen |].
    destruct Hcases as [-> | Hcases]; [subst m; exact Hlen |].
    destruct Hcases as [-> | Hcases]; [subst m; exact Hlen |].
    destruct Hcases as [-> | Hcases]; [subst m; exact Hlen |].
    destruct Hcases as [-> | Hcases]; [subst m; exact Hlen |].
    destruct Hcases as [-> | ->]; [subst m; exact Hlen |].
    subst m. change (if 11 <? 10 then 11 + 3 else 11 - 9) with 2.
    change (2 =? 2) with true. change (2 <=? 2) with true.
    change (11 =? 11) with true in Hlen. cbv iota in *.
    destruct (Z.eqb_spec doy 365) as [Hlast | _];
      [| destruct (isLeapYear (yoe + era * 400 + 1)); cbv iota in *; lia].
    destruct (Hleap Hlast) as [H4 H100]. unfold isLeapYear.
    assert (Hy4 : (yoe + era * 400 + 1) mod 4 = 0) by (Z.div_mod_to_equations; lia).
    assert (Hy100 : (yoe + era * 400 + 1) mod 100 <> 0
                    \/ (yoe + era * 400 + 1) mod 400 = 0)
      by (Z.div_mod_to_equations; lia).
    rewrite Hy4. change (0 =? 0) with true.
    destruct (Z.eqb_spec ((yoe + era * 400 + 1) mod 100) 0),
             (Z.eqb_spec ((yoe + era * 400 + 1) mod 400) 0);
      cbn [andb orb negb]; cbv iota in *; lia.
  - subst era. destruct (m <=? 2); lia.
Qed.

Lemma pad_head width :
  forall n acc,
    exists d rest, 0 <= d <= 9 /\ pad (S width) n acc = String (digit_char d) rest.
Proof.
  induction width as [| width IH]; intros n acc.
  - exists (n mod 10), acc. split; [| reflexivity].
    pose proof (Z.mod_pos_bound n 10). lia.
  - change (pad (S (S width)) n acc)
      with (pad (S width) (n / 10) (String (digit_char (n mod 10)) acc)).
    apply IH.
Qed.

Lemma parse_year_digit d rest :
  0 <= d <= 9 ->
  parse_year (String (digit_char d) rest) = take_digits 4 (String (digit_char d) rest) 0.
Proof. intros H. each_digit d H; reflexivity. Qed.

Lemma parse_year_iso y rest :
  -999999 <= y <= 999999 -> parse_year (iso_year y "" +:+ rest) = Some (y, rest).
Proof.
  intros Hy. unfold iso_year.
  destruct (Z.leb_spec 0 y) as [Hpos | Hneg]; cbn [andb].
  - destruct (Z.leb_spec y 9999) as [Hsmall | Hbig].
    + destruct (pad_head 3 y "") as (d & rest' & Hd & Hpad).
      pose proof (take_digits_field 4 y rest) as Hfield.
      rewrite Hpad in *. change (String (digit_char d) rest' +:+ rest)
        with (String (digit_char d) (rest' +:+ rest)) in *.
      rewrite parse_year_digit by exact Hd. apply Hfield.
      change (10 ^ Z.of_nat 4) with 10000. lia.
    + destruct (Z.ltb_spec y 0); [lia |].
      change (String "+" (pad 6 (Z.abs y) "") +:+ rest)
        with (String "+"%char (pad 6 (Z.abs y) "" +:+ rest)).
      cbn [parse_year]. rewrite take_digits_field
        by (change (10 ^ Z.of_nat 6) with 1000000; lia).
      f_equal. f_equal. lia.
  - destruct (Z.ltb_spec y 0); [| lia].
    change (String "-" (pad 6 (Z.abs y) "") +:+ rest)
      with (String "-"%char (pad 6 (Z.abs y) "" +:+ rest)).
    cbn [parse_year]. rewrite take_digits_field
      by (change (10 ^ Z.of_nat 6) with 1000000; lia).
    destruct (Z.eqb_spec (Z.abs y) 0); [lia |]. f_equal. f_equal. lia.
Qed.

Lemma daysInMonth_bound y m : daysInMonth y m <= 31.
Proof.
  unfold daysInMonth. destruct (m =? 2); [destruct (isLeapYear y); lia |].
  destruct ((m =? 4) || (m =? 6) || (m =? 9) || (m =? 11)); lia.
Qed.

Lemma expect_literal c rest : expect c (String c "" +:+ rest) = Some rest.
Proof.
  change (String c "" +:+ rest) with (String c rest). unfold expect.
  now rewrite Ascii.eqb_refl.
Qed.

(** A time value within the range of Date is printed by [toISOString] and
    read back by the Date constructor. *)
Lemma Date_parse_toISOString t :
  Z.abs t <= maxTime ->
  exists iso, toISOString (Some t) = Return iso /\ Date_parse iso = Some t.
Proof.
  intros Ht. unfold maxTime in Ht. unfold toISOString.
  destruct (civil_from_days_inverse (t / msPerDay))
    as (y & m & d & -> & Hdays & Hm & Hd & Hy).
  eexists. split; [reflexivity |].
  pose proof (daysInMonth_bound y m) as Hmax.
  unfold msPerDay in *.
  assert (Hyear : -999999 <= y <= 999999).
  { clear Hdays. Z.div_mod_to_equations. lia. }
  remember (t mod 86400000) as ms eqn:Ems.
  assert (Hms : 0 <= ms < 86400000) by (subst ms; apply Z.mod_pos_bound; lia).
  unfold Date_parse.
  rewrite parse_year_iso by exact Hyear. cbn [mbind option_bind].
  rewrite expect_literal. cbn [mbind option_bind].
  rewrite take_digits_field by (change (10 ^ Z.of_nat 2) with 100; lia).
  cbn [mbind option_bind]. rewrite expect_literal. cbn [mbind option_bind].
  rewrite take_digits_field by (change (10 ^ Z.of_nat 2) with 100; lia).
  cbn [mbind option_bind]. rewrite expect_literal. cbn [mbind option_bind].
  rewrite take_digits_field
    by (change (10 ^ Z.of_nat 2) with 100; Z.div_mod_to_equations; lia).
  cbn [mbind option_bind]. rewrite expect_literal. cbn [mbind option_bind].
  rewrite take_digits_field
    by (change (10 ^ Z.of_nat 2) with 100; Z.div_mod_to_equations; lia).
  cbn [mbind option_bind]. rewrite expect_literal. cbn [mbind option_bind].
  rewrite take_digits_field
    by (change (10 ^ Z.of_nat 2) with 100; Z.div_mod_to_equations; lia).
  cbn [mbind option_bind]. rewrite expect_literal. cbn [mbind option_bind].
  rewrite take_digits_field
    by (change (10 ^ Z.of_nat 3) with 1000; Z.div_mod_to_equations; lia).
  cbn [mbind option_bind].
  change (expect "Z" "Z") with (Some ""). cbn [mbind option_bind].
  change (negb ("" =? "")%string) with false. cbv iota.
  replace ((1 <=? m) && (m <=? 12) && (1 <=? d) && (d <=? daysInMonth y m)) with true
    by (symmetry; rewrite !andb_true_iff, !Z.leb_le; lia).
  replace ((ms / 3600000 <=? 23) && (ms / 60000 mod 60 <=? 59) && (ms / 1000 mod 60 <=? 59))
    with true
    by (symmetry; rewrite !andb_true_iff, !Z.leb_le; Z.div_mod_to_equations; lia).
  cbn [negb]. rewrite Hdays. unfold msPerDay.
  replace (t / 86400000 * 86400000 + ms / 3600000 * 3600000 + ms / 60000 mod 60 * 60000
           + ms / 1000 mod 60 * 1000 + ms mod 1000) with t
    by (subst ms; Z.div_mod_to_equations; lia).
  unfold TimeClip, maxTime. destruct (Z.leb_spec (Z.abs t) 8640000000000000); [reflexivity | lia].
Qed.

(** ** The value codec (firestore.js) *)

Lemma Value_nested_ind (P : Value -> Prop) :
  P nullValue -> (forall s, P (stringValue s)) -> (forall digits, P (integerValue digits)) ->
  (forall n, P (doubleValue n)) -> (forall b, P (booleanValue b)) ->
  (forall iso, P (timestampValue iso)) ->
  (forall values,
      Forall (fun item => match item with Some x => P x | None => True end) values ->
      P (arrayValue values)) ->
  (forall fields, Forall (fun kv => P (snd kv)) fields -> P (mapValue fields)) ->
  P emptyArrayValue -> P emptyMapValue ->
  (forall tag, P (otherValue tag)) ->
  forall v, P v.
Proof.
  intros Hn Hs Hi Hd Hb Ht Ha Hm Hea Hem Ho.
  fix IH 1. intros [| s | digits | n | b | iso | values | fields | | | tag].
  - exact Hn.
  - apply Hs.
  - apply Hi.
  - apply Hd.
  - apply Hb.
  - apply Ht.
  - apply Ha. induction values as [| [x |] xs IHxs]; constructor;
      [apply IH | exact IHxs | exact I | exact IHxs].
  - apply Hm. induction fields as [| [k x] xs IHxs]; constructor; [apply IH | exact IHxs].
  - exact Hea.
  - exact Hem.
  - apply Ho.
Qed.

(** The nested loops are the loops of the source: the entries of an array
    are its indexed items, and the converter of an object value is the
    converter itself. *)
Lemma forIndexed_entries {A B} (body : A -> Result (option B)) items :
  forall i fields,
    forIndexed body i items fields = forEntries body (indexed i items) fields.
Proof.
  induction items as [| x xs IH]; intros i fields; simpl; [reflexivity |].
  destruct (body x) as [[y |] | e]; auto.
Qed.

Lemma toFirestoreValue_object props :
  toFirestoreValue (JsObject props) = asMap (convertToFirestoreFields (JsObject props)).
Proof. reflexivity. Qed.

Lemma toFirestoreValue_array items :
  toFirestoreValue (JsArray items)
  = bind (mapM toFirestoreItem items) (fun values => Return (Some (arrayValue values))).
Proof. reflexivity. Qed.

Lemma toFirestoreItem_object item :
  typeof item = "object" -> item <> JsNull ->
  toFirestoreItem item = asMap (convertToFirestoreFields item).
Proof.
  destruct item; try discriminate; try congruence; intros _ _; simpl.
  - reflexivity.
  - unfold convertToFirestoreFields. simpl. now rewrite forIndexed_entries.
  - reflexivity.
Qed.

Lemma toFirestoreItem_temp item :
  (typeof item = "object" -> item = JsNull) ->
  toFirestoreItem item
  = bind (convertToFirestoreFields (JsObject [("temp", item)]))
         (fun fields => Return (lookup_prop fields "temp")).
Proof.
  intros H. unfold convertToFirestoreFields. simpl.
  destruct item; simpl; try reflexivity;
    try (discriminate (H eq_refl)).
  destruct (integral n); reflexivity.
Qed.

Lemma fromFirestoreValue_array values :
  fromFirestoreValue (arrayValue values)
  = bind (mapM fromFirestoreItem values) (fun items => Return (Some (JsArray items))).
Proof. reflexivity. Qed.

Lemma fromFirestoreValue_map fields :
  fromFirestoreValue (mapValue fields)
  = bind (convertFromFirestoreFields fields) (fun obj => Return (Some obj)).
Proof. reflexivity. Qed.

(** *** When the converters return *)

Lemma returns_bind {A B} (r : Result A) (k : A -> Result B) :
  (forall a, returns (k a) = true) -> returns (bind r k) = returns r.
Proof. intros H. destruct r; simpl; auto. Qed.

Lemma returns_mapM {A B} (f : A -> Result B) (l : list A) :
  returns (mapM f l) = forallb (fun x => returns (f x)) l.
Proof.
  induction l as [| x xs IH]; simpl; [reflexivity |].
  destruct (f x); simpl; [| reflexivity].
  rewrite <- IH. destruct (mapM f xs); reflexivity.
Qed.

Lemma returns_forEntries {A B} (body : A -> Result (option B)) entries :
  forall fields,
    returns (forEntries body entries fields)
    = forallb (fun kv => returns (body (snd kv))) entries.
Proof.
  induction entries as [| [k v] rest IH]; intros fields; simpl; [reflexivity |].
  destruct (body v) as [[x |] | e]; simpl; auto.
Qed.

Lemma forallb_indexed {A} (f : A -> bool) (items : list A) :
  forall i, forallb (fun kv => f (snd kv)) (indexed i items) = forallb f items.
Proof. induction items as [| x xs IH]; intros i; simpl; [reflexivity |]. now rewrite IH. Qed.

Lemma forallb_Forall_eq {A} (f g : A -> bool) (l : list A) :
  Forall (fun x => f x = g x) l -> forallb f l = forallb g l.
Proof. induction 1 as [| x xs Hx _ IH]; simpl; [reflexivity |]. now rewrite Hx, IH. Qed.

(** The encoder throws exactly when it has to print an invalid Date. *)
Lemma toFirestoreValue_returns v :
  returns (toFirestoreValue v) = dates_valid v
  /\ returns (toFirestoreItem v) = item_dates_valid v.
Proof.
  induction v as [| | b | n | s | t | items IH | props IH | name] using JsValue_nested_ind;
    try (split; reflexivity).
  - split; simpl; destruct (integral n); reflexivity.
  - split; [| reflexivity]. destruct t; reflexivity.
  - split.
    + rewrite toFirestoreValue_array, returns_bind by reflexivity.
      rewrite returns_mapM. simpl. apply forallb_Forall_eq.
      eapply Forall_impl; [exact IH |]. intros item [_ H]. exact H.
    + simpl. unfold asMap. rewrite returns_bind by reflexivity.
      rewrite forIndexed_entries, returns_forEntries.
      rewrite (forallb_indexed (fun x => returns (toFirestoreValue x))).
      apply forallb_Forall_eq.
      eapply Forall_impl; [exact IH |]. intros item [H _]. exact H.
  - assert (H : returns (toFirestoreValue (JsObject props)) = dates_valid (JsObject props)).
    { simpl. unfold asMap. rewrite returns_bind by reflexivity.
      rewrite returns_forEntries. apply forallb_Forall_eq.
      eapply Forall_impl; [exact IH |]. intros kv [H _]. exact H. }
    split; exact H.
Qed.

(** The decoder throws exactly when an array is without values or holds
    an undefined entry, or a map is without fields; the tag of a value
    plays no part. *)
Lemma fromFirestoreValue_returns v :
  returns (fromFirestoreValue v) = complete v.
Proof.
  induction v as [| s | digits | n | b | iso | values IH | fields IH | | | tag]
    using Value_nested_ind; try reflexivity.
  - rewrite fromFirestoreValue_array, returns_bind by reflexivity.
    rewrite returns_mapM. simpl. apply forallb_Forall_eq.
    eapply Forall_impl; [exact IH |]. intros [x |] H; [| reflexivity].
    destruct x; try exact H; simpl in *.
    + rewrite <- H. unfold asObject.
      rewrite !returns_bind by reflexivity. reflexivity.
    + rewrite <- H. unfold asObject.
      destruct (forEntries fromFirestoreValue fields []); reflexivity.
  - simpl. unfold asObject. rewrite !returns_bind by reflexivity.
    rewrite returns_forEntries. apply forallb_Forall_eq. exact IH.
Qed.

(** *** Which keys the converters keep *)

Lemma assign_fresh {A} (o : list (string * A)) key v :
  key ∉ map fst o -> assign o key v = o ++ [(key, v)].
Proof.
  induction o as [| [k x] rest IH]; intros Hfresh; simpl; [reflexivity |].
  simpl in Hfresh. apply not_elem_of_cons in Hfresh as [Hne Hrest].
  destruct (String.eqb_spec k key) as [-> | _]; [congruence |].
  now rewrite IH.
Qed.

Lemma forEntries_fresh {A B} (body : A -> Result (option B)) entries :
  forall fields,
    forallb (fun kv => returns (body (snd kv))) entries = true ->
    NoDup (map fst fields ++ map fst entries) ->
    forEntries body entries fields = Return (fields ++ assigned body entries).
Proof.
  induction entries as [| [k v] rest IH]; intros fields Hret Hnodup; simpl.
  - now rewrite app_nil_r.
  - simpl in Hret. apply andb_true_iff in Hret as [Hv Hrest].
    apply NoDup_app in Hnodup as (Hfields & Hdisj & Hkeys).
    simpl in Hkeys. apply NoDup_cons in Hkeys as [Hk Hkeys].
    unfold assigned. simpl.
    destruct (body v) as [[x |] | e]; simpl; [| | discriminate].
    + rewrite IH; [| exact Hrest |].
      * rewrite assign_fresh by (intros Hin; apply (Hdisj k Hin); left).
        now rewrite <- app_assoc.
      * rewrite assign_fresh by (intros Hin; apply (Hdisj k Hin); left).
        rewrite map_app. simpl. rewrite <- app_assoc. simpl.
        apply NoDup_app. split; [exact Hfields |]. split.
        -- intros y Hy. apply Hdisj. exact Hy.
        -- apply NoDup_cons. split; assumption.
    + apply IH; [exact Hrest |].
      apply NoDup_app. split; [exact Hfields |]. split; [| exact Hkeys].
      intros y Hy Hin. apply (Hdisj y Hy). now right.
Qed.

Lemma forEntries_assigned {A B} (body : A -> Result (option B)) entries :
  forallb (fun kv => returns (body (snd kv))) entries = true ->
  NoDup (map fst entries) ->
  forEntries body entries [] = Return (assigned body entries).
Proof. intros Hret Hnodup. now rewrite (forEntries_fresh _ _ [] Hret). Qed.


Lemma fromFirestoreValue_assigns v o :
  fromFirestoreValue v = Return o -> (recognized v = true <-> is_Some o).
Proof.
  destruct v as [| s | digits | n | b | iso | values | fields | | | tag]; simpl; intros H;
    try discriminate;
    try (injection H as <-; split; [eauto | reflexivity]).
  - destruct (mapM _ values); simpl in H; [| discriminate].
    injection H as <-. split; eauto.
  - destruct (forEntries fromFirestoreValue fields []); simpl in H; [| discriminate].
    injection H as <-. split; eauto.
  - injection H as <-. split; [discriminate | intros [? ?]; discriminate].
Qed.

Lemma assigned_keys {A B} (body : A -> Result (option B)) (keep : A -> bool) entries :
  (forall v o, body v = Return o -> (keep v = true <-> is_Some o)) ->
  forallb (fun kv => returns (body (snd kv))) entries = true ->
  map fst (assigned body entries)
  = map fst (filter (fun kv => keep (snd kv) = true) entries).
Proof.
  intros Hkeep. induction entries as [| [k v] rest IH]; intros Hret; [reflexivity |].
  simpl in Hret. apply andb_true_iff in Hret as [Hv Hrest].
  unfold assigned in *. simpl. rewrite filter_cons. simpl.
  destruct (body v) as [o | e] eqn:E; [| discriminate].
  specialize (Hkeep v o E). simpl.
  destruct o as [x |]; case_decide as Hk.
  - simpl. f_equal. now apply IH.
  - exfalso. apply Hk, Hkeep. eauto.
  - apply Hkeep in Hk as [? ?]. discriminate.
  - now apply IH.
Qed.

(** An error of a loop is an error of its body on one of the entries. *)
Lemma mapM_throws {A B} (f : A -> Result B) items e :
  mapM f items = Throw e -> exists item, item ∈ items /\ f item = Throw e.
Proof.
  induction items as [| x xs IH]; simpl; [discriminate |].
  destruct (f x) as [y | e0] eqn:E.
  - destruct (mapM f xs) as [ys | e1]; [discriminate |].
    intros H. injection H as ->. destruct (IH eq_refl) as (item & Hin & Hitem).
    exists item. split; [now right | exact Hitem].
  - intros H. injection H as ->. exists x. split; [left | exact E].
Qed.

Lemma forEntries_throws {A B} (body : A -> Result (option B)) entries e :
  forall fields,
    forEntries body entries fields = Throw e ->
    exists kv, kv ∈ entries /\ body (snd kv) = Throw e.
Proof.
  induction entries as [| [k v] rest IH]; intros fields; simpl; [discriminate |].
  destruct (body v) as [[x |] | e0] eqn:E.
  - intros H. destruct (IH _ H) as (kv & Hin & Hkv). exists kv. split; [now right | exact Hkv].
  - intros H. destruct (IH _ H) as (kv & Hin & Hkv). exists kv. split; [now right | exact Hkv].
  - intros H. injection H as ->. exists (k, v). split; [left | exact E].
Qed.

Lemma bind_throws {A B} (r : Result A) (k : A -> Result B) e :
  (forall a, returns (k a) = true) -> bind r k = Throw e -> r = Throw e.
Proof.
  intros Hk. destruct r as [a | e0]; simpl.
  - specialize (Hk a). intros H. rewrite H in Hk. discriminate Hk.
  - intros H. now injection H as ->.
Qed.

(** Every error of the decoder is a TypeError of the engine. *)
Lemma fromFirestoreValue_throws v e :
  fromFirestoreValue v = Throw e -> err_class e = TypeError.
Proof.
  revert e.
  induction v as [| s | digits | n | b | iso | values IH | fields IH | | | tag]
    using Value_nested_ind; intros e; try discriminate.
  - rewrite fromFirestoreValue_array.
    destruct (mapM fromFirestoreItem values) as [items | e0] eqn:E; [discriminate |].
    intros H. injection H as ->.
    apply mapM_throws in E as (item & Hin & Hitem).
    rewrite Forall_forall in IH. specialize (IH item Hin).
    destruct item as [x |]; [| injection Hitem as <-; reflexivity].
    apply IH.
    destruct x; cbn [fromFirestoreItem] in Hitem; try discriminate Hitem;
      try (apply bind_throws in Hitem; [exact Hitem | reflexivity]).
    cbn [fromFirestoreValue]. now rewrite Hitem.
  - simpl. unfold asObject.
    destruct (forEntries fromFirestoreValue fields []) as [props | e0] eqn:E;
      [discriminate |].
    intros H. injection H as ->.
    apply forEntries_throws in E as (kv & Hin & Hkv).
    rewrite Forall_forall in IH. exact (IH kv Hin e Hkv).
  - intros H. injection H as <-. reflexivity.
  - intros H. injection H as <-. reflexivity.
Qed.

(** C9, as amended: the decoder recognizes the eight tags and recurses
    into arrays and maps; a value under any other tag raises no error.  In
    a field set its key is left out of the decoded object, and in an array
    it decodes to undefined.  The decoder throws exactly when an array is
    without values or holds an undefined entry, or a map is without
    fields, whatever the tags; what it throws is a TypeError of the
    engine, not an error of the retryable class. *)
Theorem decoder_skips_unrecognized_tags :
  (fromFirestoreValue nullValue = Return (Some JsNull)
   /\ (forall s, fromFirestoreValue (stringValue s) = Return (Some (JsStr s)))
   /\ (forall z,
         Z.abs z <= 9007199254740991 ->
         fromFirestoreValue (integerValue (toString z)) = Return (Some (JsNum (Integer z))))
   /\ (forall n, fromFirestoreValue (doubleValue n) = Return (Some (JsNum n)))
   /\ (forall b, fromFirestoreValue (booleanValue b) = Return (Some (JsBool b)))
   /\ (forall t iso,
         Z.abs t <= maxTime ->
         toISOString (Some t) = Return iso ->
         fromFirestoreValue (timestampValue iso) = Return (Some (JsDate (Some t))))
   /\ (forall values,
         fromFirestoreValue (arrayValue values)
         = bind (mapM fromFirestoreItem values) (fun items => Return (Some (JsArray items))))
   /\ (forall fields,
         fromFirestoreValue (mapValue fields)
         = bind (convertFromFirestoreFields fields) (fun obj => Return (Some obj))))
  /\ (forall tag, fromFirestoreValue (otherValue tag) = Return None)
  /\ (forall tag, fromFirestoreItem (Some (otherValue tag)) = Return JsUndefined)
  /\ (forall fields,
        returns (convertFromFirestoreFields fields)
        = forallb (fun kv => complete (snd kv)) fields)
  /\ (forall fields e,
        convertFromFirestoreFields fields = Throw e ->
        err_class e = TypeError /\ instanceof e RetryableError = false)
  /\ (forall fields,
        NoDup (map fst fields) ->
        ordinary_fields fields = true ->
        forallb (fun kv => complete (snd kv)) fields = true ->
        exists props,
          convertFromFirestoreFields fields = Return (JsObject props)
          /\ map fst props
             = map fst (filter (fun kv => recognized (snd kv) = true) fields)).
Proof.
  split.
  { split; [reflexivity |]. split; [reflexivity |]. split.
    { intros z _. cbn [fromFirestoreValue]. now rewrite parseInt_toString. }
    split; [reflexivity |]. split; [reflexivity |]. split.
    { intros t iso Ht Hiso. cbn [fromFirestoreValue].
      destruct (Date_parse_toISOString t Ht) as (iso' & Hiso' & Hparse).
      rewrite Hiso' in Hiso. injection Hiso as <-. now rewrite Hparse. }
    split; reflexivity. }
  split; [reflexivity |]. split; [reflexivity |]. split; [| split].
  - intros fields. unfold convertFromFirestoreFields, asObject.
    rewrite returns_bind by reflexivity. rewrite returns_forEntries.
    apply forallb_pointwise. intros kv. apply fromFirestoreValue_returns.
  - intros fields e Hthrow.
    assert (Hclass : err_class e = TypeError).
    { apply (fromFirestoreValue_throws (mapValue fields)). simpl.
      unfold convertFromFirestoreFields in Hthrow. now rewrite Hthrow. }
    split; [exact Hclass |]. unfold instanceof. now rewrite Hclass.
  - intros fields Hnodup _ Hdefined.
    assert (Hret : forallb (fun kv => returns (fromFirestoreValue (snd kv))) fields = true).
    { rewrite <- Hdefined. apply forallb_pointwise. intros kv.
      apply fromFirestoreValue_returns. }
    exists (assigned fromFirestoreValue fields). split.
    + unfold convertFromFirestoreFields.
      rewrite (forEntries_fresh _ _ [] Hret) by exact Hnodup. reflexivity.
    + apply assigned_keys; [apply fromFirestoreValue_assigns | exact Hret].
Qed.

Lemma decoder_skips_unrecognized_tags_witness :
  exists props,
    convertFromFirestoreFields document_with_location = Return (JsObject props)
    /\ map fst props
       = map fst (filter (fun kv => recognized (snd kv) = true) document_with_location).
Proof.
  apply (proj2 (proj2 (proj2 (proj2 (proj2 decoder_skips_unrecognized_tags))))).
  - by_evaluation.
  - reflexivity.
  - reflexivity.
Defined.

(** C9, counterexample: decoding a document with a field under a tag that
    the decoder does not test returns an object, without that field. *)
Lemma decoder_returns_on_unrecognized_tag :
  convertFromFirestoreFields document_with_location
  = Return (JsObject [("name", JsStr "Kyoto")]).
Proof. reflexivity. Qed.

Lemma convertToFirestoreFields_returns props :
  returns (convertToFirestoreFields (JsObject props)) = dates_valid (JsObject props).
Proof.
  unfold convertToFirestoreFields. simpl. rewrite returns_forEntries.
  apply forallb_pointwise. intros kv. apply toFirestoreValue_returns.
Qed.












(** ** The store client (firestore.js) *)








Lemma lookup_prop_None {A} (o : list (string * A)) k :
  k ∉ map fst o -> lookup_prop o k = None.
Proof.
  induction o as [| [k' x] rest IH]; intros Hk; simpl; [reflexivity |].
  simpl in Hk. apply not_elem_of_cons in Hk as [Hne Hk].
  destruct (String.eqb_spec k' k); [congruence | auto].
Qed.

Lemma assigned_cons {A B} (body : A -> Result (option B)) k v rest :
  assigned body ((k, v) :: rest)
  = match result_of (body v) with
    | Some x => (k, x) :: assigned body rest
    | None => assigned body rest
    end.
Proof. unfold assigned. simpl. destruct (result_of (body v)); reflexivity. Qed.

Lemma lookup_assigned {A B} (body : A -> Result (option B)) entries k :
  NoDup (map fst entries) ->
  lookup_prop (assigned body entries) k
  = match lookup_prop entries k with
    | Some v => result_of (body v)
    | None => None
    end.
Proof.
  induction entries as [| [k' v] rest IH]; intros Hnodup; [reflexivity |].
  simpl in Hnodup. apply NoDup_cons in Hnodup as [Hk' Hrest].
  specialize (IH Hrest). rewrite assigned_cons.
  destruct (result_of (body v)) as [x |] eqn:E; cbn [lookup_prop];
    destruct (String.eqb_spec k' k) as [-> | Hne]; auto.
  rewrite IH, (lookup_prop_None rest k Hk'). congruence.
Qed.

(** What the world looks like after a [fetch]. *)
Lemma fetch_documents w r w' :
  Platform.fetch w = (r, w') ->
  documents w' = documents w /\ clock w' = clock w /\ console w' = console w
  /\ network w' = tail (network w).
Proof.
  unfold Platform.fetch. destruct (network w) as [| [response |] rest] eqn:E;
    intros H; injection H as <- <-; simpl; rewrite ?E; auto.
Qed.

(** What an update does, by the next answer of the network: the store
    applies the request exactly when the answer has a success status, and
    the update returns exactly when the body of that answer is JSON. *)
Lemma updateDocument_outcome JSON_parse collection docId data request w :
  updateRequest collection docId data = Return request ->
  updateDocument JSON_parse collection docId data w
  = match network w with
    | Some response :: rest =>
        if ok response then
          (json JSON_parse response,
           with_documents (store_apply request (documents w)) (with_network rest w))
        else
          (Throw (mkError Error ("Firestore update error: " +:+ status_text response)),
           console_error "Firestore update error:" (with_network rest w))
    | None :: rest => (Throw (mkError TypeError "fetch failed"), with_network rest w)
    | [] => (Throw (mkError TypeError "fetch failed"), w)
    end.
Proof.
  intros Hrequest. unfold updateDocument, store_fetch, Platform.fetch. rewrite Hrequest.
  destruct (network w) as [| [response |] rest]; try reflexivity.
  destruct (ok response); reflexivity.
Qed.


(** An update that throws has left the store as it was, unless the store
    applied it and answered with a body that is not JSON. *)
Lemma updateDocument_throws JSON_parse collection docId data w e w' :
  updateDocument JSON_parse collection docId data w = (Throw e, w') ->
  clock w' = clock w
  /\ (documents w' = documents w
      \/ exists request response rest,
           updateRequest collection docId data = Return request
           /\ network w = Some response :: rest
           /\ ok response = true
           /\ JSON_parse (text response) = None
           /\ documents w' = store_apply request (documents w)).
Proof.
  destruct (updateRequest collection docId data) as [request | e0] eqn:Hrequest.
  - rewrite (updateDocument_outcome _ _ _ _ _ _ Hrequest).
    destruct (network w) as [| [response |] rest] eqn:Hnetwork;
      try (intros H; injection H as _ <-; auto).
    destruct (ok response) eqn:Hok; intros H; injection H as Hjson <-; [| auto].
    split; [reflexivity |]. right. exists request, response, rest.
    unfold json in Hjson. destruct (JSON_parse (text response)); [discriminate | auto].
  - unfold updateDocument. rewrite Hrequest. intros H. injection H as _ <-. auto.
Qed.


Section ClientFacts.
Variable JSON_parse : string -> option JsValue.


End ClientFacts.



(** ** The generation client (llm.js) *)

Section GenerationFacts.
Variable JSON_parse : string -> option JsValue.
Variable ZodError_message : list Issue -> string.

(** A failure of the first call that is not of the retryable class ends
    [generateItinerary] at once: one call, no wait. *)
Lemma generateItinerary_fatal w e :
  fst (generateFn JSON_parse ZodError_message w) = Throw e ->
  instanceof e RetryableError = false ->
  generateItinerary JSON_parse ZodError_message w = (Throw e, snd (generateFn JSON_parse ZodError_message w)).
Proof.
  intros Hthrow Hfatal. unfold generateItinerary, retryWithBackoff. simpl.
  destruct (generateFn JSON_parse ZodError_message w) as [r w']. simpl in *. subst r.
  now rewrite Hfatal.
Qed.

(** A failure of the first call that is of the retryable class is
    followed by a wait of 2000 ms and the remaining attempts, from attempt
    number 1 on. *)
Lemma generateItinerary_retried w e w' :
  generateFn JSON_parse ZodError_message w = (Throw e, w') ->
  instanceof e RetryableError = true ->
  generateItinerary JSON_parse ZodError_message w
  = retryLoop sleep (generateFn JSON_parse ZodError_message) 3 2000 RetryableError 3 1
      (sleep 2000 w').
Proof.
  intros Hthrow Hclass. unfold generateItinerary, retryWithBackoff.
  change (Z.to_nat (3 + 1)) with 4%nat. cbn [retryLoop].
  rewrite Hthrow, Hclass. reflexivity.
Qed.

(** C6: what [generateItinerary] does with the first answer of the
    generative service.  The first call fails with an error of the
    retryable class, and is made again 2000 ms later with the outcome of
    the remaining attempts, on a 429 or a status of 500 and more, on
    content without [ or without ], on a bracketed part that does not
    parse, and on a parsed value that fails validation, whose error
    message carries the message of the validation error.  Any other status
    outside 200..299, and an answer without the expected content, is
    fatal: generation ends with that error at the first call, without
    waiting. *)
Theorem generation_failure_classes (response : HttpResponse)
    (rest : list (option HttpResponse)) (w0 : World) :
  network w0 = Some response :: rest ->
  let generate := generateItinerary JSON_parse ZodError_message in
  let w := with_network rest w0 in
  let retried (e : JsError) (line : string) :=
    generateFn JSON_parse ZodError_message w0 = (Throw e, console_error line w)
    /\ instanceof e RetryableError = true
    /\ generate w0
       = retryLoop sleep (generateFn JSON_parse ZodError_message) 3 2000 RetryableError 3 1
           (sleep 2000 (console_error line w)) in
  (status response = 429 \/ 500 <= status response ->
   retried (mkError RetryableError ("OpenAI service error: " +:+ toString (status response)))
     "OpenAI API error:")
  /\ (ok response = false -> status response <> 429 -> status response < 500 ->
      generate w0
      = (Throw (mkError Error
                  ("OpenAI API error: " +:+ toString (status response) +:+ " - "
                   +:+ text response)),
         console_error "OpenAI API error:" w))
  /\ (ok response = true ->
      (forall c s,
          bind (json JSON_parse response) content_of <> Return (JsStr (String c s))) ->
      exists e, instanceof e RetryableError = false /\ generate w0 = (Throw e, w))
  /\ (forall c s,
        ok response = true ->
        bind (json JSON_parse response) content_of = Return (JsStr (String c s)) ->
        let content := String c s in
        let jsonString :=
          substring content (indexOf "[" content) (lastIndexOf "]" content + 1) in
        (indexOf "[" content = -1 \/ lastIndexOf "]" content = -1 ->
         retried (mkError RetryableError "LLM response did not contain a valid JSON array.")
           "Could not find JSON array in LLM response:")
        /\ (indexOf "[" content <> -1 -> lastIndexOf "]" content <> -1 ->
            JSON_parse jsonString = None ->
            retried
              (mkError RetryableError "LLM returned invalid JSON format even after cleaning.")
              "Failed to parse the cleaned JSON string:")
        /\ (forall itinerary issues,
              indexOf "[" content <> -1 -> lastIndexOf "]" content <> -1 ->
              JSON_parse jsonString = Some itinerary ->
              safeParse ItinerarySchema itinerary = inr issues ->
              retried
                (mkError RetryableError
                   ("Generated itinerary doesn't match required format: "
                    +:+ ZodError_message issues))
                "Itinerary validation failed:")).
Proof.
  intros Hnetwork generate w retried.
  assert (Hgen : generateFn JSON_parse ZodError_message w0
                 = readResponse JSON_parse ZodError_message response w).
  { unfold generateFn, Platform.fetch. now rewrite Hnetwork. }
  assert (Hretried : forall e line,
            readResponse JSON_parse ZodError_message response w
            = (Throw e, console_error line w) ->
            instanceof e RetryableError = true -> retried e line).
  { intros e line Hread Hclass. unfold retried. rewrite Hgen.
    split; [exact Hread |]. split; [exact Hclass |].
    apply (generateItinerary_retried w0 e); [| exact Hclass]. now rewrite Hgen. }
  assert (Hfatal : forall e w1,
            readResponse JSON_parse ZodError_message response w = (Throw e, w1) ->
            instanceof e RetryableError = false -> generate w0 = (Throw e, w1)).
  { intros e w1 Hread Hclass. unfold generate.
    rewrite (generateItinerary_fatal w0 e); rewrite ?Hgen, ?Hread; auto. }
  split; [| split; [| split]].
  - intros Hstatus. apply Hretried; [| reflexivity].
    assert (Hok : ok response = false).
    { unfold ok. destruct Hstatus as [-> | H]; [reflexivity |].
      apply andb_false_iff. right. apply Z.leb_gt. lia. }
    assert (Hclass : (status response =? 429) || (500 <=? status response) = true).
    { apply orb_true_iff. destruct Hstatus as [-> | H]; [now left |].
      right. apply Z.leb_le. exact H. }
    unfold readResponse. rewrite Hok. cbn [negb]. now rewrite Hclass.
  - intros Hok H429 H500. apply Hfatal; [| reflexivity].
    assert (Hclass : (status response =? 429) || (500 <=? status response) = false).
    { apply orb_false_iff. split; [apply Z.eqb_neq; exact H429 | apply Z.leb_gt; exact H500]. }
    unfold readResponse. rewrite Hok. cbn [negb]. now rewrite Hclass.
  - intros Hok Habsent.
    assert (Hread : exists e,
               instanceof e RetryableError = false
               /\ readResponse JSON_parse ZodError_message response w = (Throw e, w)).
    { unfold readResponse. rewrite Hok. cbn [negb].
      destruct (bind (json JSON_parse response) content_of) as [content | e] eqn:E.
      - destruct content as [| | | | [| c s] | | | |];
          try (eexists; split; [| reflexivity]; reflexivity).
        exfalso. now apply (Habsent c s).
      - exists e. split; [| reflexivity].
        unfold json in E. destruct (JSON_parse (text response)) as [data |]; simpl in E.
        + unfold content_of in E.
          destruct (get data "choices") as [choices | e1] eqn:E1; simpl in E;
            [| injection E as <-;
               destruct data; simpl in E1; try discriminate; injection E1 as <-;
               reflexivity].
          destruct (get choices "0") as [choice | e2] eqn:E2; simpl in E;
            [| injection E as <-;
               destruct choices; simpl in E2; try discriminate; injection E2 as <-;
               reflexivity].
          destruct (get_opt choice "message") as [msg | e3] eqn:E3; simpl in E;
            [| destruct choice; simpl in E3; discriminate].
          destruct (get_opt msg "content") as [content | e4] eqn:E4; simpl in E;
            [| destruct msg; simpl in E4; discriminate].
          destruct content; try discriminate; injection E as <-; reflexivity.
        + injection E as <-. reflexivity. }
    destruct Hread as (e & Hclass & Hread). exists e. split; [exact Hclass |].
    now apply Hfatal.
  - intros c s Hok Hcontent. cbv zeta.
    set (content := String c s).
    assert (Hread : readResponse JSON_parse ZodError_message response w
                    = let startIndex := indexOf "[" content in
                      let endIndex := lastIndexOf "]" content in
                      if (startIndex =? -1) || (endIndex =? -1) then
                        (Throw (mkError RetryableError
                                  "LLM response did not contain a valid JSON array."),
                         console_error "Could not find JSON array in LLM response:" w)
                      else
                        read_array JSON_parse ZodError_message
                          (substring content startIndex (endIndex + 1)) w).
    { unfold readResponse. rewrite Hok, Hcontent. reflexivity. }
    cbv zeta in Hread.
    split; [| split].
    + intros Habsent. apply Hretried; [| reflexivity].
      assert (H : (indexOf "[" content =? -1) || (lastIndexOf "]" content =? -1) = true).
      { apply orb_true_iff. destruct Habsent as [-> | ->]; auto. }
      now rewrite Hread, H.
    + intros Hopen Hclose Hparse. apply Hretried; [| reflexivity].
      assert (H : (indexOf "[" content =? -1) || (lastIndexOf "]" content =? -1) = false).
      { apply orb_false_iff. split; apply Z.eqb_neq; assumption. }
      rewrite Hread, H. unfold read_array. now rewrite Hparse.
    + intros itinerary issues Hopen Hclose Hparse Hinvalid.
      apply Hretried; [| reflexivity].
      assert (H : (indexOf "[" content =? -1) || (lastIndexOf "]" content =? -1) = false).
      { apply orb_false_iff. split; apply Z.eqb_neq; assumption. }
      rewrite Hread, H. unfold read_array, parse. now rewrite Hparse, Hinvalid.
Qed.

End GenerationFacts.

Lemma generation_failure_classes_witness :
  generateItinerary table_parse table_message
    (quiet_world [Some (mkResponse 503 "busy"); Some (mkResponse 200 "one slot")])
  = (Return (Some (JsArray [morning_only_day])),
     sleep 2000 (console_error "OpenAI API error:" (quiet_world []))).
Proof.
  destruct (generation_failure_classes table_parse table_message (mkResponse 503 "busy")
              [Some (mkResponse 200 "one slot")]
              (quiet_world [Some (mkResponse 503 "busy"); Some (mkResponse 200 "one slot")])
              eq_refl) as (Hbusy & _).
  destruct Hbusy as (_ & _ & ->); [right; simpl; lia |].
  vm_compute. reflexivity.
Defined.

(** ** Request validation (types.js, index.js) *)

Lemma integral_bounds n z :
  integral n = Some z ->
  forall bound, number_ltb n bound = (z <? bound) /\ number_gtb n bound = (bound <? z).
Proof.
  destruct n as [z' | m e | |]; simpl; try discriminate.
  - intros H bound. injection H as ->. split; reflexivity.
  - destruct (decide (m mod 2 ^ Z.pos e = 0)) as [Hmod |]; [| discriminate].
    intros H bound. injection H as <-.
    assert (Hpos : 0 < 2 ^ Z.pos e) by (apply Z.pow_pos_nonneg; lia).
    assert (Hm : m = 2 ^ Z.pos e * (m / 2 ^ Z.pos e)).
    { rewrite (Z.div_mod m (2 ^ Z.pos e)) at 1 by lia. lia. }
    set (q := m / 2 ^ Z.pos e) in *. set (p := 2 ^ Z.pos e) in *.
    split.
    + destruct (Z.ltb_spec m (bound * p)), (Z.ltb_spec q bound); try reflexivity; nia.
    + destruct (Z.ltb_spec (bound * p) m), (Z.ltb_spec bound q); try reflexivity; nia.
Qed.

Lemma accepts_duration (o : option JsValue) :
  accepts (z_number [int; min_ 1 "Duration must be at least 1 day";
                     max_ 30 "Duration cannot exceed 30 days"])
          (default JsUndefined o)
  = valid_duration o.
Proof.
  destruct o as [[| | | n | | | | |] |]; try reflexivity.
  assert (H : forallb (accepts_number n)
                [int; min_ 1 "Duration must be at least 1 day";
                 max_ 30 "Duration cannot exceed 30 days"]
              = valid_duration (Some (JsNum n))).
  { simpl. unfold Number_isInteger.
    destruct (integral n) as [z |] eqn:E; [| reflexivity].
    destruct (integral_bounds n z E 1) as [-> _].
    destruct (integral_bounds n z E 30) as [_ ->].
    rewrite andb_true_r. simpl.
    destruct (Z.ltb_spec z 1), (Z.leb_spec 1 z), (Z.ltb_spec 30 z), (Z.leb_spec z 30);
      try reflexivity; lia. }
  destruct n; exact H.
Qed.

Lemma accepts_request body : accepts RequestSchema body = valid_request body.
Proof.
  destruct body as [| | | | | | | props |]; try reflexivity.
  unfold RequestSchema, valid_request.
  change (accepts (z_object ?shape) (JsObject props))
    with (forallb (fun entry =>
            accepts (snd entry) (default JsUndefined (lookup_prop props (fst entry)))) shape).
  unfold forallb, fst, snd.
  now rewrite accepts_required_text, accepts_duration, andb_true_r.
Qed.

(** What validation returns on a valid request. *)
Lemma safeParse_request body :
  valid_request body = true ->
  exists destination n,
    safeParse RequestSchema body
    = inl (JsObject [("destination", JsStr destination); ("durationDays", JsNum n)]).
Proof.
  intros Hvalid.
  assert (Hissues : snd (parse_at RequestSchema [] body) = []).
  { apply parse_at_accepts. now rewrite accepts_request. }
  destruct body as [| | | | | | | props |]; try discriminate.
  unfold valid_request in Hvalid. apply andb_true_iff in Hvalid as [Hd Hn].
  destruct (lookup_prop props "destination") as [[| | | | [| c s] | | | |] |] eqn:Ed;
    try discriminate.
  destruct (lookup_prop props "durationDays") as [[| | | n | | | | |] |] eqn:En;
    try discriminate.
  exists (String c s), n. unfold safeParse.
  destruct (parse_at RequestSchema [] (JsObject props)) as [v issues] eqn:E.
  simpl in Hissues. subst issues.
  unfold RequestSchema in E. simpl in E. rewrite Ed, En in E. simpl in E.
  destruct n; simpl in E; injection E as <- _; reflexivity.
Qed.

Lemma safeParse_request_invalid body :
  valid_request body = false -> exists issues, safeParse RequestSchema body = inr issues.
Proof.
  intros Hinvalid. unfold safeParse.
  assert (H := parse_at_accepts RequestSchema [] body).
  rewrite accepts_request, Hinvalid in H.
  destruct (parse_at RequestSchema [] body) as [v [| issue issues]]; simpl in H.
  - destruct H as [H _]. discriminate H. reflexivity.
  - eauto.
Qed.

(** What a creation does, by the next answer of the network: the store
    holds the document exactly when the answer has a success status, and
    the creation returns exactly when the body of that answer is JSON. *)
Lemma createDocument_outcome JSON_parse collection docId data fields w :
  convertToFirestoreFields data = Return fields ->
  createDocument JSON_parse collection docId data w
  = match network w with
    | Some response :: rest =>
        if ok response then
          (json JSON_parse response,
           with_documents (<[document_path collection docId := fields]> (documents w))
             (with_network rest w))
        else
          (Throw (mkError Error ("Firestore create error: " +:+ status_text response)),
           console_error "Firestore create error:" (with_network rest w))
    | None :: rest => (Throw (mkError TypeError "fetch failed"), with_network rest w)
    | [] => (Throw (mkError TypeError "fetch failed"), w)
    end.
Proof.
  intros Hfields. unfold createDocument, store_fetch, Platform.fetch. rewrite Hfields.
  destruct (network w) as [| [response |] rest]; try reflexivity.
  destruct (ok response); reflexivity.
Qed.

Lemma createDocument_returns JSON_parse collection docId data w result w' :
  createDocument JSON_parse collection docId data w = (Return result, w') ->
  exists fields,
    convertToFirestoreFields data = Return fields
    /\ documents w' = <[document_path collection docId := fields]> (documents w).
Proof.
  destruct (convertToFirestoreFields data) as [fields | e] eqn:Hfields.
  - rewrite (createDocument_outcome _ _ _ _ _ _ Hfields).
    destruct (network w) as [| [response |] rest]; try discriminate.
    destruct (ok response); [| discriminate].
    intros H. injection H as _ <-. exists fields. auto.
  - unfold createDocument. rewrite Hfields. discriminate.
Qed.

(** The document of a new job is in progress, with nothing completed, no
    itinerary and no error, whatever the destination and the duration. *)
Lemma initialDocument_fresh destination durationDays w fields :
  convertToFirestoreFields (initialDocument destination durationDays w) = Return fields ->
  fresh_job fields.
Proof.
  unfold convertToFirestoreFields, initialDocument. cbn [Object_entries bind].
  set (entries := [("status", JsStr "processing"); ("destination", destination);
                   ("durationDays", durationDays); ("createdAt", Date_now w);
                   ("completedAt", JsNull); ("itinerary", JsNull); ("error", JsNull)]).
  intros Hfields.
  assert (Hret : forallb (fun kv => returns (toFirestoreValue (snd kv))) entries = true).
  { rewrite <- (returns_forEntries toFirestoreValue entries []). now rewrite Hfields. }
  assert (Hkeys : NoDup (map fst entries)) by by_evaluation.
  rewrite (forEntries_assigned _ _ Hret Hkeys) in Hfields.
  assert (Hassigned : fields = assigned toFirestoreValue entries) by congruence.
  rewrite Hassigned. unfold fresh_job, status_is.
  rewrite !lookup_assigned by exact Hkeys.
  repeat split.
Qed.

Section HandlerFacts.
Variable JSON_parse : string -> option JsValue.
Variable ZodError_message : list Issue -> string.

Lemma getAccessToken_documents key w :
  documents (snd (getAccessToken JSON_parse key w)) = documents w.
Proof.
  unfold getAccessToken, exchange.
  destruct key as [[| c key] |]; try reflexivity.
  destruct (JSON_parse (String c key)) as [serviceAccount |]; [| reflexivity].
  destruct (get serviceAccount "client_email"); [| reflexivity].
  destruct (signing w); [| reflexivity].
  destruct (Platform.fetch w) as [[response | e] w0] eqn:E;
    apply fetch_documents in E as (Hdocs & _); [| exact Hdocs].
  destruct (negb (ok response)); [exact Hdocs |].
  destruct (JSON_parse (text response)) as [data |]; [| exact Hdocs].
  destruct (get data "access_token"); exact Hdocs.
Qed.

(** A handler that hands a task to the platform has created the document
    of the job, in progress. *)
Lemma fetch_creates_job request env w response task w1 :
  Worker.fetch JSON_parse request env w = (response, Some task, w1) ->
  exists created,
    documents w1 !! document_path "itineraries" (jobId task) = Some created
    /\ fresh_job created /\ code response = 202.
Proof.
  unfold Worker.fetch.
  destruct (String.eqb (method request) "OPTIONS"); [discriminate |].
  destruct (negb (String.eqb (method request) "POST")); [discriminate |].
  unfold handlePost.
  destruct (validateEnvironment env); [| discriminate].
  destruct (JSON_parse (payload request)) as [requestBody |]; [| discriminate].
  destruct (safeParse RequestSchema requestBody) as [validated | issues]; [| discriminate].
  destruct (generateUUID w) as [id wu].
  destruct (getAccessToken JSON_parse (FIREBASE_SERVICE_ACCOUNT env) wu)
    as [[token | e] wt]; [| discriminate].
  destruct (createDocument JSON_parse "itineraries" id _ wt) as [[result | e] wc] eqn:Hcreate;
    [| discriminate].
  intros H. injection H as <- <- <-.
  apply createDocument_returns in Hcreate as (fields & Hfields & Hdocs).
  exists fields. simpl. rewrite Hdocs. split; [apply lookup_insert_eq |].
  split; [| reflexivity]. eapply initialDocument_fresh. exact Hfields.
Qed.

(** C7: the request schema accepts exactly an object with a non-empty
    [destination] text and an integral [durationDays] from 1 to 30, so 0
    and 31 are rejected, 1 and 30 accepted, and a non-integer duration or a
    missing or empty destination rejected.  On a body that is not JSON or
    is rejected, the handler answers with an error (400, or 500 when the
    environment is incomplete), hands no task to the platform and sends
    nothing to the store, whose documents stay as they were.  On an
    accepted body, when the token is obtained and the store answers the
    creation with a success status and a body that is JSON, the answer is
    202 with the job id and the document of the job exists, in
    progress. *)
Theorem createJob_validation :
  (forall body, returns (parse ZodError_message RequestSchema body) = valid_request body)
  /\ (forall (destination : string) (c : ascii) (rest : string),
        destination = String c rest ->
        let request n :=
          JsObject [("destination", JsStr destination); ("durationDays", JsNum n)] in
        valid_request (request (Integer 0)) = false
        /\ valid_request (request (Integer 31)) = false
        /\ valid_request (request (Integer 1)) = true
        /\ valid_request (request (Integer 30)) = true
        /\ (forall n, Number_isInteger n = false -> valid_request (request n) = false))
  /\ (forall durationDays,
        valid_request (JsObject [("durationDays", durationDays)]) = false
        /\ valid_request (JsObject [("destination", JsStr "");
                                    ("durationDays", durationDays)]) = false)
  /\ (forall request env w,
        method request = "POST" ->
        match JSON_parse (payload request) with
        | Some body => valid_request body = false
        | None => True
        end ->
        exists response w',
          Worker.fetch JSON_parse request env w = (response, None, w')
          /\ (code response = 400 \/ code response = 500)
          /\ documents w' = documents w
          /\ network w' = network w)
  /\ (forall request env w body token wt reply rest answer,
        method request = "POST" ->
        validateEnvironment env = Return () ->
        JSON_parse (payload request) = Some body ->
        valid_request body = true ->
        getAccessToken JSON_parse (FIREBASE_SERVICE_ACCOUNT env) (snd (generateUUID w))
        = (Return token, wt) ->
        network wt = Some reply :: rest ->
        ok reply = true ->
        JSON_parse (text reply) = Some answer ->
        exists task w' created,
          Worker.fetch JSON_parse request env w
          = (createSuccessResponse (JsObject [("jobId", JsStr (jobId task))]) 202,
             Some task, w')
          /\ jobId task = fst (generateUUID w)
          /\ get_prop body "destination" = Some (destination task)
          /\ get_prop body "durationDays" = Some (durationDays task)
          /\ documents w' !! document_path "itineraries" (jobId task) = Some created
          /\ fresh_job created).
Proof.
  split; [| split; [| split; [| split]]].
  - intros body. now rewrite parse_returns_accepts, accepts_request.
  - intros destination c rest -> request. subst request. cbn.
    repeat split. intros n Hn. unfold Number_isInteger in Hn.
    now destruct (integral n).
  - intros durationDays. split; reflexivity.
  - intros request env w Hmethod Hbody. unfold Worker.fetch.
    rewrite Hmethod. cbn [String.eqb Ascii.eqb Bool.eqb negb]. unfold handlePost.
    destruct (validateEnvironment env) as [[] | e].
    + destruct (JSON_parse (payload request)) as [body |].
      * destruct (safeParse_request_invalid body Hbody) as [issues ->].
        eexists _, _. split; [reflexivity |]. simpl. auto.
      * eexists _, _. split; [reflexivity |]. simpl. auto.
    + eexists _, _. split; [reflexivity |]. simpl. auto.
  - intros request env w body token wt reply rest answer
      Hmethod Henv Hjson Hvalid Htoken Hnetwork Hok Hanswer.
    destruct (safeParse_request body Hvalid) as (destination & n & Hparse).
    assert (Hfetch :
      Worker.fetch JSON_parse request env w
      = (createSuccessResponse (JsObject [("jobId", JsStr (fst (generateUUID w)))]) 202,
         Some (mkTask (fst (generateUUID w)) (JsStr destination) (JsNum n)),
         snd (createDocument JSON_parse "itineraries" (fst (generateUUID w))
                (initialDocument (JsStr destination) (JsNum n) wt) wt))).
    { unfold Worker.fetch. rewrite Hmethod.
      cbn [String.eqb Ascii.eqb Bool.eqb negb]. unfold handlePost.
      rewrite Henv, Hjson, Hparse.
      cbn [get_prop lookup_prop String.eqb Ascii.eqb Bool.eqb default from_option id].
      destruct (generateUUID w) as [id wu]. simpl in Htoken. rewrite Htoken. simpl fst.
      unfold createDocument.
      destruct (convertToFirestoreFields (initialDocument (JsStr destination) (JsNum n) wt))
        as [fields | e] eqn:Hfields.
      - unfold store_fetch, Platform.fetch, json. rewrite Hnetwork, Hok, Hanswer.
        reflexivity.
      - exfalso.
        assert (H := convertToFirestoreFields_returns
                      [("status", JsStr "processing"); ("destination", JsStr destination);
                       ("durationDays", JsNum n); ("createdAt", Date_now wt);
                       ("completedAt", JsNull); ("itinerary", JsNull); ("error", JsNull)]).
        unfold initialDocument in Hfields. rewrite Hfields in H. discriminate H. }
    destruct (fetch_creates_job _ _ _ _ _ _ Hfetch) as (created & Hcreated & Hfresh & _).
    exists (mkTask (fst (generateUUID w)) (JsStr destination) (JsNum n)),
      (snd (createDocument JSON_parse "itineraries" (fst (generateUUID w))
              (initialDocument (JsStr destination) (JsNum n) wt) wt)), created.
    split; [exact Hfetch |].
    cbn [jobId Worker.destination durationDays].
    split; [reflexivity |].
    assert (Hprops : parse_at RequestSchema [] body
                     = (JsObject [("destination", JsStr destination);
                                  ("durationDays", JsNum n)], [])).
    { unfold safeParse in Hparse.
      destruct (parse_at RequestSchema [] body) as [v [| issue issues]]; [| discriminate].
      now injection Hparse as ->. }
    destruct body as [| | | | | | | props |]; try discriminate.
    unfold RequestSchema in Hprops. simpl in Hprops.
    destruct (lookup_prop props "destination") as [[| | | | s | | | |] |] eqn:Ed;
      simpl in Hprops;
      destruct (lookup_prop props "durationDays") as [[| | | m | | | | |] |] eqn:En;
      simpl in Hprops; try discriminate;
      try (destruct m; discriminate).
    cbn [get_prop]. rewrite Ed, En.
    assert (s = destination /\ m = n) as [-> ->].
    { destruct m; simpl in Hprops; injection Hprops as -> ->; auto. }
    auto.
Qed.

End HandlerFacts.

Lemma createJob_validation_witness :
  (valid_request (JsObject [("destination", JsStr "Kyoto");
                            ("durationDays", JsNum (Integer 0))]) = false
   /\ valid_request (JsObject [("destination", JsStr "Kyoto");
                               ("durationDays", JsNum (Integer 30))]) = true)
  /\ (exists response w',
        Worker.fetch table_parse (mkRequest "POST" "too long") worker_env busy_then_fine
        = (response, None, w')
        /\ (code response = 400 \/ code response = 500)
        /\ documents w' = documents busy_then_fine
        /\ network w' = network busy_then_fine)
  /\ (exists task w' created,
        Worker.fetch table_parse (mkRequest "POST" "request") worker_env busy_then_fine
        = (createSuccessResponse (JsObject [("jobId", JsStr (jobId task))]) 202,
           Some task, w')
        /\ jobId task = "12345678-9abc-4def-8000-000000000000"
        /\ documents w' !! document_path "itineraries" (jobId task) = Some created
        /\ fresh_job created).
Proof.
  destruct (createJob_validation table_parse table_message) as (_ & Hbounds & _ & Hreject & Haccept).
  split; [| split].
  - destruct (Hbounds "Kyoto" "K"%char "yoto" eq_refl) as (H0 & _ & _ & H30 & _).
    split; assumption.
  - apply Hreject; [reflexivity |]. reflexivity.
  - destruct (Haccept (mkRequest "POST" "request") worker_env busy_then_fine
                (JsObject [("destination", JsStr "Kyoto, Japan");
                           ("durationDays", JsNum (Integer 4))])
                (JsStr "ya29.token")
                (snd (getAccessToken table_parse (Some "key")
                        (snd (generateUUID busy_then_fine))))
                (mkResponse 200 "{}")
                [Some (mkResponse 503 "overloaded"); Some (mkResponse 200 "one slot");
                 Some (mkResponse 200 "{}")]
                (JsObject []))
      as (task & w' & created & Hfetch & Hid & _ & _ & Hcreated & Hfresh);
      try reflexivity.
    exists task, w', created. split; [exact Hfetch |]. split; [| split; assumption].
    rewrite Hid. reflexivity.
Defined.

(** ** The background task (index.js) *)





Section BackgroundFacts.
Variable JSON_parse : string -> option JsValue.
Variable ZodError_message : list Issue -> string.

(** Generation reads the network, waits and logs; it leaves the store
    alone. *)
Lemma readResponse_documents response w :
  documents (snd (readResponse JSON_parse ZodError_message response w)) = documents w.
Proof.
  unfold readResponse. destruct (negb (ok response)).
  - destruct ((status response =? 429) || (500 <=? status response)); reflexivity.
  - destruct (bind (json JSON_parse response) content_of) as [content | e]; [| reflexivity].
    destruct content as [| | | | [| c rest] | | | |]; try reflexivity.
    destruct ((indexOf "[" (String c rest) =? -1) || (lastIndexOf "]" (String c rest) =? -1));
      [reflexivity |].
    destruct (JSON_parse _); [| reflexivity].
    destruct (parse ZodError_message ItinerarySchema _); reflexivity.
Qed.

Lemma generateFn_documents w :
  documents (snd (generateFn JSON_parse ZodError_message w)) = documents w.
Proof.
  unfold generateFn. destruct (Platform.fetch w) as [[response | e] w'] eqn:E;
    apply fetch_documents in E as (Hdocs & _); simpl; [| exact Hdocs].
  now rewrite readResponse_documents.
Qed.

Lemma retryLoop_documents maxRetries baseDelay cls n :
  forall attempt w,
    documents (snd (retryLoop sleep (generateFn JSON_parse ZodError_message) maxRetries baseDelay cls
                      n attempt w))
    = documents w.
Proof.
  induction n as [| n IH]; intros attempt w; simpl; [reflexivity |].
  pose proof (generateFn_documents w) as Hgen.
  destruct (generateFn JSON_parse ZodError_message w) as [[result | error] w']; simpl in *; [exact Hgen |].
  destruct (instanceof error cls && (attempt <? maxRetries)); [| exact Hgen].
  rewrite IH. exact Hgen.
Qed.

Lemma generateItinerary_documents w :
  documents (snd (generateItinerary JSON_parse ZodError_message w)) = documents w.
Proof. apply retryLoop_documents. Qed.

(** What generation returns has passed validation: it is an array. *)
Lemma parse_itinerary_array input validated :
  parse ZodError_message ItinerarySchema input = Return validated -> exists days, validated = JsArray days.
Proof.
  unfold parse, safeParse, ItinerarySchema.
  destruct input as [| | | | | | items | |]; try discriminate.
  cbn [parse_at]. destruct (parse_items _ _ _ _) as [vs issues].
  destruct (too_short [] (Some (1%nat, "At least one day is required")) (length items)
            ++ issues); [| discriminate].
  intros H. injection H as <-. eauto.
Qed.

Lemma readResponse_array response w validated w' :
  readResponse JSON_parse ZodError_message response w = (Return validated, w') ->
  exists days, validated = JsArray days.
Proof.
  unfold readResponse. destruct (negb (ok response)).
  - destruct ((status response =? 429) || (500 <=? status response)); discriminate.
  - destruct (bind (json JSON_parse response) content_of) as [content | e]; [| discriminate].
    destruct content as [| | | | [| c rest] | | | |]; try discriminate.
    destruct ((indexOf "[" (String c rest) =? -1) || (lastIndexOf "]" (String c rest) =? -1));
      [discriminate |].
    destruct (JSON_parse _) as [itinerary |]; [| discriminate].
    destruct (parse ZodError_message ItinerarySchema itinerary) as [v | e] eqn:E; [| discriminate].
    intros H. injection H as <- _. eapply parse_itinerary_array. exact E.
Qed.

Lemma retryLoop_array maxRetries baseDelay cls n :
  forall attempt w result w',
    retryLoop sleep (generateFn JSON_parse ZodError_message) maxRetries baseDelay cls n attempt w
    = (Return result, w') ->
    Z.of_nat n = maxRetries + 1 - attempt ->
    (0 < n)%nat ->
    exists days, result = Some (JsArray days).
Proof.
  induction n as [| n IH]; intros attempt w result w' Hloop Hn Hpos; [lia |].
  simpl in Hloop.
  destruct (generateFn JSON_parse ZodError_message w) as [[validated | error] w1] eqn:Hgen.
  - injection Hloop as <- _. unfold generateFn in Hgen.
    destruct (Platform.fetch w) as [[response | e] w0]; [| discriminate].
    apply readResponse_array in Hgen as [days ->]. eauto.
  - destruct (instanceof error cls); simpl in Hloop; [| discriminate].
    destruct (Z.ltb_spec attempt maxRetries) as [Hlt | Hge]; [| discriminate].
    eapply IH; [exact Hloop | lia | lia].
Qed.

Lemma generateItinerary_array w result w' :
  generateItinerary JSON_parse ZodError_message w = (Return result, w') ->
  exists days, result = Some (JsArray days).
Proof.
  intros H. eapply retryLoop_array; [exact H | reflexivity | simpl; lia].
Qed.























End BackgroundFacts.




(** ** Round trip of the codec *)

(** C2, at the failing input: a timestamp that is an item of a list is
    encoded as an empty map, because the branch for array items sends
    every object to the map encoding, and is decoded as an empty object.
    The same timestamp as a field of its own goes through the timestamp
    branch and comes back.  A list inside a list comes back as an object
    keyed by the indices. *)
Theorem round_trip_loses_timestamps_in_lists :
  convertToFirestoreFields visit_times = Return [("visits", arrayValue [Some (mapValue [])])]
  /\ round_trip visit_times = Return (JsObject [("visits", JsArray [JsObject []])])
  /\ round_trip visit_times <> Return visit_times
  /\ round_trip visit_time = Return visit_time
  /\ round_trip grid
     = Return (JsObject [("rows", JsArray [JsObject [("0", JsNum (Integer 1));
                                                     ("1", JsNum (Integer 2))]])]).
Proof.
  split; [vm_compute; reflexivity |]. split; [vm_compute; reflexivity |].
  split; [vm_compute; discriminate |].
  split; vm_compute; reflexivity.
Qed.

(** * Further properties *)

(** ** Retry with backoff, for any operation *)

Section RetryBounds.
Context {W A : Type}.
Variable sleep_ : Z -> W -> W.
Variable fn : W -> Result A * W.
Variables maxRetries baseDelay : Z.
Variable retryableError : ErrorClass.

Let probe (i : nat) (w : W) : Probe W :=
  mkProbe (world_at sleep_ fn baseDelay i w) i (baseDelay * geometric i).

(** The shape of every run: it ends at some invocation [k], after [k]
    retried failures, with the outcome of that invocation. *)
Lemma retryLoop_ends (w : W) (n : nat) :
  forall i : nat,
    Z.of_nat n = maxRetries + 1 - Z.of_nat i ->
    (0 < n)%nat ->
    exists k : nat,
      (i <= k)%nat /\ Z.of_nat k <= maxRetries
      /\ (forall j, (i <= j < k)%nat -> retried sleep_ fn baseDelay retryableError j w)
      /\ retryLoop (timing sleep_) (counting fn) maxRetries baseDelay retryableError
           n (Z.of_nat i) (probe i w)
         = (match outcome_at sleep_ fn baseDelay k w with
            | Return result => Return (Some result)
            | Throw error => Throw error
            end,
            mkProbe (snd (fn (world_at sleep_ fn baseDelay k w))) (S k)
                    (baseDelay * geometric k)).
Proof.
  induction n as [| n IH]; intros i Hn Hpos; [lia |].
  destruct (outcome_at sleep_ fn baseDelay i w) as [result | error] eqn:Hout.
  - exists i. split; [lia |]. split; [lia |]. split; [intros j Hj; lia |].
    rewrite Hout. unfold probe. simpl retryLoop. unfold counting at 1. simpl inner.
    unfold outcome_at in Hout.
    destruct (fn (world_at sleep_ fn baseDelay i w)) as [r w']. simpl in *. now subst r.
  - destruct (instanceof error retryableError && (Z.of_nat i <? maxRetries)) eqn:Hretry.
    + apply andb_true_iff in Hretry as [Hinst Hlt]. apply Z.ltb_lt in Hlt.
      assert (Hretried : retried sleep_ fn baseDelay retryableError i w)
        by (exists error; auto).
      destruct (IH (S i)) as (k & Hik & Hk & Hfail & Hrun); [lia | lia |].
      exists k. split; [lia |]. split; [exact Hk |]. split.
      * intros j Hj. destruct (decide (j = i)) as [-> | Hne]; [exact Hretried |].
        apply Hfail. lia.
      * rewrite <- Hrun.
        apply (retryLoop_round sleep_ fn maxRetries baseDelay retryableError n i w Hlt
                 Hretried).
    + exists i. split; [lia |]. split; [lia |]. split; [intros j Hj; lia |].
      rewrite Hout. unfold probe. simpl retryLoop. unfold counting at 1. simpl inner.
      unfold outcome_at in Hout.
      destruct (fn (world_at sleep_ fn baseDelay i w)) as [r w']. simpl in *. subst r.
      now rewrite Hretry.
Qed.

End RetryBounds.

(** X1: whatever the operation does, [retryWithBackoff] invokes it at
    least once and at most [maxRetries + 1] times; after [k + 1]
    invocations it has waited [baseDelay * (2^0 + ... + 2^(k-1))] in all,
    the first [k] invocations failed with a retryable error, and what it
    returns or throws is what the last invocation returned or threw.  It
    never returns undefined. *)
Theorem retryWithBackoff_bounds {W A : Type}
    (sleep_ : Z -> W -> W) (fn : W -> Result A * W)
    (maxRetries baseDelay : Z) (retryableError : ErrorClass) (w : W) :
  0 <= maxRetries ->
  exists k : nat,
    Z.of_nat k <= maxRetries
    /\ (forall j, (j < k)%nat -> retried sleep_ fn baseDelay retryableError j w)
    /\ retryWithBackoff (timing sleep_) (counting fn) maxRetries baseDelay retryableError
         (mkProbe w 0 0)
       = (match outcome_at sleep_ fn baseDelay k w with
          | Return result => Return (Some result)
          | Throw error => Throw error
          end,
          mkProbe (snd (fn (world_at sleep_ fn baseDelay k w))) (k + 1)
                  (baseDelay * geometric k)).
Proof.
  intros Hmax.
  destruct (retryLoop_ends sleep_ fn maxRetries baseDelay retryableError w
              (Z.to_nat (maxRetries + 1)) O) as (k & _ & Hk & Hfail & Hrun); [lia | lia |].
  exists k. split; [exact Hk |]. split; [intros j Hj; apply Hfail; lia |].
  unfold retryWithBackoff. replace (k + 1)%nat with (S k) by lia.
  rewrite <- Hrun. simpl. do 2 f_equal. lia.
Qed.

Lemma retryWithBackoff_bounds_witness :
  exists k : nat,
    Z.of_nat k <= 3
    /\ (forall j, (j < k)%nat -> retried no_sleep (flaky 2) 1000 RetryableError j 0%nat)
    /\ retryWithBackoff (timing no_sleep) (counting (flaky 2)) 3 1000 RetryableError
         (mkProbe 0%nat 0%nat 0)
       = (match outcome_at no_sleep (flaky 2) 1000 k 0%nat with
          | Return result => Return (Some result)
          | Throw error => Throw error
          end,
          mkProbe (snd (flaky 2 (world_at no_sleep (flaky 2) 1000 k 0%nat))) (k + 1)
                  (1000 * geometric k)).
Proof.
  apply (retryWithBackoff_bounds no_sleep (flaky 2) 3 1000 RetryableError 0%nat). lia.
Defined.

(** X2: with a negative [maxRetries] the loop body never runs: the
    operation is not invoked, nothing is waited and the result is
    undefined. *)
Theorem retryWithBackoff_negative_budget {W A : Type}
    (sleep_ : Z -> W -> W) (fn : W -> Result A * W)
    (maxRetries baseDelay : Z) (retryableError : ErrorClass) (w : W) :
  maxRetries < 0 ->
  retryWithBackoff sleep_ fn maxRetries baseDelay retryableError w = (Return None, w).
Proof.
  intros Hneg. unfold retryWithBackoff.
  replace (Z.to_nat (maxRetries + 1)) with O by lia. reflexivity.
Qed.

Lemma retryWithBackoff_negative_budget_witness :
  retryWithBackoff no_sleep broken (-1) 1000 RetryableError 0%nat = (Return None, 0%nat).
Proof.
  apply (retryWithBackoff_negative_budget no_sleep broken (-1) 1000 RetryableError 0%nat).
  lia.
Defined.

(** ** What validation returns *)

Lemma parse_items_length (parse : list string -> JsValue -> Parsed) at_ items :
  forall i, length (fst (parse_items parse at_ i items)) = length items.
Proof.
  induction items as [| item rest IH]; intros i; simpl; [reflexivity |].
  destruct (parse _ item) as [v issues].
  specialize (IH (S i)). destruct (parse_items parse at_ (S i) rest) as [vs more].
  simpl in *. now rewrite IH.
Qed.

Lemma parse_items_accepted (parse : list string -> JsValue -> Parsed) (Q : JsValue -> bool)
    at_ items :
  forall i,
    Forall (fun item => forall p, Q item = true -> Q (fst (parse p item)) = true) items ->
    forallb Q items = true ->
    forallb Q (fst (parse_items parse at_ i items)) = true.
Proof.
  induction items as [| item rest IH]; intros i Hall Hacc; simpl; [reflexivity |].
  inversion Hall as [| ? ? Hitem Hrest]; subst.
  simpl in Hacc. apply andb_true_iff in Hacc as [Hq Hqs].
  specialize (Hitem (at_ ++ [decimal (Z.of_nat i)]) Hq).
  destruct (parse _ item) as [v issues].
  specialize (IH (S i) Hrest Hqs). destruct (parse_items parse at_ (S i) rest) as [vs more].
  simpl in *. now rewrite Hitem, IH.
Qed.

Lemma parse_shape_keys (parse : Schema -> list string -> JsValue -> Parsed) at_ props shape :
  map fst (fst (parse_shape parse at_ props shape)) = map fst shape.
Proof.
  induction shape as [| [key schema] rest IH]; simpl; [reflexivity |].
  destruct (parse schema _ _) as [v issues].
  destruct (parse_shape parse at_ props rest) as [vs more]. simpl in *. now rewrite IH.
Qed.

Lemma parse_shape_lookup (parse : Schema -> list string -> JsValue -> Parsed) at_ props shape :
  forall key schema,
    NoDup (map fst shape) ->
    (key, schema) ∈ shape ->
    lookup_prop (fst (parse_shape parse at_ props shape)) key
    = Some (fst (parse schema (at_ ++ [key])
                   (default JsUndefined (lookup_prop props key)))).
Proof.
  induction shape as [| [k s] rest IH]; intros key schema Hnodup Hin.
  - now apply elem_of_nil in Hin.
  - simpl in Hnodup. apply NoDup_cons in Hnodup as [Hk Hrest]. simpl.
    pose proof (parse_shape_keys parse at_ props rest) as Hkeys.
    destruct (parse s (at_ ++ [k]) (default JsUndefined (lookup_prop props k)))
      as [v issues] eqn:E.
    destruct (parse_shape parse at_ props rest) as [vs more] eqn:Erest.
    simpl in *. apply elem_of_cons in Hin as [Heq | Hin].
    + injection Heq as -> ->. rewrite String.eqb_refl, E. reflexivity.
    + destruct (String.eqb_spec k key) as [-> | Hne].
      * exfalso. apply Hk. apply list_elem_of_fmap. exists (key, schema). auto.
      * exact (IH key schema Hrest Hin).
Qed.

(** Parsing is idempotent on what it accepts: the value it builds is
    accepted in turn. *)
Lemma parse_at_accepted schema :
  distinct_keys schema = true ->
  forall at_ input,
    accepts schema input = true -> accepts schema (fst (parse_at schema at_ input)) = true.
Proof.
  induction schema as [min | checks | values | element min IH | shape IH]
    using Schema_nested_ind; intros Hkeys at_ input Hacc.
  - destruct input; try discriminate. exact Hacc.
  - destruct input as [| | | n | | | | |]; try discriminate. destruct n; exact Hacc.
  - destruct input; try discriminate. exact Hacc.
  - destruct input as [| | | | | | items | |]; try discriminate.
    cbn [accepts] in Hacc. apply andb_true_iff in Hacc as [Hlen Hitems].
    cbn [parse_at].
    pose proof (parse_items_length (parse_at element) at_ items O) as Hlength.
    pose proof (parse_items_accepted (parse_at element) (accepts element) at_ items O)
      as Hparsed.
    destruct (parse_items (parse_at element) at_ 0 items) as [vs issues].
    simpl in *. rewrite Hlength, Hlen. simpl. apply Hparsed; [| exact Hitems].
    apply Forall_forall. intros item _ p. now apply IH.
  - destruct input as [| | | | | | | props |]; try discriminate.
    cbn [accepts] in Hacc. cbn [distinct_keys] in Hkeys.
    apply andb_true_iff in Hkeys as [Hnodup Hsub]. apply bool_decide_eq_true in Hnodup.
    cbn [parse_at].
    pose proof (parse_shape_lookup parse_at at_ props shape) as Hlookup.
    destruct (parse_shape parse_at at_ props shape) as [vs issues]. simpl in *.
    apply forallb_forall. intros [key schema] Hin. simpl.
    apply list_elem_of_In in Hin.
    rewrite (Hlookup key schema Hnodup Hin). simpl.
    assert (Hschema : distinct_keys schema = true).
    { rewrite forallb_forall in Hsub. apply (Hsub (key, schema)).
      now apply list_elem_of_In. }
    rewrite Forall_forall in IH. apply (IH (key, schema) Hin Hschema).
    rewrite forallb_forall in Hacc. apply (Hacc (key, schema)). now apply list_elem_of_In.
Qed.

Lemma parse_accepted (ZodError_message : list Issue -> string) schema input validated :
  distinct_keys schema = true ->
  parse ZodError_message schema input = Return validated ->
  accepts schema validated = true.
Proof.
  intros Hkeys Hparse.
  assert (Hacc : accepts schema input = true).
  { rewrite <- (parse_returns_accepts ZodError_message). now rewrite Hparse. }
  pose proof (parse_at_accepted schema Hkeys [] input Hacc) as H.
  unfold parse, safeParse in Hparse.
  destruct (parse_at schema [] input) as [v [| i l]]; [| discriminate].
  injection Hparse as <-. exact H.
Qed.

Section GenerationBudget.
Variable JSON_parse : string -> option JsValue.
Variable ZodError_message : list Issue -> string.

Lemma readResponse_quiet response w :
  clock (snd (readResponse JSON_parse ZodError_message response w)) = clock w
  /\ network (snd (readResponse JSON_parse ZodError_message response w)) = network w.
Proof.
  unfold readResponse. destruct (negb (ok response)).
  - destruct ((status response =? 429) || (500 <=? status response)); split; reflexivity.
  - destruct (bind (json JSON_parse response) content_of) as [content | e];
      [| split; reflexivity].
    destruct content as [| | | | [| c rest] | | | |]; try (split; reflexivity).
    destruct ((indexOf "[" (String c rest) =? -1) || (lastIndexOf "]" (String c rest) =? -1));
      [split; reflexivity |].
    destruct (JSON_parse _); [| split; reflexivity].
    destruct (parse ZodError_message ItinerarySchema _); split; reflexivity.
Qed.

Lemma generateFn_effect w :
  clock (snd (generateFn JSON_parse ZodError_message w)) = clock w
  /\ network (snd (generateFn JSON_parse ZodError_message w)) = tail (network w).
Proof.
  unfold generateFn. destruct (Platform.fetch w) as [[response | e] w'] eqn:E;
    apply fetch_documents in E as (_ & Hclock & _ & Hnetwork); simpl; [| auto].
  destruct (readResponse_quiet response w') as [-> ->]. auto.
Qed.

Lemma geometric_double k : geometric (S k) = 1 + 2 * geometric k.
Proof.
  induction k as [| k IH]; [reflexivity |].
  change (geometric (S (S k))) with (geometric (S k) + 2 ^ Z.of_nat (S k)).
  rewrite IH at 1. change (geometric (S k)) with (geometric k + 2 ^ Z.of_nat k).
  rewrite Nat2Z.inj_succ, Z.pow_succ_r by lia. lia.
Qed.

Lemma generation_loop_budget maxRetries baseDelay cls n :
  forall attempt w,
    0 <= attempt ->
    Z.of_nat n = maxRetries + 1 - attempt ->
    (0 < n)%nat ->
    exists k : nat,
      (1 <= k <= n)%nat
      /\ network (snd (retryLoop sleep (generateFn JSON_parse ZodError_message) maxRetries baseDelay cls
                         n attempt w))
         = drop k (network w)
      /\ clock (snd (retryLoop sleep (generateFn JSON_parse ZodError_message) maxRetries baseDelay cls
                       n attempt w))
         = clock w + baseDelay * 2 ^ attempt * geometric (k - 1).
Proof.
  induction n as [| n IH]; intros attempt w Hattempt Hn Hpos; [lia |].
  cbn [retryLoop].
  destruct (generateFn_effect w) as [Hclock Hnetwork].
  destruct (generateFn JSON_parse ZodError_message w) as [[result | error] w1]; simpl in Hclock, Hnetwork.
  - exists 1%nat. simpl. rewrite Hclock, Hnetwork. split; [lia |].
    split; [now destruct (network w) | lia].
  - destruct (instanceof error cls && (attempt <? maxRetries)) eqn:Hretry.
    + apply andb_true_iff in Hretry as [_ Hlt]. apply Z.ltb_lt in Hlt.
      destruct (IH (attempt + 1) (sleep (baseDelay * 2 ^ attempt) w1))
        as (k & Hk & Hnet & Hclk); [lia | lia | lia |].
      exists (S k). split; [lia |]. rewrite Hnet, Hclk. simpl network. simpl clock.
      rewrite Hclock, Hnetwork. split.
      * destruct (network w); simpl; [apply drop_nil | reflexivity].
      * replace (S k - 1)%nat with (S (k - 1)) by lia.
        rewrite geometric_double, Z.pow_add_r by lia. lia.
    + exists 1%nat. simpl. rewrite Hclock, Hnetwork. split; [lia |].
      split; [now destruct (network w) | lia].
Qed.

Lemma generateItinerary_cost (w : World) :
  exists k : nat,
    (1 <= k <= 4)%nat
    /\ network (snd (generateItinerary JSON_parse ZodError_message w)) = drop k (network w)
    /\ clock (snd (generateItinerary JSON_parse ZodError_message w)) = clock w + 2000 * geometric (k - 1).
Proof.
  destruct (generation_loop_budget 3 2000 RetryableError 4 0 w)
    as (k & Hk & Hnetwork & Hclock); [lia | reflexivity | lia |].
  exists k. split; [lia |]. split; [exact Hnetwork |].
  unfold generateItinerary, retryWithBackoff.
  change (Z.to_nat (3 + 1)) with 4%nat. rewrite Hclock. lia.
Qed.

Lemma geometric_bounds k : (k <= 3)%nat -> 0 <= geometric k <= 7.
Proof. intros Hk. destruct k as [| [| [| [| k]]]]; simpl; lia. Qed.

(** X3: one generation makes between one and four calls to the service
    and waits 2 s, 4 s and 8 s between them: after [k] calls the network
    has delivered [k] answers and the clock has advanced by
    [2000 * (2^0 + ... + 2^(k-2))], at most 14 s.  The store is not
    touched. *)
Theorem generateItinerary_budget (w : World) :
  exists k : nat,
    (1 <= k <= 4)%nat
    /\ network (snd (generateItinerary JSON_parse ZodError_message w)) = drop k (network w)
    /\ clock (snd (generateItinerary JSON_parse ZodError_message w)) = clock w + 2000 * geometric (k - 1)
    /\ clock (snd (generateItinerary JSON_parse ZodError_message w)) <= clock w + 14000
    /\ documents (snd (generateItinerary JSON_parse ZodError_message w)) = documents w.
Proof.
  destruct (generateItinerary_cost w) as (k & Hk & Hnetwork & Hclock).
  exists k. split; [exact Hk |]. split; [exact Hnetwork |]. split; [exact Hclock |]. split.
  - rewrite Hclock. pose proof (geometric_bounds (k - 1)). lia.
  - apply retryLoop_documents.
Qed.

(** X4: an itinerary that generation returns has passed validation and
    still passes it: it is a non-empty array of days, each with a positive
    integer [day], a non-empty [theme] and at least one activity with a
    known time slot, a description and a location. *)
Theorem generateItinerary_returns_valid (w : World) (result : option JsValue) (w' : World) :
  generateItinerary JSON_parse ZodError_message w = (Return result, w') ->
  exists days, result = Some (JsArray days) /\ valid_itinerary (JsArray days) = true.
Proof.
  intros Hgen.
  assert (Hloop : forall n attempt w0 r w1,
            retryLoop sleep (generateFn JSON_parse ZodError_message) 3 2000 RetryableError n attempt w0
            = (Return (Some r), w1) ->
            valid_itinerary r = true).
  { induction n as [| n IH]; intros attempt w0 r w1 Hloop; [discriminate |].
    cbn [retryLoop] in Hloop.
    destruct (generateFn JSON_parse ZodError_message w0) as [[validated | error] w2] eqn:Hfn.
    - injection Hloop as <- _. unfold generateFn in Hfn.
      destruct (Platform.fetch w0) as [[response | e] w3]; [| discriminate].
      unfold readResponse in Hfn. destruct (negb (ok response)).
      + destruct ((status response =? 429) || (500 <=? status response)); discriminate.
      + destruct (bind (json JSON_parse response) content_of) as [content | e];
          [| discriminate].
        destruct content as [| | | | [| c rest] | | | |]; try discriminate.
        destruct ((indexOf "[" (String c rest) =? -1)
                  || (lastIndexOf "]" (String c rest) =? -1)); [discriminate |].
        destruct (JSON_parse _) as [itinerary |]; [| discriminate].
        destruct (parse ZodError_message ItinerarySchema itinerary) as [v | e] eqn:E; [| discriminate].
        injection Hfn as <- _. rewrite <- accepts_itinerary.
        eapply parse_accepted; [reflexivity | exact E].
    - destruct (instanceof error RetryableError && (attempt <? 3)); [| discriminate].
      eapply IH. exact Hloop. }
  destruct (generateItinerary_array JSON_parse ZodError_message _ _ _ Hgen) as [days ->].
  exists days. split; [reflexivity |]. eapply Hloop. exact Hgen.
Qed.

End GenerationBudget.

Lemma generateItinerary_returns_valid_witness :
  exists days,
    fst (generateItinerary table_parse table_message
           (quiet_world [Some (mkResponse 503 "overloaded");
                         Some (mkResponse 200 "one slot")]))
    = Return (Some (JsArray days))
    /\ valid_itinerary (JsArray days) = true.
Proof.
  destruct (generateItinerary table_parse table_message
              (quiet_world [Some (mkResponse 503 "overloaded");
                            Some (mkResponse 200 "one slot")])) as [r w'] eqn:Hgen.
  assert (Hr : exists result, r = Return result).
  { vm_compute in Hgen. injection Hgen as <- _. eauto. }
  destruct Hr as [result ->].
  destruct (generateItinerary_returns_valid table_parse table_message _ _ _ Hgen) as (days & -> & Hvalid).
  exists days. split; [reflexivity | exact Hvalid].
Defined.

(** ** The request handler *)

Section HandlerExtras.
Variable JSON_parse : string -> option JsValue.
Variable ZodError_message : list Issue -> string.



Lemma createErrorResponse_headers msg status details :
  headers (createErrorResponse msg status details)
  = ("Content-Type", "application/json") :: getCorsHeaders.
Proof. unfold createErrorResponse. now destruct (falsy details). Qed.

(** X5: every response of the handler, on every path, carries the three
    cross-origin headers. *)
Theorem every_response_has_cors_headers (request : Request) (env : Env) (w : World) :
  forall header,
    header ∈ getCorsHeaders ->
    header ∈ headers (fst (fst (Worker.fetch JSON_parse request env w))).
Proof.
  intros header Hin. unfold Worker.fetch.
  destruct (String.eqb (method request) "OPTIONS"); [exact Hin |].
  destruct (negb (String.eqb (method request) "POST"));
    [cbn [fst]; rewrite createErrorResponse_headers; now right |].
  unfold handlePost.
  destruct (validateEnvironment env);
    [| cbn [fst]; rewrite createErrorResponse_headers; now right].
  destruct (JSON_parse (payload request)) as [requestBody |];
    [| cbn [fst]; rewrite createErrorResponse_headers; now right].
  destruct (safeParse RequestSchema requestBody) as [validated | issues];
    [| cbn [fst]; rewrite createErrorResponse_headers; now right].
  destruct (generateUUID w) as [id wu].
  destruct (getAccessToken JSON_parse (FIREBASE_SERVICE_ACCOUNT env) wu)
    as [[token | e] wt];
    [| cbn [fst]; rewrite createErrorResponse_headers; now right].
  destruct (createDocument JSON_parse "itineraries" id _ wt) as [[result | e] wc];
    [| cbn [fst]; rewrite createErrorResponse_headers; now right].
  cbn [fst]. now right.
Qed.

(** X6: a request with a method other than POST starts nothing: the
    answer is 200 to OPTIONS and 405 to anything else, no task is handed to
    the platform and the world is left exactly as it was; the body is not
    even read. *)
Theorem other_methods_do_nothing (request : Request) (env : Env) (w : World) :
  method request <> "POST" ->
  exists response,
    Worker.fetch JSON_parse request env w = (response, None, w)
    /\ code response = (if String.eqb (method request) "OPTIONS" then 200 else 405).
Proof.
  intros Hmethod. unfold Worker.fetch.
  destruct (String.eqb (method request) "OPTIONS"); [eexists; split; reflexivity |].
  destruct (String.eqb_spec (method request) "POST") as [Heq | _]; [contradiction |].
  eexists; split; reflexivity.
Qed.



End HandlerExtras.

Lemma every_response_has_cors_headers_witness :
  ("Access-Control-Allow-Origin", "*")
  ∈ headers (fst (fst (Worker.fetch table_parse (mkRequest "POST" "too long") worker_env
                         busy_then_fine))).
Proof.
  apply (every_response_has_cors_headers table_parse (mkRequest "POST" "too long")
           worker_env busy_then_fine).
  by_evaluation.
Defined.

Lemma other_methods_do_nothing_witness :
  exists response,
    Worker.fetch table_parse (mkRequest "GET" "request") worker_env busy_then_fine
    = (response, None, busy_then_fine)
    /\ code response = 405.
Proof.
  apply (other_methods_do_nothing table_parse (mkRequest "GET" "request") worker_env
           busy_then_fine).
  discriminate.
Defined.


(** ** The store client and the token exchange *)

Section ClientExtras.
Variable JSON_parse : string -> option JsValue.
Variable ZodError_message : list Issue -> string.

Lemma exchange_effect key w :
  documents (snd (exchange JSON_parse key w)) = documents w
  /\ clock (snd (exchange JSON_parse key w)) = clock w
  /\ (falsy key = true ->
      exchange JSON_parse key w
      = (Throw (mkError Error "Service account key is missing"), w))
  /\ forall token,
       fst (exchange JSON_parse key w) = Return token ->
       exists response rest data,
         network w = Some response :: rest
         /\ ok response = true
         /\ snd (exchange JSON_parse key w) = with_network rest w
         /\ JSON_parse (text response) = Some data
         /\ get data "access_token" = Return token.
Proof.
  assert (Hthrow : forall (e : JsError) (w1 : World) (P : JsValue -> Prop),
            forall token, fst (@Throw JsValue e, w1) = Return token -> P token)
    by (intros ? ? ? ? H; discriminate H).
  unfold exchange.
  destruct key as [[| c key] |].
  1, 3: split; [reflexivity |]; split; [reflexivity |];
        split; [intros _; reflexivity | apply Hthrow].
  destruct (JSON_parse (String c key)) as [serviceAccount |].
  2: { split; [reflexivity |]. split; [reflexivity |].
       split; [intros H; discriminate H | apply Hthrow]. }
  destruct (get serviceAccount "client_email") as [email | e].
  2: { split; [reflexivity |]. split; [reflexivity |].
       split; [intros H; discriminate H | apply Hthrow]. }
  destruct (signing w) as [jwt | e].
  2: { split; [reflexivity |]. split; [reflexivity |].
       split; [intros H; discriminate H | apply Hthrow]. }
  unfold Platform.fetch.
  destruct (network w) as [| [response |] rest] eqn:Hnetwork.
  1, 3: split; [reflexivity |]; split; [reflexivity |];
        split; [intros H; discriminate H | apply Hthrow].
  destruct (ok response) eqn:Hok; cbn [negb].
  - destruct (JSON_parse (text response)) as [data |] eqn:Hdata.
    2: { split; [reflexivity |]. split; [reflexivity |].
         split; [intros H; discriminate H | apply Hthrow]. }
    split; [reflexivity |]. split; [reflexivity |].
    split; [intros H; discriminate H |].
    intros token Htoken. exists response, rest, data. auto.
  - split; [reflexivity |]. split; [reflexivity |].
    split; [intros H; discriminate H | apply Hthrow].
Qed.

(** X9: the token exchange never touches the store or the clock.  Without
    a key it fails before anything is sent.  It returns only when the
    endpoint answered with a success status and a body that parses,
    exactly one answer being consumed and nothing logged; what it returns
    is the [access_token] property of that body, which is undefined when
    the body has no such property.  Every failure is logged as "Error in
    getAccessToken:" and thrown again. *)
Theorem getAccessToken_outcomes (key : option string) (w : World) :
  let '(outcome, w') := getAccessToken JSON_parse key w in
  documents w' = documents w
  /\ clock w' = clock w
  /\ (falsy key = true ->
      outcome = Throw (mkError Error "Service account key is missing")
      /\ network w' = network w)
  /\ match outcome with
     | Throw _ => last (console w') = Some "Error in getAccessToken:"
     | Return token =>
         exists response rest data,
           network w = Some response :: rest
           /\ ok response = true
           /\ network w' = rest
           /\ JSON_parse (text response) = Some data
           /\ get data "access_token" = Return token
           /\ console w' = console w
     end.
Proof.
  unfold getAccessToken.
  destruct (exchange_effect key w) as (Hdocs & Hclock & Hmissing & Htoken).
  destruct (exchange JSON_parse key w) as [[token | e] w1]; cbn [fst snd] in *.
  - split; [exact Hdocs |]. split; [exact Hclock |]. split.
    + intros Hkey. specialize (Hmissing Hkey). discriminate Hmissing.
    + destruct (Htoken token eq_refl)
        as (response & rest & data & Hnet & Hok & -> & Hdata & Hget).
      exists response, rest, data. repeat split; assumption || reflexivity.
  - split; [exact Hdocs |]. split; [exact Hclock |]. split.
    + intros Hkey. specialize (Hmissing Hkey). injection Hmissing as -> ->. auto.
    + cbn [console console_error]. apply last_snoc.
Qed.

(** X11: a read never changes the store and consumes at most one answer;
    a 404 answer reads as null whatever the store holds, any other answer
    outside 200..299 as an error that carries the status and the body. *)
Theorem getDocument_reads_only (collection docId : string) (w : World) :
  documents (snd (getDocument collection docId w)) = documents w
  /\ network (snd (getDocument collection docId w)) = tail (network w)
  /\ forall response rest,
       network w = Some response :: rest ->
       (status response = 404 -> fst (getDocument collection docId w) = Return JsNull)
       /\ (ok response = false -> status response <> 404 ->
           fst (getDocument collection docId w)
           = Throw (mkError Error
                      ("Firestore get error: " +:+ toString (status response)
                       +:+ " - " +:+ text response))).
Proof.
  unfold getDocument, store_fetch, Platform.fetch, status_text.
  destruct (network w) as [| [response |] rest] eqn:Hnetwork.
  - cbn. rewrite Hnetwork. split; [reflexivity |]. split; [reflexivity |].
    intros ? ? H. discriminate H.
  - assert (Hdocs : documents (if ok response
                               then with_documents
                                      (store_apply (GET (document_path collection docId))
                                         (documents (with_network rest w)))
                                      (with_network rest w)
                               else with_network rest w) = documents w)
      by (destruct (ok response); reflexivity).
    assert (Hnet : network (if ok response
                            then with_documents
                                   (store_apply (GET (document_path collection docId))
                                      (documents (with_network rest w)))
                                   (with_network rest w)
                            else with_network rest w) = rest)
      by (destruct (ok response); reflexivity).
    split; [| split].
    + destruct (status response =? 404); [exact Hdocs |].
      destruct (negb (ok response)); [exact Hdocs |].
      destruct (documents _ !! _); exact Hdocs.
    + destruct (status response =? 404); [exact Hnet |].
      destruct (negb (ok response)); [exact Hnet |].
      destruct (documents _ !! _); exact Hnet.
    + intros response' rest' H. injection H as <- <-. split.
      * intros H404. now rewrite H404.
      * intros Hok H404. apply Z.eqb_neq in H404. rewrite H404, Hok. reflexivity.
  - cbn. split; [reflexivity |]. split; [reflexivity |].
    intros ? ? H. discriminate H.
Qed.

End ClientExtras.

(** ** Job identifiers *)

Lemma hex_char_hex v : 0 <= v < 16 -> is_hex (hex_char v) = true.
Proof.
  intros Hv.
  assert (H : v = 0 \/ v = 1 \/ v = 2 \/ v = 3 \/ v = 4 \/ v = 5 \/ v = 6 \/ v = 7
              \/ v = 8 \/ v = 9 \/ v = 10 \/ v = 11 \/ v = 12 \/ v = 13 \/ v = 14
              \/ v = 15) by lia.
  repeat (destruct H as [-> | H]; [reflexivity |]). now subst.
Qed.

Lemma hex_char_variant r : 0 <= r < 16 -> is_variant (hex_char (Z.lor (Z.land r 3) 8)) = true.
Proof.
  intros Hr.
  assert (H : r = 0 \/ r = 1 \/ r = 2 \/ r = 3 \/ r = 4 \/ r = 5 \/ r = 6 \/ r = 7
              \/ r = 8 \/ r = 9 \/ r = 10 \/ r = 11 \/ r = 12 \/ r = 13 \/ r = 14
              \/ r = 15) by lia.
  repeat (destruct H as [-> | H]; [reflexivity |]). now subst.
Qed.

Lemma fill_template_shape template :
  forall rnd,
    has_shape (template_shape template) (fst (fill_template template rnd)) = true.
Proof.
  induction template as [| c rest IH]; intros rnd; [reflexivity |].
  cbn [fill_template template_shape]. unfold class_of at 1.
  destruct (Ascii.eqb c "x") eqn:Hx; cbn [orb].
  - specialize (IH (tail rnd)). destruct (fill_template rest (tail rnd)) as [out rnd'].
    cbn [fst has_shape] in *. rewrite IH, hex_char_hex; [reflexivity |].
    apply Z.mod_pos_bound. lia.
  - destruct (Ascii.eqb c "y") eqn:Hy.
    + specialize (IH (tail rnd)). destruct (fill_template rest (tail rnd)) as [out rnd'].
      cbn [fst has_shape] in *. rewrite IH, hex_char_variant; [reflexivity |].
      apply Z.mod_pos_bound. lia.
    + specialize (IH rnd). destruct (fill_template rest rnd) as [out rnd'].
      cbn [fst has_shape] in *. rewrite IH, Ascii.eqb_refl. reflexivity.
Qed.

Lemma fill_template_draws template :
  forall rnd, snd (fill_template template rnd) = drop (placeholders template) rnd.
Proof.
  induction template as [| c rest IH]; intros rnd; [reflexivity |].
  cbn [fill_template placeholders].
  destruct (Ascii.eqb c "x" || Ascii.eqb c "y") eqn:Hc.
  - specialize (IH (tail rnd)). destruct (fill_template rest (tail rnd)) as [out rnd'].
    cbn [snd Nat.add] in *. rewrite IH.
    destruct rnd; cbn [tail drop]; [now rewrite !drop_nil | reflexivity].
  - specialize (IH rnd). destruct (fill_template rest rnd) as [out rnd'].
    exact IH.
Qed.

Lemma generateUUID_effect (w : World) :
  uuid_v4 (fst (generateUUID w)) = true
  /\ clock (snd (generateUUID w)) = clock w
  /\ network (snd (generateUUID w)) = network w
  /\ documents (snd (generateUUID w)) = documents w
  /\ console (snd (generateUUID w)) = console w.
Proof.
  unfold generateUUID.
  pose proof (fill_template_shape "xxxxxxxx-xxxx-4xxx-yxxx-xxxxxxxxxxxx" (random w)) as Hshape.
  destruct (fill_template "xxxxxxxx-xxxx-4xxx-yxxx-xxxxxxxxxxxx" (random w)) as [uuid rnd].
  split; [exact Hshape |]. repeat split.
Qed.

Lemma has_shape_length shape :
  forall s, has_shape shape s = true -> String.length s = length shape.
Proof.
  induction shape as [| class shape IH]; intros [| c s] Hshape; try discriminate Hshape.
  - reflexivity.
  - cbn [has_shape] in Hshape. apply andb_true_iff in Hshape as [_ Hshape].
    cbn [String.length length]. f_equal. now apply IH.
Qed.

(** X12: whatever the random source gives, the identifier of a job is a
    version 4 identifier in lower case (8-4-4-4-12 hexadecimal digits,
    version digit 4, variant digit 8, 9, a or b); producing it draws 31
    random numbers and changes nothing else. *)
Theorem generateUUID_format (w : World) :
  uuid_v4 (fst (generateUUID w)) = true
  /\ String.length (fst (generateUUID w)) = 36%nat
  /\ random (snd (generateUUID w)) = drop 31 (random w)
  /\ clock (snd (generateUUID w)) = clock w
  /\ network (snd (generateUUID w)) = network w
  /\ documents (snd (generateUUID w)) = documents w
  /\ console (snd (generateUUID w)) = console w.
Proof.
  destruct (generateUUID_effect w) as (Hshape & Hquiet).
  split; [exact Hshape |]. split; [| split; [| exact Hquiet]].
  - apply has_shape_length in Hshape. exact Hshape.
  - unfold generateUUID.
    pose proof (fill_template_draws "xxxxxxxx-xxxx-4xxx-yxxx-xxxxxxxxxxxx" (random w))
      as Hdraws.
    destruct (fill_template "xxxxxxxx-xxxx-4xxx-yxxx-xxxxxxxxxxxx" (random w))
      as [uuid rnd].
    exact Hdraws.
Qed.

(** ** What the background task costs *)

Section TaskBudget.
Variable JSON_parse : string -> option JsValue.
Variable ZodError_message : list Issue -> string.

Lemma updateDocument_effect collection docId data w :
  clock (snd (updateDocument JSON_parse collection docId data w)) = clock w
  /\ exists j : nat,
       (j <= 1)%nat /\ network (snd (updateDocument JSON_parse collection docId data w))
                       = drop j (network w).
Proof.
  unfold updateDocument.
  destruct (updateRequest collection docId data) as [request | e];
    [| split; [reflexivity | exists 0%nat; split; [lia | reflexivity]]].
  unfold store_fetch.
  destruct (Platform.fetch w) as [[response | e] w1] eqn:E;
    apply fetch_documents in E as (_ & Hclock & _ & Hnetwork).
  - assert (H : clock (if ok response
                       then with_documents (store_apply request (documents w1)) w1
                       else w1) = clock w
                /\ network (if ok response
                            then with_documents (store_apply request (documents w1)) w1
                            else w1) = tail (network w))
      by (destruct (ok response); split; assumption).
    destruct H as [Hc Hn].
    destruct (negb (ok response)); cbn [snd clock network console_error];
      (split; [exact Hc |]); exists 1%nat; (split; [lia |]);
      rewrite Hn; now destruct (network w).
  - cbn [snd]. split; [exact Hclock |]. exists 1%nat. split; [lia |].
    rewrite Hnetwork. now destruct (network w).
Qed.

Lemma recordFailure_effect task error w :
  clock (snd (recordFailure JSON_parse task error w)) = clock w
  /\ exists j : nat,
       (j <= 1)%nat
       /\ network (snd (recordFailure JSON_parse task error w)) = drop j (network w).
Proof.
  unfold recordFailure.
  set (w0 := console_error (background_error task) w).
  destruct (updateDocument_effect "itineraries" (jobId task) (failedUpdate error w0) w0)
    as (Hclock & j & Hj & Hnetwork).
  destruct (updateDocument JSON_parse "itineraries" (jobId task) (failedUpdate error w0) w0)
    as [[result | e] w1]; cbn [snd clock network console_error] in *;
    (split; [exact Hclock |]); exists j; (split; [exact Hj | exact Hnetwork]).
Qed.

Lemma processItinerary_cost (task : Task) (w : World) :
  exists k : nat,
    (1 <= k <= 6)%nat
    /\ network (snd (processItinerary JSON_parse ZodError_message task w)) = drop k (network w)
    /\ clock (snd (processItinerary JSON_parse ZodError_message task w))
       = clock (snd (generateItinerary JSON_parse ZodError_message w)).
Proof.
  destruct (generateItinerary_cost JSON_parse ZodError_message w) as (k & Hk & Hnetwork & _).
  unfold processItinerary, tryGenerate.
  destruct (generateItinerary JSON_parse ZodError_message w) as [[itinerary | error] w1];
    cbn [snd] in *.
  - set (data := completedUpdate task (default JsUndefined itinerary) w1).
    destruct (updateDocument_effect "itineraries" (jobId task) data w1)
      as (Hc1 & j & Hj & Hn1).
    destruct (updateDocument JSON_parse "itineraries" (jobId task) data w1)
      as [[result | e] w2]; cbn [snd] in *.
    + exists (k + j)%nat. split; [lia |]. rewrite Hn1, Hnetwork, drop_drop, Hc1.
      split; reflexivity.
    + destruct (recordFailure_effect task e w2) as (Hc2 & j' & Hj' & Hn2).
      exists (k + j + j')%nat. split; [lia |].
      rewrite Hn2, Hn1, Hnetwork, !drop_drop, Hc2, Hc1.
      split; [f_equal; lia | reflexivity].
  - destruct (recordFailure_effect task error w1) as (Hc2 & j' & Hj' & Hn2).
    exists (k + j')%nat. split; [lia |].
    rewrite Hn2, Hnetwork, drop_drop, Hc2. split; reflexivity.
Qed.

Lemma generateItinerary_wait (w : World) :
  clock w <= clock (snd (generateItinerary JSON_parse ZodError_message w)) <= clock w + 14000.
Proof.
  destruct (generateItinerary_cost JSON_parse ZodError_message w) as (k & Hk & _ & Hclock).
  rewrite Hclock. pose proof (geometric_bounds (k - 1)). lia.
Qed.

(** X13: the background task of one job consumes between one and six
    answers of the network (at most four calls to the generative service,
    the write of the result and the write of a failure) and waits at most
    14 s in all; it only ever waits between two calls to the generative
    service. *)
Theorem processItinerary_budget (task : Task) (w : World) :
  exists k : nat,
    (1 <= k <= 6)%nat
    /\ network (snd (processItinerary JSON_parse ZodError_message task w)) = drop k (network w)
    /\ clock w <= clock (snd (processItinerary JSON_parse ZodError_message task w)) <= clock w + 14000
    /\ clock (snd (processItinerary JSON_parse ZodError_message task w))
       = clock (snd (generateItinerary JSON_parse ZodError_message w)).
Proof.
  destruct (processItinerary_cost task w) as (k & Hk & Hnetwork & Hclock).
  exists k. split; [exact Hk |]. split; [exact Hnetwork |]. split; [| exact Hclock].
  rewrite Hclock. apply generateItinerary_wait.
Qed.

End TaskBudget.
(** *** The codec on storable values *)

Lemma assigned_inverse {A B} (f : A -> Result (option B)) (g : B -> Result (option A))
    entries :
  Forall (fun kv => exists x, f (snd kv) = Return (Some x) /\ g x = Return (Some (snd kv)))
    entries ->
  forallb (fun kv => returns (f (snd kv))) entries = true
  /\ map fst (assigned f entries) = map fst entries
  /\ forallb (fun kv => returns (g (snd kv))) (assigned f entries) = true
  /\ assigned g (assigned f entries) = entries.
Proof.
  induction 1 as [| [k v] rest (x & Hf & Hg) _ (IH1 & IH2 & IH3 & IH4)];
    [repeat split |].
  cbn [snd] in Hf, Hg.
  unfold assigned in *. cbn [omap list_omap forallb map fst snd result_of].
  rewrite Hf. cbn [result_of forallb map fst snd returns omap list_omap andb].
  rewrite Hg. cbn [result_of returns andb]. rewrite IH1, IH2, IH3, IH4. repeat split.
Qed.

Lemma forEntries_inverse {A B} (f : A -> Result (option B)) (g : B -> Result (option A))
    entries :
  NoDup (map fst entries) ->
  Forall (fun kv => exists x, f (snd kv) = Return (Some x) /\ g x = Return (Some (snd kv)))
    entries ->
  exists fields,
    forEntries f entries [] = Return fields /\ forEntries g fields [] = Return entries.
Proof.
  intros Hkeys Hall.
  destruct (assigned_inverse f g entries Hall) as (Hf & Hsame & Hg & Hback).
  exists (assigned f entries). split.
  - apply forEntries_assigned; assumption.
  - rewrite forEntries_assigned; [now rewrite Hback | exact Hg | now rewrite Hsame].
Qed.

Lemma mapM_inverse {A B} (f : A -> Result B) (g : B -> Result A) items :
  Forall (fun item => exists x, f item = Return x /\ g x = Return item) items ->
  exists ys, mapM f items = Return ys /\ mapM g ys = Return items.
Proof.
  induction 1 as [| item rest (x & Hf & Hg) _ (ys & IHf & IHg)].
  - exists []. split; reflexivity.
  - exists (x :: ys). cbn [mapM] in *. rewrite Hf, IHf, Hg, IHg. split; reflexivity.
Qed.

Lemma fromFirestoreItem_value x v :
  fromFirestoreValue x = Return (Some v) -> fromFirestoreItem (Some x) = Return v.
Proof.
  destruct x; cbn [fromFirestoreItem]; intros H; try (rewrite H; reflexivity).
  cbn [fromFirestoreValue] in H.
  destruct (asObject (forEntries fromFirestoreValue fields [])); cbn [bind] in H; congruence.
Qed.

Lemma storable_round_trip v :
  storable v = true ->
  exists x, toFirestoreValue v = Return (Some x) /\ fromFirestoreValue x = Return (Some v).
Proof.
  induction v as [| | b | n | s | t | items IH | props IH | name] using JsValue_nested_ind;
    intros Hv; try discriminate Hv.
  - exists nullValue. split; reflexivity.
  - exists (booleanValue b). split; reflexivity.
  - destruct n as [z | m e | |]; try discriminate Hv.
    + exists (integerValue (toString z)). split; [reflexivity |].
      cbn [fromFirestoreValue]. now rewrite parseInt_toString.
    + exists (doubleValue (Fractional m e)). split; [| reflexivity].
      cbn [storable] in Hv. unfold Number_isInteger in Hv. cbn [toFirestoreValue].
      destruct (integral (Fractional m e)); [discriminate | reflexivity].
  - exists (stringValue s). split; reflexivity.
  - destruct t as [t |]; [| discriminate]. cbn [storable] in Hv. apply Z.leb_le in Hv.
    destruct (Date_parse_toISOString t Hv) as (iso & Hiso & Hparse).
    exists (timestampValue iso). cbn [toFirestoreValue fromFirestoreValue].
    rewrite Hiso, Hparse. split; reflexivity.
  - cbn [storable] in Hv. rewrite toFirestoreValue_array.
    destruct (mapM_inverse toFirestoreItem fromFirestoreItem items) as (ys & Hto & Hfrom).
    { rewrite forallb_forall in Hv. rewrite Forall_forall in *. intros item Hin.
      specialize (Hv item (proj1 (list_elem_of_In _ _) Hin)). specialize (IH item Hin).
      assert (Hitem : storable item = true /\ toFirestoreItem item = toFirestoreValue item)
        by (destruct item; try discriminate Hv; split; (exact Hv || reflexivity)).
      destruct Hitem as [Hitem Hsame]. destruct (IH Hitem) as (x & Hx & Hback).
      exists (Some x). rewrite Hsame. split; [exact Hx |].
      now apply fromFirestoreItem_value. }
    exists (arrayValue ys). rewrite Hto, fromFirestoreValue_array, Hfrom. split; reflexivity.
  - cbn [storable] in Hv. apply andb_true_iff in Hv as [Hkeys Hprops].
    apply bool_decide_eq_true in Hkeys.
    destruct (forEntries_inverse toFirestoreValue fromFirestoreValue props Hkeys)
      as (fields & Hto & Hfrom).
    { rewrite forallb_forall in Hprops. rewrite Forall_forall in *. intros kv Hin.
      apply IH; [exact Hin |]. apply Hprops. now apply list_elem_of_In. }
    exists (mapValue fields). cbn [toFirestoreValue fromFirestoreValue]. unfold asMap, asObject.
    rewrite Hto, Hfrom. split; reflexivity.
Qed.

(** X14: on an object of storable values, none of whose objects has a
    property named [__proto__], the decoder undoes the encoder: what is
    read back from the wire format is the object that was written, whole
    numbers and timestamps included. *)
Theorem codec_round_trip (props : list (string * JsValue)) :
  storable (JsObject props) = true ->
  ordinary (JsObject props) = true ->
  round_trip (JsObject props) = Return (JsObject props).
Proof.
  intros Hv _. destruct (storable_round_trip _ Hv) as (x & Hto & Hfrom).
  unfold round_trip, convertToFirestoreFields, convertFromFirestoreFields.
  cbn [toFirestoreValue Object_entries bind] in *. unfold asMap in Hto.
  destruct (forEntries toFirestoreValue props []) as [fields | e]; [| discriminate].
  cbn [bind] in *. injection Hto as <-. cbn [fromFirestoreValue] in Hfrom.
  destruct (asObject (forEntries fromFirestoreValue fields [])) as [obj | e];
    cbn [bind] in Hfrom; congruence.
Qed.

Lemma codec_round_trip_witness :
  storable completed_kyoto = true /\ round_trip completed_kyoto = Return completed_kyoto.
Proof.
  split; [reflexivity |].
  apply (codec_round_trip
           [("status", JsStr "completed");
            ("destination", JsStr "Kyoto, Japan");
            ("durationDays", JsNum (Integer 4));
            ("completedAt", JsDate (Some 1730538000000));
            ("itinerary", JsArray [morning_only_day]);
            ("error", JsNull)]); reflexivity.
Defined.

(** ** The parser of the page (parser.js) *)

Import Frontend.

Lemma parseInt10_toString z : parseInt10 (toString z) = Integer z.
Proof.
  assert (Hrender : forall (negative : bool) ds,
            Forall (fun d => 0 <= d <= 9) ds -> ds <> [] ->
            parseInt10 ((if negative then "-" else "")
                        +:+ foldr (fun d s => String (digit_char d) s) "" ds)
            = Integer (if negative then - foldl (fun a d => 10 * a + d) 0 ds
                       else foldl (fun a d => 10 * a + d) 0 ds)).
  { intros negative ds Hds Hne. pose proof (parse_digits_render ds None Hds) as Hparse.
    destruct ds as [| d1 ds]; [congruence |]. clear Hne.
    apply Forall_cons in Hds as [Hd1 Hds].
    assert (Htrim : forall s,
              s = foldr (fun d s => String (digit_char d) s) "" (d1 :: ds) ->
              trim_start s = s
              /\ match s with
                 | String "-"%char rest => (true, rest)
                 | String "+"%char rest => (false, rest)
                 | _ => (false, s)
                 end = (false, s)).
    { intros s ->. each_digit d1 Hd1; split; reflexivity. }
    remember (foldr (fun d s => String (digit_char d) s) "" (d1 :: ds)) as body eqn:Ebody.
    destruct (Htrim body eq_refl) as [Hspace Hsign].
    unfold parseInt10. destruct negative.
    - change ("-" +:+ body) with (String "-"%char body).
      change (trim_start (String "-" body)) with (String "-"%char body).
      cbv beta iota. rewrite Hparse. reflexivity.
    - change ("" +:+ body) with body. rewrite Hspace, Hsign, Hparse. reflexivity. }
  unfold toString. destruct (Z.ltb_spec z 0) as [Hneg | Hpos].
  - destruct (decimal_render (- z)) as (ds & Hds & Hne & -> & Hvalue); [lia |].
    etransitivity; [exact (Hrender true ds Hds Hne) |].
    rewrite Hvalue. f_equal. lia.
  - destruct (decimal_render z) as (ds & Hds & Hne & -> & Hvalue); [lia |].
    etransitivity; [exact (Hrender false ds Hds Hne) |].
    rewrite Hvalue. reflexivity.
Qed.

Lemma radix_of_body body :
  match body with
  | String "0"%char (String "x"%char _) => true
  | String "0"%char (String "X"%char _) => true
  | _ => false
  end = false ->
  match body with
  | String "0"%char (String "x"%char rest) => (16, rest)
  | String "0"%char (String "X"%char rest) => (16, rest)
  | _ => (10, body)
  end = (10, body).
Proof.
  destruct body as [| a [| b rest]]; [reflexivity | |].
  - destruct a as [[] [] [] [] [] [] [] []]; reflexivity.
  - destruct a as [[] [] [] [] [] [] [] []]; try reflexivity.
    destruct b as [[] [] [] [] [] [] [] []]; try reflexivity; discriminate.
Qed.

Lemma parseInt10_parseInt text :
  radix_prefixed text = false -> parseInt10 text = parseInt text.
Proof.
  unfold radix_prefixed, parseInt10, parseInt. intros Hprefix.
  assert (Hsplit : match trim_start text with
                   | String "-"%char rest => rest
                   | String "+"%char rest => rest
                   | _ => trim_start text
                   end
                   = snd (match trim_start text with
                          | String "-"%char rest => (true, rest)
                          | String "+"%char rest => (false, rest)
                          | _ => (false, trim_start text)
                          end)).
  { destruct (trim_start text) as [| c rest]; [reflexivity |].
    destruct c as [[] [] [] [] [] [] [] []]; reflexivity. }
  rewrite Hsplit in Hprefix.
  destruct (match trim_start text with
            | String "-"%char rest => (true, rest)
            | String "+"%char rest => (false, rest)
            | _ => (false, trim_start text)
            end) as [negative body].
  cbn [snd] in Hprefix. now rewrite (radix_of_body body Hprefix).
Qed.

Section ParserFacts.
Variable untyped : string -> JsValue.

Lemma parseFirestoreValue_array values :
  parseFirestoreValue untyped (arrayValue values)
  = bind (mapM (parseFirestoreItem untyped) values)
         (fun items => Return (Some (JsArray items))).
Proof. reflexivity. Qed.

Lemma parseFirestoreValue_returns v :
  returns (parseFirestoreValue untyped v) = arrays_of_maps v.
Proof.
  induction v as [| s | digits | n | b | iso | values IH | fields IH | | | tag]
    using Value_nested_ind; try reflexivity.
  - rewrite parseFirestoreValue_array, returns_bind by reflexivity.
    rewrite returns_mapM. cbn [arrays_of_maps]. apply forallb_Forall_eq.
    eapply Forall_impl; [exact IH |]. intros [x |] H; [| reflexivity].
    destruct x; try reflexivity. cbn [parseFirestoreItem].
    cbn [parseFirestoreValue arrays_of_maps] in H. rewrite <- H. unfold asObject.
    rewrite !returns_bind by reflexivity. reflexivity.
  - cbn [parseFirestoreValue arrays_of_maps]. unfold asObject.
    rewrite !returns_bind by reflexivity.
    rewrite returns_forEntries. apply forallb_Forall_eq. exact IH.
Qed.

Lemma parseFirestoreValue_assigns v o :
  parseFirestoreValue untyped v = Return o -> (true = true <-> is_Some o).
Proof.
  intros H. split; [intros _ | reflexivity].
  destruct v as [| s | digits | n | b | iso | values | fields | | | tag];
    cbn [parseFirestoreValue] in H; try (injection H as <-; eauto).
  - destruct (mapM _ values); cbn [bind] in H; [| discriminate]. injection H as <-. eauto.
  - destruct (asObject _); cbn [bind] in H; [| discriminate]. injection H as <-. eauto.
Qed.

(** X15: the parser of the page returns null without fields; on fields it
    throws exactly when some array, at any depth, holds an item that is
    not a map, and otherwise returns an object that has every key of the
    fields, under tags it does not know too. *)
Theorem parser_returns_exactly (fields : Fields) :
  parseFirestoreDocument untyped None = Return JsNull
  /\ returns (parseFirestoreDocument untyped (Some fields))
     = forallb (fun kv => arrays_of_maps (snd kv)) fields
  /\ (NoDup (map fst fields) ->
      forallb (fun kv => arrays_of_maps (snd kv)) fields = true ->
      exists props,
        parseFirestoreDocument untyped (Some fields) = Return (JsObject props)
        /\ map fst props = map fst fields).
Proof.
  assert (Hreturns : forallb (fun kv => returns (parseFirestoreValue untyped (snd kv))) fields
                     = forallb (fun kv => arrays_of_maps (snd kv)) fields).
  { apply forallb_pointwise. intros kv. apply parseFirestoreValue_returns. }
  split; [reflexivity |]. split.
  - cbn [parseFirestoreDocument]. unfold asObject. rewrite returns_bind by reflexivity.
    now rewrite returns_forEntries.
  - intros Hkeys Hmaps. rewrite <- Hreturns in Hmaps.
    exists (assigned (parseFirestoreValue untyped) fields).
    cbn [parseFirestoreDocument]. rewrite (forEntries_assigned _ _ Hmaps Hkeys).
    split; [reflexivity |].
    rewrite (assigned_keys _ (fun _ => true) fields parseFirestoreValue_assigns Hmaps).
    f_equal. clear. induction fields as [| kv rest IH]; [reflexivity |].
    rewrite filter_cons. rewrite decide_True by reflexivity. now rewrite IH.
Qed.

Lemma mapM_pointwise {A B} (f g : A -> Result B) items :
  Forall (fun item => f item = g item) items -> mapM f items = mapM g items.
Proof.
  induction 1 as [| item rest Hitem _ IH]; [reflexivity |].
  cbn [mapM] in *. now rewrite Hitem, IH.
Qed.

Lemma forEntries_pointwise {A B} (f g : A -> Result (option B)) entries :
  Forall (fun kv => f (snd kv) = g (snd kv)) entries ->
  forall fields, forEntries f entries fields = forEntries g entries fields.
Proof.
  induction 1 as [| [k v] rest Hv _ IH]; intros fields; [reflexivity |].
  cbn [forEntries snd] in *. rewrite Hv. destruct (g v) as [[x |] | e]; auto.
Qed.

Lemma bind_Some_inj {A} (r r' : Result A) :
  bind r (fun a => Return (Some a)) = bind r' (fun a => Return (Some a)) -> r = r'.
Proof. destruct r, r'; cbn [bind]; congruence. Qed.

Lemma parseFirestoreValue_alike v :
  read_alike v = true -> parseFirestoreValue untyped v = fromFirestoreValue v.
Proof.
  induction v as [| s | digits | n | b | iso | values IH | fields IH | | | tag]
    using Value_nested_ind; intros Hv; try reflexivity; try discriminate Hv.
  - cbn [read_alike] in Hv. apply negb_true_iff in Hv.
    cbn [parseFirestoreValue fromFirestoreValue]. now rewrite parseInt10_parseInt.
  - rewrite parseFirestoreValue_array, fromFirestoreValue_array. f_equal.
    apply mapM_pointwise. cbn [read_alike] in Hv. rewrite forallb_forall in Hv.
    rewrite Forall_forall in *. intros item Hin.
    specialize (Hv item (proj1 (list_elem_of_In _ _) Hin)). specialize (IH item Hin).
    destruct item as [[| | | | | | | fields | | |] |]; try discriminate Hv.
    cbn [parseFirestoreItem fromFirestoreItem]. apply bind_Some_inj. exact (IH Hv).
  - cbn [parseFirestoreValue fromFirestoreValue read_alike] in *. do 2 f_equal.
    apply forEntries_pointwise. rewrite forallb_forall in Hv. rewrite Forall_forall in *.
    intros kv Hkv. apply IH; [exact Hkv |]. apply Hv. now apply list_elem_of_In.
Qed.

(** X16: on fields with known tags and ordinary names, whole numbers in
    decimal text, arrays that have their values, all of them maps, and
    maps that have their fields, the parser of the page and the decoder of
    the worker read the same object.  An array without values and a map
    without fields, as the store sends them when they are empty, are left
    out: the parser reads them as an empty array and as null, and the
    decoder throws. *)
Theorem parser_agrees_with_decoder (fields : Fields) :
  ordinary_fields fields = true ->
  forallb (fun kv => read_alike (snd kv)) fields = true ->
  parseFirestoreDocument untyped (Some fields) = convertFromFirestoreFields fields
  /\ parseFirestoreValue untyped emptyArrayValue = Return (Some (JsArray []))
  /\ parseFirestoreValue untyped emptyMapValue = Return (Some JsNull)
  /\ returns (fromFirestoreValue emptyArrayValue) = false
  /\ returns (fromFirestoreValue emptyMapValue) = false.
Proof.
  intros _ Hfields. split; [| repeat split]. cbn [parseFirestoreDocument]. unfold convertFromFirestoreFields. f_equal.
  apply forEntries_pointwise. rewrite forallb_forall in Hfields. rewrite Forall_forall.
  intros kv Hkv. apply parseFirestoreValue_alike, Hfields. now apply list_elem_of_In.
Qed.

Lemma displayable_round_trip v :
  storable v = true ->
  displayable v = true ->
  exists x,
    toFirestoreValue v = Return (Some x)
    /\ parseFirestoreValue untyped x = Return (Some v).
Proof.
  induction v as [| | b | n | s | t | items IH | props IH | name] using JsValue_nested_ind;
    intros Hv Hshow; try discriminate Hv.
  - exists nullValue. split; reflexivity.
  - exists (booleanValue b). split; reflexivity.
  - destruct n as [z | m e | |]; try discriminate Hv.
    + exists (integerValue (toString z)). split; [reflexivity |].
      cbn [parseFirestoreValue]. now rewrite parseInt10_toString.
    + exists (doubleValue (Fractional m e)). split; [| reflexivity].
      cbn [storable] in Hv. unfold Number_isInteger in Hv. cbn [toFirestoreValue].
      destruct (integral (Fractional m e)); [discriminate | reflexivity].
  - exists (stringValue s). split; reflexivity.
  - destruct t as [t |]; [| discriminate]. cbn [storable] in Hv. apply Z.leb_le in Hv.
    destruct (Date_parse_toISOString t Hv) as (iso & Hiso & Hparse).
    exists (timestampValue iso). cbn [toFirestoreValue parseFirestoreValue].
    rewrite Hiso, Hparse. split; reflexivity.
  - cbn [storable displayable] in Hv, Hshow. rewrite toFirestoreValue_array.
    destruct (mapM_inverse toFirestoreItem (parseFirestoreItem untyped) items)
      as (ys & Hto & Hfrom).
    { rewrite forallb_forall in Hv, Hshow. rewrite Forall_forall in *. intros item Hin.
      specialize (Hv item (proj1 (list_elem_of_In _ _) Hin)).
      specialize (Hshow item (proj1 (list_elem_of_In _ _) Hin)).
      specialize (IH item Hin).
      destruct item as [| | | | | | | props |]; try discriminate Hshow.
      destruct (IH Hv Hshow) as (x & Hx & Hback).
      cbn [toFirestoreItem]. cbn [toFirestoreValue] in Hx. unfold asMap in *.
      destruct (forEntries toFirestoreValue props []) as [fields | e];
        cbn [bind] in *; [| discriminate].
      injection Hx as <-. exists (Some (mapValue fields)). split; [reflexivity |].
      cbn [parseFirestoreItem]. cbn [parseFirestoreValue] in Hback.
      destruct (asObject (forEntries (parseFirestoreValue untyped) fields []));
        cbn [bind] in Hback; congruence. }
    exists (arrayValue ys). rewrite Hto, parseFirestoreValue_array, Hfrom.
    split; reflexivity.
  - cbn [storable displayable] in Hv, Hshow. apply andb_true_iff in Hv as [Hkeys Hprops].
    apply bool_decide_eq_true in Hkeys.
    destruct (forEntries_inverse toFirestoreValue (parseFirestoreValue untyped) props Hkeys)
      as (fields & Hto & Hfrom).
    { rewrite forallb_forall in Hprops, Hshow. rewrite Forall_forall in *. intros kv Hin.
      apply IH; [exact Hin | |]; [apply Hprops | apply Hshow]; now apply list_elem_of_In. }
    exists (mapValue fields). cbn [toFirestoreValue parseFirestoreValue].
    unfold asMap, asObject. rewrite Hto, Hfrom. split; reflexivity.
Qed.

(** X17: the parser of the page reads back what the worker writes: an
    object of storable values whose arrays hold objects only and whose
    objects have no property named [__proto__], as the documents of a job
    are, is written to fields from which the parser returns the same
    object. *)
Theorem parser_reads_what_the_worker_writes (props : list (string * JsValue)) :
  storable (JsObject props) = true ->
  displayable (JsObject props) = true ->
  ordinary (JsObject props) = true ->
  exists fields,
    convertToFirestoreFields (JsObject props) = Return fields
    /\ parseFirestoreDocument untyped (Some fields) = Return (JsObject props).
Proof.
  intros Hv Hshow _. destruct (displayable_round_trip _ Hv Hshow) as (x & Hto & Hfrom).
  unfold convertToFirestoreFields. cbn [toFirestoreValue Object_entries bind] in *.
  unfold asMap in Hto.
  destruct (forEntries toFirestoreValue props []) as [fields | e]; [| discriminate].
  cbn [bind] in *. injection Hto as <-. exists fields. split; [reflexivity |].
  cbn [parseFirestoreValue parseFirestoreDocument] in *.
  destruct (asObject (forEntries (parseFirestoreValue untyped) fields [])) as [obj | e];
    cbn [bind] in Hfrom; congruence.
Qed.

End ParserFacts.

Lemma parser_returns_exactly_witness :
  exists props,
    parseFirestoreDocument (fun _ => JsNull) (Some kyoto_job) = Return (JsObject props)
    /\ map fst props = map fst kyoto_job.
Proof.
  apply (parser_returns_exactly (fun _ => JsNull) kyoto_job); [by_evaluation | reflexivity].
Defined.

Lemma parser_agrees_with_decoder_witness :
  parseFirestoreDocument (fun _ => JsNull) (Some kyoto_job)
  = convertFromFirestoreFields kyoto_job.
Proof.
  apply (parser_agrees_with_decoder (fun _ => JsNull) kyoto_job); reflexivity.
Defined.

Lemma parser_reads_what_the_worker_writes_witness :
  exists fields,
    convertToFirestoreFields completed_kyoto = Return fields
    /\ parseFirestoreDocument (fun _ => JsNull) (Some fields) = Return completed_kyoto.
Proof.
  apply (parser_reads_what_the_worker_writes (fun _ => JsNull)
           [("status", JsStr "completed");
            ("destination", JsStr "Kyoto, Japan");
            ("durationDays", JsNum (Integer 4));
            ("completedAt", JsDate (Some 1730538000000));
            ("itinerary", JsArray [morning_only_day]);
            ("error", JsNull)]); reflexivity.
Defined.

(** ** The document of a new job *)

Lemma safeParse_request_validated body validated :
  safeParse RequestSchema body = inl validated ->
  exists d n z,
    validated = JsObject [("destination", JsStr d); ("durationDays", JsNum n)]
    /\ d <> "" /\ integral n = Some z /\ 1 <= z <= 30.
Proof.
  intros Hparse.
  assert (Hreturn : parse (fun _ => "") RequestSchema body = Return validated)
    by (unfold parse; now rewrite Hparse).
  assert (Hvalid : valid_request body = true).
  { rewrite <- accepts_request, <- (parse_returns_accepts (fun _ => "")).
    now rewrite Hreturn. }
  destruct (safeParse_request body Hvalid) as (d & n & Hshape).
  assert (validated = JsObject [("destination", JsStr d); ("durationDays", JsNum n)])
    as -> by congruence.
  apply parse_accepted in Hreturn; [| reflexivity].
  rewrite accepts_request in Hreturn. unfold valid_request in Hreturn.
  cbn [lookup_prop String.eqb Ascii.eqb Bool.eqb nonempty_text valid_duration] in Hreturn.
  apply andb_true_iff in Hreturn as [Hd Hn].
  destruct (integral n) as [z |] eqn:Hz; [| discriminate].
  apply andb_true_iff in Hn as [Hlow Hhigh]. apply Z.leb_le in Hlow, Hhigh.
  exists d, n, z. split; [reflexivity |]. split; [now destruct d |]. split; [exact Hz | lia].
Qed.

Lemma initialDocument_fields d n z w iso :
  integral n = Some z ->
  toISOString (Some (clock w)) = Return iso ->
  convertToFirestoreFields (initialDocument (JsStr d) (JsNum n) w)
  = Return [("status", stringValue "processing");
            ("destination", stringValue d);
            ("durationDays", integerValue (toString z));
            ("createdAt", timestampValue iso);
            ("completedAt", nullValue);
            ("itinerary", nullValue);
            ("error", nullValue)].
Proof.
  intros Hn Hiso. unfold convertToFirestoreFields, initialDocument, Date_now.
  cbn [Object_entries bind forEntries toFirestoreValue]. rewrite Hn, Hiso.
  reflexivity.
Qed.

Section JobFacts.
Variable JSON_parse : string -> option JsValue.
Variable ZodError_message : list Issue -> string.

Lemma getAccessToken_effect key w :
  clock (snd (getAccessToken JSON_parse key w)) = clock w
  /\ exists j : nat,
       (j <= 1)%nat
       /\ network (snd (getAccessToken JSON_parse key w)) = drop j (network w)
       /\ (returns (fst (getAccessToken JSON_parse key w)) = true -> j = 1%nat).
Proof.
  unfold getAccessToken, exchange.
  destruct key as [[| c key] |].
  1, 3: split; [reflexivity |]; exists 0%nat; split; [lia |];
        split; [reflexivity | discriminate].
  destruct (JSON_parse (String c key)) as [serviceAccount |].
  2: { split; [reflexivity |]. exists 0%nat. split; [lia |].
       split; [reflexivity | discriminate]. }
  destruct (get serviceAccount "client_email") as [email | e].
  2: { split; [reflexivity |]. exists 0%nat. split; [lia |].
       split; [reflexivity | discriminate]. }
  destruct (signing w) as [jwt | e].
  2: { split; [reflexivity |]. exists 0%nat. split; [lia |].
       split; [reflexivity | discriminate]. }
  destruct (Platform.fetch w) as [[response | e] w1] eqn:E;
    apply fetch_documents in E as (_ & Hclock & _ & Hnetwork);
    assert (Hdrop : network w1 = drop 1 (network w))
      by (rewrite Hnetwork; now destruct (network w)).
  - destruct (negb (ok response)).
    + split; [exact Hclock |]. exists 1%nat. split; [lia |]. split; [exact Hdrop | reflexivity].
    + destruct (JSON_parse (text response)) as [data |].
      * destruct (get data "access_token");
          (split; [exact Hclock |]); exists 1%nat; (split; [lia |]);
          (split; [exact Hdrop | reflexivity]).
      * split; [exact Hclock |]. exists 1%nat. split; [lia |].
        split; [exact Hdrop | reflexivity].
  - split; [exact Hclock |]. exists 1%nat. split; [lia |]. split; [exact Hdrop | reflexivity].
Qed.

Lemma createDocument_effect collection docId data w :
  clock (snd (createDocument JSON_parse collection docId data w)) = clock w
  /\ exists j : nat,
       (j <= 1)%nat
       /\ network (snd (createDocument JSON_parse collection docId data w))
          = drop j (network w)
       /\ (returns (fst (createDocument JSON_parse collection docId data w)) = true ->
           j = 1%nat).
Proof.
  unfold createDocument.
  destruct (convertToFirestoreFields data) as [fields | e].
  2: { split; [reflexivity |]. exists 0%nat. split; [lia |].
       split; [reflexivity | discriminate]. }
  unfold store_fetch.
  destruct (Platform.fetch w) as [[response | e] w1] eqn:E;
    apply fetch_documents in E as (_ & Hclock & _ & Hnetwork);
    assert (Hdrop : network w1 = drop 1 (network w))
      by (rewrite Hnetwork; now destruct (network w)).
  - destruct (ok response); cbn [negb];
      (split; [exact Hclock |]); exists 1%nat; (split; [lia |]);
      (split; [exact Hdrop | reflexivity]).
  - split; [exact Hclock |]. exists 1%nat. split; [lia |]. split; [exact Hdrop | reflexivity].
Qed.

(** An update writes the document it names and no other, and removes
    none. *)
Lemma updateDocument_writes collection docId data w :
  (forall other,
      other <> document_path collection docId ->
      documents (snd (updateDocument JSON_parse collection docId data w)) !! other
      = documents w !! other)
  /\ (forall path,
        is_Some (documents w !! path) ->
        is_Some (documents (snd (updateDocument JSON_parse collection docId data w)) !! path)).
Proof.
  assert (Hinsert : forall doc,
            (forall other,
                other <> document_path collection docId ->
                <[document_path collection docId := doc]> (documents w) !! other
                = documents w !! other)
            /\ (forall path,
                  is_Some (documents w !! path) ->
                  is_Some (<[document_path collection docId := doc]> (documents w) !! path))).
  { intros doc. split.
    - intros other Hother. now rewrite lookup_insert_ne.
    - intros path Hpath. destruct (decide (path = document_path collection docId)) as [-> | Hne].
      + rewrite lookup_insert_eq. eauto.
      + now rewrite lookup_insert_ne. }
  unfold updateDocument, updateRequest.
  destruct (Object_keys data) as [keys | e]; cbn [bind snd]; [| auto].
  destruct (convertToFirestoreFields data) as [fields | e]; cbn [bind snd]; [| auto].
  unfold store_fetch, Platform.fetch.
  destruct (network w) as [| [response |] rest]; cbn [snd]; [auto | | auto].
  destruct (ok response); cbn [negb snd]; [| auto].
  cbn [documents with_documents with_network store_apply].
  destruct (mask_of_query (updateMask keys)); apply Hinsert.
Qed.

(** X18: the document of a new job.  When the handler hands a task to the
    platform, the task carries the validated destination, a non-empty
    text, and the validated duration, a whole number of days from 1 to
    30; the response holds the identifier of the job, a version 4
    identifier; and the store holds under that identifier exactly seven
    fields: the status in progress, the destination, the duration as an
    integer, the time of creation, and null for the time of completion,
    the itinerary and the error.  Nothing else of the request body is
    stored. *)
Theorem created_job_document (request : Request) (env : Env) (w : World)
    (response : Response) (task : Task) (w1 : World) :
  Worker.fetch JSON_parse request env w = (response, Some task, w1) ->
  exists d n z iso,
    destination task = JsStr d /\ d <> ""
    /\ durationDays task = JsNum n /\ integral n = Some z /\ 1 <= z <= 30
    /\ toISOString (Some (clock w)) = Return iso
    /\ response = createSuccessResponse (JsObject [("jobId", JsStr (jobId task))]) 202
    /\ uuid_v4 (jobId task) = true
    /\ documents w1
       = <[task_path task :=
             [("status", stringValue "processing");
              ("destination", stringValue d);
              ("durationDays", integerValue (toString z));
              ("createdAt", timestampValue iso);
              ("completedAt", nullValue);
              ("itinerary", nullValue);
              ("error", nullValue)]]> (documents w).
Proof.
  unfold Worker.fetch.
  destruct (String.eqb (method request) "OPTIONS"); [discriminate |].
  destruct (negb (String.eqb (method request) "POST")); [discriminate |].
  unfold handlePost.
  destruct (validateEnvironment env); [| discriminate].
  destruct (JSON_parse (payload request)) as [requestBody |]; [| discriminate].
  destruct (safeParse RequestSchema requestBody) as [validated | issues] eqn:Hparse;
    [| discriminate].
  destruct (safeParse_request_validated _ _ Hparse) as (d & n & z & -> & Hd & Hn & Hz).
  pose proof (generateUUID_effect w) as (Huuid & Hclock & _ & Hdocs & _).
  destruct (generateUUID w) as [id wu]. cbn [fst snd] in Huuid, Hclock, Hdocs.
  pose proof (getAccessToken_effect (FIREBASE_SERVICE_ACCOUNT env) wu) as [Hclockt _].
  pose proof (getAccessToken_documents JSON_parse (FIREBASE_SERVICE_ACCOUNT env) wu) as Hdocst.
  destruct (getAccessToken JSON_parse (FIREBASE_SERVICE_ACCOUNT env) wu)
    as [[token | e] wt]; [| discriminate].
  cbn [fst snd] in Hclockt, Hdocst.
  change (default JsUndefined
            (get_prop (JsObject [("destination", JsStr d); ("durationDays", JsNum n)])
               "destination")) with (JsStr d).
  change (default JsUndefined
            (get_prop (JsObject [("destination", JsStr d); ("durationDays", JsNum n)])
               "durationDays")) with (JsNum n).
  destruct (createDocument JSON_parse "itineraries" id _ wt) as [[result | e] wc] eqn:Hcreate;
    [| discriminate].
  intros H. injection H as <- <- <-.
  apply createDocument_returns in Hcreate as (fields & Hfields & Hstore).
  destruct (toISOString (Some (clock wt))) as [iso | e] eqn:Hiso.
  - rewrite (initialDocument_fields d n z wt iso Hn Hiso) in Hfields. injection Hfields as <-.
    exists d, n, z, iso. rewrite <- Hclock, <- Hclockt, Hstore, Hdocst, Hdocs.
    repeat split; try assumption; lia.
  - exfalso. unfold convertToFirestoreFields, initialDocument, Date_now in Hfields.
    cbn [Object_entries bind forEntries toFirestoreValue] in Hfields.
    rewrite Hn, Hiso in Hfields. discriminate Hfields.
Qed.

Lemma recordFailure_writes task error w :
  (forall other,
      other <> task_path task ->
      documents (snd (recordFailure JSON_parse task error w)) !! other = documents w !! other)
  /\ (forall path,
        is_Some (documents w !! path) ->
        is_Some (documents (snd (recordFailure JSON_parse task error w)) !! path)).
Proof.
  unfold recordFailure.
  set (w0 := console_error (background_error task) w).
  pose proof (updateDocument_writes "itineraries" (jobId task) (failedUpdate error w0) w0)
    as Hwrites.
  change (documents w0) with (documents w) in Hwrites.
  destruct (updateDocument JSON_parse "itineraries" (jobId task) (failedUpdate error w0) w0)
    as [[result | e] w1]; exact Hwrites.
Qed.

(** X19: the background task writes the document of its own job and no
    other: every other document of the store is left as it was, and a
    document that exists is never removed. *)
Theorem background_task_writes_its_job_only (task : Task) (w : World) :
  (forall other,
      other <> task_path task ->
      documents (snd (processItinerary JSON_parse ZodError_message task w)) !! other = documents w !! other)
  /\ (forall path,
        is_Some (documents w !! path) ->
        is_Some (documents (snd (processItinerary JSON_parse ZodError_message task w)) !! path)).
Proof.
  unfold processItinerary, tryGenerate.
  assert (Hgen : documents (snd (generateItinerary JSON_parse ZodError_message w))
                 = documents w) by apply generateItinerary_documents.
  destruct (generateItinerary JSON_parse ZodError_message w) as [[itinerary | error] w1];
    cbn [snd] in Hgen.
  - pose proof (updateDocument_writes "itineraries" (jobId task)
                  (completedUpdate task (default JsUndefined itinerary) w1) w1)
      as [Hother Hkept].
    rewrite Hgen in Hother, Hkept.
    destruct (updateDocument JSON_parse "itineraries" (jobId task) _ w1)
      as [[result | e] w2]; cbn [snd] in *; [split; assumption |].
    destruct (recordFailure_writes task e w2) as [Hother' Hkept']. split.
    + intros other Hne. now rewrite Hother', Hother.
    + intros path Hpath. auto.
  - destruct (recordFailure_writes task error w1) as [Hother Hkept].
    rewrite Hgen in Hother, Hkept. split; assumption.
Qed.

(** X20: what one request costs.  The handler never waits and consumes
    at most two answers of the network (the token exchange and the
    creation of the document), exactly two when it starts a job; with the
    background task the request consumes at most eight answers, and the
    only waits are those between two calls to the generative service, at
    most 14 s in all. *)
Theorem serve_budget (request : Request) (env : Env) (w : World) :
  (exists k : nat,
      (k <= 2)%nat
      /\ network (snd (Worker.fetch JSON_parse request env w)) = drop k (network w)
      /\ clock (snd (Worker.fetch JSON_parse request env w)) = clock w
      /\ (is_Some (snd (fst (Worker.fetch JSON_parse request env w))) -> k = 2%nat))
  /\ exists k : nat,
       (k <= 8)%nat
       /\ network (snd (serve JSON_parse ZodError_message request env w)) = drop k (network w)
       /\ clock w <= clock (snd (serve JSON_parse ZodError_message request env w)) <= clock w + 14000.
Proof.
  assert (Hhandler : exists k : nat,
            (k <= 2)%nat
            /\ network (snd (Worker.fetch JSON_parse request env w)) = drop k (network w)
            /\ clock (snd (Worker.fetch JSON_parse request env w)) = clock w
            /\ (is_Some (snd (fst (Worker.fetch JSON_parse request env w))) -> k = 2%nat)).
  { assert (Hnone : forall A (x : A), is_Some (@None A) -> x = x) by reflexivity.
    unfold Worker.fetch.
    destruct (String.eqb (method request) "OPTIONS").
    { exists 0%nat. cbn. repeat split; [lia |]. intros [? ?]; discriminate. }
    destruct (negb (String.eqb (method request) "POST")).
    { exists 0%nat. cbn. repeat split; [lia |]. intros [? ?]; discriminate. }
    unfold handlePost.
    destruct (validateEnvironment env).
    2: { exists 0%nat. cbn. repeat split; [lia |]. intros [? ?]; discriminate. }
    destruct (JSON_parse (payload request)) as [requestBody |].
    2: { exists 0%nat. cbn. repeat split; [lia |]. intros [? ?]; discriminate. }
    destruct (safeParse RequestSchema requestBody) as [validated | issues].
    2: { exists 0%nat. cbn. repeat split; [lia |]. intros [? ?]; discriminate. }
    pose proof (generateUUID_effect w) as (_ & Hclock & Hnet & _).
    destruct (generateUUID w) as [id wu]. cbn [fst snd] in Hclock, Hnet.
    pose proof (getAccessToken_effect (FIREBASE_SERVICE_ACCOUNT env) wu)
      as (Hclockt & j & Hj & Hnett & Hjt).
    destruct (getAccessToken JSON_parse (FIREBASE_SERVICE_ACCOUNT env) wu)
      as [[token | e] wt]; cbn [fst snd returns] in Hclockt, Hnett, Hjt.
    2: { exists j. cbn [fst snd network clock console_error].
         rewrite Hnett, Hclockt, Hnet, Hclock.
         repeat split; [lia |]. intros [? ?]; discriminate. }
    set (data := initialDocument _ _ wt).
    pose proof (createDocument_effect "itineraries" id data wt)
      as (Hclockc & j' & Hj' & Hnetc & Hjc).
    destruct (createDocument JSON_parse "itineraries" id data wt) as [[result | e] wc];
      cbn [fst snd returns] in Hclockc, Hnetc, Hjc.
    - exists (j + j')%nat. cbn [fst snd].
      rewrite Hnetc, Hnett, drop_drop, Hclockc, Hclockt, Hnet, Hclock.
      repeat split; [lia |]. intros _. rewrite (Hjt eq_refl), (Hjc eq_refl). reflexivity.
    - exists (j + j')%nat. cbn [fst snd network clock console_error].
      rewrite Hnetc, Hnett, drop_drop, Hclockc, Hclockt, Hnet, Hclock.
      repeat split; [lia |]. intros [? ?]; discriminate. }
  split; [exact Hhandler |].
  destruct Hhandler as (k & Hk & Hnet & Hclock & _). unfold serve.
  destruct (Worker.fetch JSON_parse request env w) as [[response [task |]] w1];
    cbn [fst snd] in *.
  - destruct (processItinerary_cost JSON_parse ZodError_message task w1) as (k' & Hk' & Hnet' & Hclock').
    pose proof (generateItinerary_wait JSON_parse ZodError_message w1) as Hwait.
    exists (k + k')%nat. rewrite Hnet', Hnet, drop_drop, Hclock'. rewrite Hclock in Hwait.
    repeat split; lia.
  - exists k. rewrite Hnet, Hclock. repeat split; lia.
Qed.

End JobFacts.

Lemma created_job_document_witness :
  exists d n z iso,
    destination kyoto_task = JsStr d /\ d <> ""
    /\ durationDays kyoto_task = JsNum n /\ integral n = Some z /\ 1 <= z <= 30
    /\ toISOString (Some (clock busy_then_fine)) = Return iso.
Proof.
  destruct (Worker.fetch table_parse (mkRequest "POST" "request") worker_env busy_then_fine)
    as [[response task] w1] eqn:Hfetch.
  assert (Htask : exists id, task = Some (mkTask id (JsStr "Kyoto, Japan") (JsNum (Integer 4)))).
  { vm_compute in Hfetch. injection Hfetch as <- <- <-. eauto. }
  destruct Htask as [id ->].
  destruct (created_job_document table_parse _ _ _ _ _ _ Hfetch)
    as (d & n & z & iso & Hd & Hne & Hn & Hz & Hrange & Hiso & _).
  exists d, n, z, iso. cbn [destination durationDays kyoto_task] in *. auto 10.
Defined.

(** ** What a refused request is told *)

Section RefusedRequests.
Variable JSON_parse : string -> option JsValue.
Variable ZodError_message : list Issue -> string.



End RefusedRequests.


(** ** Validated values *)

Lemma parse_items_fixed (parse parse' : list string -> JsValue -> Parsed)
    (Q : JsValue -> bool) at_ at' items :
  Forall (fun item =>
            Q item = true ->
            forall p p', fst (parse p (fst (parse' p' item))) = fst (parse' p' item)) items ->
  forallb Q items = true ->
  forall i j,
    fst (parse_items parse at_ i (fst (parse_items parse' at' j items)))
    = fst (parse_items parse' at' j items).
Proof.
  induction 1 as [| item rest Hitem _ IH]; intros Hacc i j; [reflexivity |].
  cbn [forallb] in Hacc. apply andb_true_iff in Hacc as [Hq Hqs].
  cbn [parse_items].
  specialize (Hitem Hq (at_ ++ [decimal (Z.of_nat i)]) (at' ++ [decimal (Z.of_nat j)])).
  destruct (parse' (at' ++ [decimal (Z.of_nat j)]) item) as [v issues].
  specialize (IH Hqs (S i) (S j)).
  destruct (parse_items parse' at' (S j) rest) as [vs more].
  cbn [fst parse_items] in *.
  destruct (parse (at_ ++ [decimal (Z.of_nat i)]) v) as [v' issues'].
  destruct (parse_items parse at_ (S i) vs) as [vs' more'].
  cbn [fst] in *. congruence.
Qed.

Lemma parse_shape_fixed (parse : Schema -> list string -> JsValue -> Parsed)
    at_ (vs : list (string * JsValue)) (target : string -> Schema -> JsValue) shape :
  (forall key schema,
      (key, schema) ∈ shape ->
      lookup_prop vs key = Some (target key schema)
      /\ fst (parse schema (at_ ++ [key]) (target key schema)) = target key schema) ->
  fst (parse_shape parse at_ vs shape)
  = map (fun entry => (fst entry, target (fst entry) (snd entry))) shape.
Proof.
  induction shape as [| [key schema] rest IH]; intros Hshape; [reflexivity |].
  cbn [parse_shape map fst snd].
  destruct (Hshape key schema) as [Hlookup Hfixed]; [left |].
  rewrite Hlookup. cbn [default from_option id].
  destruct (parse schema (at_ ++ [key]) (target key schema)) as [v issues].
  cbn [fst] in Hfixed. subst v.
  rewrite <- IH by (intros k s Hin; apply Hshape; now right).
  destruct (parse_shape parse at_ vs rest) as [vs' more]. reflexivity.
Qed.

Lemma parse_shape_values (parse : Schema -> list string -> JsValue -> Parsed)
    at_ props shape :
  fst (parse_shape parse at_ props shape)
  = map (fun entry =>
           (fst entry,
            fst (parse (snd entry) (at_ ++ [fst entry])
                   (default JsUndefined (lookup_prop props (fst entry)))))) shape.
Proof.
  induction shape as [| [key schema] rest IH]; [reflexivity |].
  cbn [parse_shape map fst snd].
  destruct (parse schema (at_ ++ [key]) (default JsUndefined (lookup_prop props key)))
    as [v issues].
  destruct (parse_shape parse at_ props rest) as [vs more]. cbn [fst] in *.
  now rewrite IH.
Qed.

Lemma parse_at_path schema :
  forall p p' input, fst (parse_at schema p input) = fst (parse_at schema p' input).
Proof.
  induction schema as [min | checks | values | element min IH | shape IH]
    using Schema_nested_ind; intros p p' input.
  - destruct input; reflexivity.
  - destruct input as [| | | n | | | | |]; try reflexivity. destruct n; reflexivity.
  - destruct input; reflexivity.
  - destruct input as [| | | | | | items | |]; try reflexivity. cbn [parse_at].
    assert (H : forall i, fst (parse_items (parse_at element) p i items)
                          = fst (parse_items (parse_at element) p' i items)).
    { induction items as [| item rest IHitems]; intros i; [reflexivity |].
      cbn [parse_items]. specialize (IHitems (S i)).
      specialize (IH (p ++ [decimal (Z.of_nat i)]) (p' ++ [decimal (Z.of_nat i)]) item).
      destruct (parse_at element (p ++ _) item), (parse_at element (p' ++ _) item).
      destruct (parse_items (parse_at element) p (S i) rest),
               (parse_items (parse_at element) p' (S i) rest).
      cbn [fst] in *. congruence. }
    specialize (H 0%nat).
    destruct (parse_items (parse_at element) p 0 items),
             (parse_items (parse_at element) p' 0 items). cbn [fst] in *. congruence.
  - destruct input as [| | | | | | | props |]; try reflexivity. cbn [parse_at].
    pose proof (parse_shape_values parse_at p props shape) as H1.
    pose proof (parse_shape_values parse_at p' props shape) as H2.
    destruct (parse_shape parse_at p props shape), (parse_shape parse_at p' props shape).
    cbn [fst] in *. rewrite H1, H2. f_equal. apply map_ext_in. intros [key schema] Hin.
    cbn [fst snd]. f_equal. rewrite Forall_forall in IH.
    apply (IH (key, schema)). now apply list_elem_of_In.
Qed.

Lemma parse_at_fixed schema :
  distinct_keys schema = true ->
  forall at_ at' input,
    accepts schema input = true ->
    fst (parse_at schema at_ (fst (parse_at schema at' input)))
    = fst (parse_at schema at' input).
Proof.
  induction schema as [min | checks | values | element min IH | shape IH]
    using Schema_nested_ind; intros Hkeys at_ at' input Hacc.
  - destruct input; try discriminate. reflexivity.
  - destruct input as [| | | n | | | | |]; try discriminate. destruct n; try discriminate;
      reflexivity.
  - destruct input; try discriminate. reflexivity.
  - destruct input as [| | | | | | items | |]; try discriminate.
    cbn [accepts] in Hacc. apply andb_true_iff in Hacc as [_ Hitems].
    cbn [distinct_keys] in Hkeys. cbn [parse_at].
    pose proof (parse_items_fixed (parse_at element) (parse_at element) (accepts element)
                  at_ at' items) as Hfixed.
    destruct (parse_items (parse_at element) at' 0 items) as [vs issues] eqn:E.
    cbn [fst parse_at].
    specialize (Hfixed (ltac:(apply Forall_forall; intros item _ Hq p p'; now apply IH))
                  Hitems 0%nat 0%nat).
    rewrite E in Hfixed. cbn [fst] in Hfixed.
    destruct (parse_items (parse_at element) at_ 0 vs) as [vs' issues'].
    cbn [fst] in *. congruence.
  - destruct input as [| | | | | | | props |]; try discriminate.
    cbn [accepts] in Hacc. cbn [distinct_keys] in Hkeys.
    apply andb_true_iff in Hkeys as [Hnodup Hsub]. apply bool_decide_eq_true in Hnodup.
    cbn [parse_at].
    pose proof (parse_shape_lookup parse_at at' props shape) as Hlookup.
    pose proof (parse_shape_values parse_at at' props shape) as Hvalues.
    destruct (parse_shape parse_at at' props shape) as [vs issues].
    cbn [fst parse_at] in *.
    pose proof (parse_shape_fixed parse_at at_ vs
                  (fun key schema =>
                     fst (parse_at schema (at' ++ [key])
                            (default JsUndefined (lookup_prop props key)))) shape) as Hfixed.
    destruct (parse_shape parse_at at_ vs shape) as [vs' issues'].
    cbn [fst] in *. rewrite Hvalues. f_equal. apply Hfixed.
    intros key schema Hin. split; [now apply Hlookup |].
    rewrite Forall_forall in IH. rewrite forallb_forall in Hsub, Hacc.
    rewrite (parse_at_path schema (at_ ++ [key]) (at' ++ [key])).
    apply (IH (key, schema) Hin).
    + apply (Hsub (key, schema)). now apply list_elem_of_In.
    + apply (Hacc (key, schema)). now apply list_elem_of_In.
Qed.

(** X22: validation is idempotent on the schemas of the worker: a
    request, or an itinerary, that validation has returned passes
    validation again and is returned unchanged. *)
Theorem validation_is_idempotent (ZodError_message : list Issue -> string)
    (input validated : JsValue) :
  (parse ZodError_message RequestSchema input = Return validated ->
   parse ZodError_message RequestSchema validated = Return validated)
  /\ (parse ZodError_message ItinerarySchema input = Return validated ->
      parse ZodError_message ItinerarySchema validated = Return validated).
Proof.
  assert (Hany : forall schema,
            distinct_keys schema = true ->
            parse ZodError_message schema input = Return validated ->
            parse ZodError_message schema validated = Return validated).
  { intros schema Hkeys Hparse.
    pose proof (parse_accepted _ schema input validated Hkeys Hparse) as Hagain.
    assert (Hacc : accepts schema input = true).
    { rewrite <- (parse_returns_accepts ZodError_message). now rewrite Hparse. }
    pose proof (parse_at_fixed schema Hkeys [] [] input Hacc) as Hfixed.
    apply parse_at_accepts with (at_ := []) in Hagain.
    unfold parse, safeParse in *.
    destruct (parse_at schema [] input) as [v [| issue issues]]; [| discriminate].
    injection Hparse as ->. cbn [fst] in Hfixed.
    destruct (parse_at schema [] validated) as [v' issues']. cbn [fst snd] in *.
    subst. reflexivity. }
  split; apply Hany; reflexivity.
Qed.

(** ** The text between the brackets *)

Lemma strlen_append p r : strlen (p +:+ r) = strlen p + strlen r.
Proof.
  unfold strlen. induction p as [| a p IH]; [reflexivity |].
  change (String a p +:+ r) with (String a (p +:+ r)). cbn [String.length]. lia.
Qed.

Lemma string_app_assoc (p q r : string) : (p +:+ q) +:+ r = p +:+ (q +:+ r).
Proof.
  induction p as [| a p IH]; [reflexivity |].
  change ((String a p +:+ q) +:+ r) with (String a ((p +:+ q) +:+ r)).
  change (String a p +:+ q +:+ r) with (String a (p +:+ q +:+ r)). now rewrite IH.
Qed.

Lemma indexOf_range c s : -1 <= indexOf c s.
Proof.
  induction s as [| a s IH]; cbn [indexOf]; [lia |].
  destruct (Ascii.eqb a c); [lia |]. destruct (Z.ltb_spec (indexOf c s) 0); lia.
Qed.

Lemma lastIndexOf_range c s : -1 <= lastIndexOf c s.
Proof.
  induction s as [| a s IH]; cbn [lastIndexOf]; [lia |].
  destruct (Z.leb_spec 0 (lastIndexOf c s)); [lia |]. destruct (Ascii.eqb a c); lia.
Qed.

(** The first occurrence is the one after a prefix without any. *)
Lemma indexOf_first c p r :
  indexOf c p = -1 -> indexOf c (p +:+ String c r) = strlen p.
Proof.
  unfold strlen. induction p as [| a p IH].
  - intros _. change ("" +:+ String c r) with (String c r). cbn [indexOf String.length].
    now rewrite Ascii.eqb_refl.
  - change (String a p +:+ String c r) with (String a (p +:+ String c r)).
    cbn [indexOf String.length]. destruct (Ascii.eqb a c); [discriminate |].
    destruct (Z.ltb_spec (indexOf c p) 0) as [Hneg | Hpos]; [| lia].
    intros _. pose proof (indexOf_range c p). rewrite IH by lia.
    destruct (Z.ltb_spec (Z.of_nat (String.length p)) 0); lia.
Qed.

(** The last occurrence is the one before a suffix without any. *)
Lemma lastIndexOf_last c p r :
  lastIndexOf c r = -1 -> lastIndexOf c (p +:+ String c r) = strlen p.
Proof.
  unfold strlen. intros Hr.
  induction p as [| a p IH].
  - change ("" +:+ String c r) with (String c r). cbn [lastIndexOf String.length].
    rewrite Hr, Ascii.eqb_refl. reflexivity.
  - change (String a p +:+ String c r) with (String a (p +:+ String c r)).
    cbn [lastIndexOf String.length]. rewrite IH. destruct (Z.leb_spec 0 (Z.of_nat (String.length p))); lia.
Qed.

Lemma indexOf_append c p r :
  indexOf c (p +:+ r) = -1 <-> indexOf c p = -1 /\ indexOf c r = -1.
Proof.
  induction p as [| a p IH]; [change ("" +:+ r) with r; cbn [indexOf]; tauto |].
  change (String a p +:+ r) with (String a (p +:+ r)). cbn [indexOf].
  destruct (Ascii.eqb a c); [split; [discriminate | intros [H _]; discriminate H] |].
  pose proof (indexOf_range c (p +:+ r)). pose proof (indexOf_range c p).
  destruct (Z.ltb_spec (indexOf c (p +:+ r)) 0), (Z.ltb_spec (indexOf c p) 0); lia.
Qed.

Lemma lastIndexOf_append c p r :
  lastIndexOf c (p +:+ r) = -1 <-> lastIndexOf c p = -1 /\ lastIndexOf c r = -1.
Proof.
  induction p as [| a p IH]; [change ("" +:+ r) with r; cbn [lastIndexOf]; tauto |].
  change (String a p +:+ r) with (String a (p +:+ r)). cbn [lastIndexOf].
  pose proof (lastIndexOf_range c (p +:+ r)). pose proof (lastIndexOf_range c p).
  destruct (Z.leb_spec 0 (lastIndexOf c (p +:+ r))), (Z.leb_spec 0 (lastIndexOf c p)),
           (Ascii.eqb a c); lia.
Qed.

Lemma substring_skip p : forall n t, String.substring (String.length p) n (p +:+ t)
                                     = String.substring 0 n t.
Proof.
  induction p as [| a p IH]; intros n t; [reflexivity |].
  change (String a p +:+ t) with (String a (p +:+ t)). cbn [String.length String.substring].
  apply IH.
Qed.

Lemma substring_prefix m : forall r, String.substring 0 (String.length m) (m +:+ r) = m.
Proof.
  induction m as [| a m IH]; intros r.
  - change ("" +:+ r) with r. cbn [String.length String.substring]. now destruct r.
  - change (String a m +:+ r) with (String a (m +:+ r)).
    cbn [String.length String.substring]. now rewrite IH.
Qed.

(** [s.substring(start, end)] on a text cut in three, from either side. *)
Lemma substring_middle p m r start end_ :
  start = strlen p -> end_ = strlen p + strlen m ->
  substring (p +:+ m +:+ r) start end_ = m
  /\ substring (p +:+ m +:+ r) end_ start = m.
Proof.
  intros -> ->. unfold substring.
  assert (Hlen : strlen (p +:+ m +:+ r) = strlen p + strlen m + strlen r)
    by (rewrite !strlen_append; lia).
  assert (Hp : 0 <= strlen p) by (unfold strlen; lia).
  assert (Hm : 0 <= strlen m) by (unfold strlen; lia).
  assert (Hr : 0 <= strlen r) by (unfold strlen; lia).
  replace (clamp 0 (strlen (p +:+ m +:+ r)) (strlen p)) with (strlen p)
    by (unfold clamp; lia).
  replace (clamp 0 (strlen (p +:+ m +:+ r)) (strlen p + strlen m))
    with (strlen p + strlen m) by (unfold clamp; lia).
  replace (Z.min (strlen p) (strlen p + strlen m)) with (strlen p) by lia.
  replace (Z.max (strlen p) (strlen p + strlen m)) with (strlen p + strlen m) by lia.
  replace (Z.min (strlen p + strlen m) (strlen p)) with (strlen p) by lia.
  replace (Z.max (strlen p + strlen m) (strlen p)) with (strlen p + strlen m) by lia.
  replace (strlen p + strlen m - strlen p) with (strlen m) by lia.
  unfold strlen. rewrite !Nat2Z.id, substring_skip, substring_prefix. split; reflexivity.
Qed.

Section Brackets.
Variable JSON_parse : string -> option JsValue.
Variable ZodError_message : list Issue -> string.

(** X23: the reply of the generative service is read between its
    outermost brackets.  When the content is some text without [, then
    [, any text, ], then some text without ], the outcome of the call is
    that of parsing and validating the bracketed part alone: what
    surrounds it is ignored.  When the last ] comes before the first [,
    the arguments of [substring] are swapped and what is parsed is the
    text between the two, without the brackets. *)
Theorem reply_is_read_between_brackets (response : HttpResponse) (w : World)
    (before inner after : string) :
  ok response = true ->
  (bind (json JSON_parse response) content_of
   = Return (JsStr (before +:+ "[" +:+ inner +:+ "]" +:+ after)) ->
   indexOf "[" before = -1 -> lastIndexOf "]" after = -1 ->
   readResponse JSON_parse ZodError_message response w = read_array JSON_parse ZodError_message ("[" +:+ inner +:+ "]") w)
  /\ (bind (json JSON_parse response) content_of
      = Return (JsStr (before +:+ "]" +:+ inner +:+ "[" +:+ after)) ->
      indexOf "[" before = -1 -> indexOf "[" inner = -1 ->
      lastIndexOf "]" inner = -1 -> lastIndexOf "]" after = -1 ->
      readResponse JSON_parse ZodError_message response w = read_array JSON_parse ZodError_message inner w).
Proof.
  intros Hok.
  assert (Hread : forall content start end_ text,
            bind (json JSON_parse response) content_of = Return (JsStr content) ->
            indexOf "[" content = start -> lastIndexOf "]" content = end_ ->
            0 <= start -> 0 <= end_ ->
            substring content start (end_ + 1) = text ->
            readResponse JSON_parse ZodError_message response w = read_array JSON_parse ZodError_message text w).
  { intros content start end_ text Hcontent Hstart Hend Hs He Htext.
    unfold readResponse, read_array. rewrite Hok, Hcontent. cbn [negb].
    destruct content as [| c rest]; [cbn [indexOf] in Hstart; lia |].
    rewrite Hstart, Hend, Htext.
    destruct (Z.eqb_spec start (-1)); [lia |]. destruct (Z.eqb_spec end_ (-1)); [lia |].
    reflexivity. }
  assert (Hlen : forall s, 0 <= strlen s) by (intros s; unfold strlen; lia).
  split.
  - intros Hcontent Hbefore Hafter.
    apply (Hread _ (strlen before) (strlen before + strlen ("[" +:+ inner)) _ Hcontent).
    + apply indexOf_first. exact Hbefore.
    + replace (before +:+ "[" +:+ inner +:+ "]" +:+ after)
        with ((before +:+ "[" +:+ inner) +:+ String "]" after)
        by (now rewrite string_app_assoc).
      rewrite (lastIndexOf_last _ _ _ Hafter), strlen_append. reflexivity.
    + apply Hlen.
    + pose proof (Hlen before). pose proof (Hlen ("[" +:+ inner)). lia.
    + replace (before +:+ "[" +:+ inner +:+ "]" +:+ after)
        with (before +:+ ("[" +:+ inner +:+ "]") +:+ after)
        by (now rewrite <- !string_app_assoc).
      refine (proj1 (substring_middle before ("[" +:+ inner +:+ "]") after _ _ eq_refl _)).
      rewrite <- (string_app_assoc "[" inner "]"), !strlen_append.
      change (strlen "]") with 1. lia.
  - intros Hcontent Hbefore Hinner Hinner' Hafter.
    apply (Hread _ (strlen (before +:+ "]") + strlen inner) (strlen before) _ Hcontent).
    + replace (before +:+ "]" +:+ inner +:+ "[" +:+ after)
        with ((before +:+ "]" +:+ inner) +:+ String "[" after)
        by (now rewrite !string_app_assoc).
      rewrite indexOf_first, !strlen_append; [lia |].
      apply indexOf_append. split; [exact Hbefore |].
      change ("]" +:+ inner) with (String "]" inner). cbn [indexOf].
      change (Ascii.eqb "]" "[") with false. cbv iota. now rewrite Hinner.
    + apply lastIndexOf_last. apply lastIndexOf_append. split; [exact Hinner' |].
      change ("[" +:+ after) with (String "[" after). cbn [lastIndexOf].
      rewrite Hafter. reflexivity.
    + pose proof (Hlen (before +:+ "]")). pose proof (Hlen inner). lia.
    + apply Hlen.
    + replace (before +:+ "]" +:+ inner +:+ "[" +:+ after)
        with ((before +:+ "]") +:+ inner +:+ ("[" +:+ after))
        by (now rewrite !string_app_assoc).
      refine (proj2 (substring_middle (before +:+ "]") inner ("[" +:+ after) _ _ _ eq_refl)).
      rewrite strlen_append. change (strlen "]") with 1. lia.
Qed.

End Brackets.

Lemma reply_is_read_between_brackets_witness :
  readResponse table_parse table_message (mkResponse 200 "one slot") (quiet_world [])
  = read_array table_parse table_message "[DAYS]" (quiet_world []).
Proof.
  apply (reply_is_read_between_brackets table_parse table_message (mkResponse 200 "one slot")
           (quiet_world []) "```json " "DAYS" " ```"); reflexivity.
Defined.

(** ** What the caller is told of a refusal upstream *)


Section Refusals.
Variable JSON_parse : string -> option JsValue.
Variable ZodError_message : list Issue -> string.


End Refusals.


(** ** The declared shapes of the responses *)

Section DeclaredShapes.
Variable JSON_parse : string -> option JsValue.
Variable ZodError_message : list Issue -> string.

Lemma createErrorResponse_shape msg status details :
  error_response (body (createErrorResponse msg status details)) = true.
Proof.
  unfold createErrorResponse. destruct details as [[| c s] |]; reflexivity.
Qed.

(** X25: the responses of the handler have the shapes that types.js
    declares for them.  The body of a 202 answer is an object whose
    [jobId] is a version 4 identifier, as [JobResponseSchema] asks; the
    body of every answer other than 200 and 202 is an object whose [error]
    is a text and whose [details], if any, is a text, as
    [ErrorResponseSchema] asks; the answer to OPTIONS has no body. *)
Theorem responses_have_declared_shapes (request : Request) (env : Env) (w : World) :
  let response := fst (fst (Worker.fetch JSON_parse request env w)) in
  (code response = 202 -> job_response (body response) = true)
  /\ (code response = 200 -> body response = JsNull)
  /\ (code response <> 200 -> code response <> 202 ->
      error_response (body response) = true).
Proof.
  cbv zeta. unfold Worker.fetch.
  destruct (String.eqb (method request) "OPTIONS").
  { cbn [fst code body]. repeat split; congruence || discriminate. }
  destruct (negb (String.eqb (method request) "POST")).
  { cbn [fst]. rewrite createErrorResponse_shape. repeat split; discriminate || auto. }
  unfold handlePost.
  destruct (validateEnvironment env).
  2: { cbn [fst]. rewrite createErrorResponse_shape. repeat split; discriminate || auto. }
  destruct (JSON_parse (payload request)) as [requestBody |].
  2: { cbn [fst]. rewrite createErrorResponse_shape. repeat split; discriminate || auto. }
  destruct (safeParse RequestSchema requestBody) as [validated | issues].
  2: { cbn [fst]. rewrite createErrorResponse_shape. repeat split; discriminate || auto. }
  pose proof (generateUUID_effect w) as (Huuid & _).
  destruct (generateUUID w) as [id wu]. cbn [fst] in Huuid.
  destruct (getAccessToken JSON_parse (FIREBASE_SERVICE_ACCOUNT env) wu)
    as [[token | e] wt].
  2: { cbn [fst]. rewrite createErrorResponse_shape. repeat split; discriminate || auto. }
  destruct (createDocument JSON_parse "itineraries" id _ wt) as [[result | e] wc].
  2: { cbn [fst]. rewrite createErrorResponse_shape. repeat split; discriminate || auto. }
  cbn [fst code body createSuccessResponse].
  split; [intros _; exact Huuid |]. split; [discriminate | congruence].
Qed.

End DeclaredShapes.

(** ** Where the page and the worker differ *)

Section Divergence.
Variable untyped : string -> JsValue.

(** X26: a list of plain values is read back by the worker, not by the
    page.  For a field, of a name other than [__proto__], that holds a
    non-empty array of texts, numbers, booleans or nulls, the decoder of
    the worker returns the object that was written, while the parser of
    the page throws on the fields that the worker wrote. *)
Theorem parser_rejects_lists_of_scalars (key : string) (item : JsValue)
    (items : list JsValue) :
  key <> "__proto__" ->
  forallb scalar (item :: items) = true ->
  round_trip (JsObject [(key, JsArray (item :: items))])
  = Return (JsObject [(key, JsArray (item :: items))])
  /\ exists fields,
       convertToFirestoreFields (JsObject [(key, JsArray (item :: items))]) = Return fields
       /\ returns (parseFirestoreDocument untyped (Some fields)) = false.
Proof.
  intros _ Hscalars.
  assert (Harray : storable (JsArray (item :: items)) = true).
  { cbn [storable]. apply forallb_forall. intros x Hx. rewrite forallb_forall in Hscalars.
    specialize (Hscalars x Hx). destruct x; try discriminate Hscalars; exact Hscalars. }
  assert (Hstorable : storable (JsObject [(key, JsArray (item :: items))]) = true).
  { change (bool_decide (NoDup [key])
            && (storable (JsArray (item :: items)) && true) = true).
    rewrite Harray. apply andb_true_iff. split; [| reflexivity].
    apply bool_decide_eq_true. apply NoDup_singleton. }
  destruct (storable_round_trip _ Hstorable) as (x & Hto & Hfrom).
  split.
  - unfold round_trip, convertToFirestoreFields, convertFromFirestoreFields.
    cbn [toFirestoreValue Object_entries bind] in *. unfold asMap in Hto.
    destruct (forEntries toFirestoreValue [(key, JsArray (item :: items))] [])
      as [fields | e]; [| discriminate].
    cbn [bind] in *. injection Hto as <-. cbn [fromFirestoreValue] in Hfrom.
    destruct (asObject (forEntries fromFirestoreValue fields [])) as [obj | e];
      cbn [bind] in Hfrom; congruence.
  - clear Hfrom Hto x. destruct (storable_round_trip _ Harray) as (x & Hto & _).
    unfold convertToFirestoreFields. cbn [Object_entries bind forEntries].
    rewrite toFirestoreValue_array in *.
    destruct (mapM toFirestoreItem (item :: items)) as [values | e] eqn:Hitems;
      cbn [bind] in *; [| discriminate].
    eexists. split; [reflexivity |].
    cbn [parseFirestoreDocument assign forEntries]. unfold asObject.
    assert (Hthrows : returns (parseFirestoreValue untyped (arrayValue values)) = false).
    { rewrite parseFirestoreValue_returns. cbn [mapM] in Hitems.
      cbn [forallb] in Hscalars. apply andb_true_iff in Hscalars as [Hitem _].
      destruct (toFirestoreItem item) as [first | e] eqn:Hfirst; [| discriminate].
      destruct (mapM toFirestoreItem items) as [others | e]; [| discriminate].
      injection Hitems as <-. cbn [arrays_of_maps forallb].
      destruct item as [| | b | n | s | | | |]; try discriminate Hitem;
        cbn [toFirestoreItem toFirestoreValue] in Hfirst.
      - injection Hfirst as <-. reflexivity.
      - injection Hfirst as <-. reflexivity.
      - destruct (integral n); injection Hfirst as <-; reflexivity.
      - injection Hfirst as <-. reflexivity. }
    destruct (parseFirestoreValue untyped (arrayValue values)) as [[parsed |] | e];
      try discriminate Hthrows; reflexivity.
Qed.

End Divergence.

Lemma parser_rejects_lists_of_scalars_witness :
  round_trip (JsObject [("tags", JsArray [JsStr "temples"; JsStr "gardens"])])
  = Return (JsObject [("tags", JsArray [JsStr "temples"; JsStr "gardens"])])
  /\ exists fields,
       convertToFirestoreFields (JsObject [("tags", JsArray [JsStr "temples"; JsStr "gardens"])])
       = Return fields
       /\ returns (parseFirestoreDocument (fun _ => JsNull) (Some fields)) = false.
Proof.
  apply (parser_rejects_lists_of_scalars (fun _ => JsNull) "tags" (JsStr "temples")
           [JsStr "gardens"]); [discriminate | reflexivity].
Defined.
